(** * Coffee & Connect 2026 schedule app (CWC.py): core utilities

    A shallow embedding of the pure functions of [CWC.py]:
    [clean_text], [parse_time_range], [enrich_schedule],
    [upcoming_between] and [ics_from_rows], together with the parts of
    the Python runtime ([str], [re], [datetime], [_strptime]) and of
    pandas 2.x that these functions call; then of [toast_events], of
    the loop over the events in the script [js_browser_notifications]
    injects, and of three computations of the page: the list of missing
    columns, the filtered table and the card of the next session.

    Conventions.
    - A Python [str] is a list of Unicode code points ([N]).
    - An exception is a value of [exn]; code that can raise returns
      [result].
    - An aware datetime in the zone [IST] is the number of microseconds
      shown by the Asia/Kolkata wall clock since 0001-01-01T00:00:00.
      The zone is taken at its fixed offset +05:30 (what the tz
      database gives from 15 October 1945 on).
    - [datetime.strptime] follows CPython's [_strptime] (3.9 to 3.12):
      the format is compiled to a regular expression, matched with
      backtracking, and the groups are converted with [int].  The
      decimal digits are those of Unicode 14.
    - [strftime("%Y")] does not pad the year (glibc).
    - A [DataFrame] is its list of column labels and its rows; the
      labels are distinct and the index is left out.  A cell is a
      [pyval]; of the floats only NaN occurs.
    - The toasts of [toast_events] are the list of their texts, with
      the exception that ended the loop, if one did; the calls of the
      script are a list of [effect]s.  The other months and the halves
      of the day are named as in the C locale.

    Layout: the embedding, the vocabulary of the statements, the
    functions on examples, then the properties, function by function;
    the further properties come last. *)

From Stdlib Require Import String Ascii DecimalString.
From Stdlib Require Import NArith ZArith List Bool Lia.
From Stdlib Require Import Permutation Sorted RelationClasses.
Import ListNotations.

Local Open Scope Z_scope.

(* ------------------------------------------------------------------ *)
(** * Exceptions *)

Inductive exn : Type :=
| ValueError | KeyError | IndexError | TypeError | AttributeError
| OverflowError.

Inductive result (A : Type) : Type :=
| Ok (a : A)
| Raise (e : exn).
Arguments Ok {A} a.
Arguments Raise {A} e.

Definition bind {A B} (m : result A) (f : A -> result B) : result B :=
  match m with
  | Ok a => f a
  | Raise e => Raise e
  end.

Notation "x <- m ;; k" := (bind m (fun x => k))
  (at level 61, m at next level, right associativity).

(** [try: ... except Exception: v = None] *)
Definition try_or_None {A} (m : result A) : option A :=
  match m with
  | Ok a => Some a
  | Raise _ => None
  end.

(* ------------------------------------------------------------------ *)
(** * Python strings *)

Definition char := N.
Definition str := list char.

(** An ASCII literal as a Python string. *)
Definition lit (s : string) : str :=
  map N_of_ascii (list_ascii_of_string s).
Arguments lit s%_string.

Definition SP : char := 32%N.
Definition HYPHEN : char := 45%N.
Definition EN_DASH : char := 8211%N.
Definition EM_DASH : char := 8212%N.
Definition LF : char := 10%N.
Definition CR : char := 13%N.

(** [str.isspace] for one code point (CPython's
    [_PyUnicode_IsWhitespace]). *)
Definition isspace (c : char) : bool :=
  ((9 <=? c) && (c <=? 13) || (28 <=? c) && (c <=? 32)
   || (c =? 133) || (c =? 160) || (c =? 5760)
   || (8192 <=? c) && (c <=? 8202)
   || (c =? 8232) || (c =? 8233) || (c =? 8239) || (c =? 8287)
   || (c =? 12288))%N.

(** The class [[\u0000-\u001F]]. *)
Definition is_ctrl (c : char) : bool := (c <=? 31)%N.

Fixpoint str_eqb (a b : str) : bool :=
  match a, b with
  | [], [] => true
  | x :: a', y :: b' => (x =? y)%N && str_eqb a' b'
  | _, _ => false
  end.

(** [s.startswith(p)] *)
Fixpoint startswith (p s : str) : bool :=
  match p, s with
  | [], _ => true
  | x :: p', y :: s' => (x =? y)%N && startswith p' s'
  | _ :: _, [] => false
  end.

(** [p in s] *)
Fixpoint contains (p s : str) : bool :=
  startswith p s ||
  match s with
  | [] => false
  | _ :: s' => contains p s'
  end.

(** [s.replace(old, new)] for a non-empty [old], which is also
    [re.sub(old, new, s)] when [old] has no regex metacharacter: the
    matches are found left to right and do not overlap.  [skip] counts
    the characters of the current match still to be dropped. *)
Fixpoint replace_from (old new : str) (skip : nat) (s : str) : str :=
  match s with
  | [] => []
  | c :: s' =>
      match skip with
      | S k => replace_from old new k s'
      | O =>
          if startswith old s
          then new ++ replace_from old new (length old - 1) s'
          else c :: replace_from old new 0 s'
      end
  end.

Definition replace (old new s : str) : str := replace_from old new 0 s.

(** [re.sub(r"[\u0000-\u001F]+", " ", s)]: every maximal run of
    control characters becomes one space. *)
Fixpoint sub_ctrl_runs (s : str) : str :=
  match s with
  | [] => []
  | c :: s' =>
      if is_ctrl c then
        match s' with
        | [] => [SP]
        | c' :: _ => if is_ctrl c' then sub_ctrl_runs s'
                     else SP :: sub_ctrl_runs s'
        end
      else c :: sub_ctrl_runs s'
  end.

Definition starts_word (s : str) : bool :=
  match s with
  | [] => false
  | c :: _ => negb (isspace c)
  end.

(** [s.split()]: the maximal runs of non-whitespace characters. *)
Fixpoint split_ws (s : str) : list str :=
  match s with
  | [] => []
  | c :: s' =>
      if isspace c then split_ws s'
      else if starts_word s' then
             match split_ws s' with
             | w :: ws => (c :: w) :: ws
             | [] => [[c]]
             end
           else [c] :: split_ws s'
  end.

(** [s.split(sep)] for a one-character separator. *)
Fixpoint split_on (sep : char) (s : str) : list str :=
  match s with
  | [] => [[]]
  | c :: s' =>
      if (c =? sep)%N then [] :: split_on sep s'
      else match split_on sep s' with
           | w :: ws => (c :: w) :: ws
           | [] => [[c]]
           end
  end.

(** [sep.join(l)] *)
Fixpoint join (sep : str) (l : list str) : str :=
  match l with
  | [] => []
  | w :: l' =>
      match l' with
      | [] => w
      | _ :: _ => w ++ sep ++ join sep l'
      end
  end.

Fixpoint lstrip (s : str) : str :=
  match s with
  | [] => []
  | c :: s' => if isspace c then lstrip s' else s
  end.

Definition rstrip (s : str) : str := rev (lstrip (rev s)).

(** [s.strip()] *)
Definition strip (s : str) : str := lstrip (rstrip s).

(* ------------------------------------------------------------------ *)
(** * Cell values *)

(** What a cell of the schedule table can hold.  A [PTimestamp] is an
    aware datetime in [IST] (a [datetime] or a pandas [Timestamp]). *)
Inductive pyval : Type :=
| PNone
| PNaN
| PNaT
| PStr (s : str)
| PInt (n : Z)
| PTimestamp (t : Z).

(* ------------------------------------------------------------------ *)
(** * clean_text *)

Definition EXCEL_CR : str := lit "_x000D_".

(** The three statements of [clean_text] on a string. *)
Definition clean_str (x : str) : str :=
  let x := replace EXCEL_CR [SP] x in
  let x := sub_ctrl_runs x in
  join [SP] (split_ws x).

Definition clean_text (x : pyval) : pyval :=
  match x with
  | PStr s => PStr (clean_str s)
  | _ => x
  end.

(* ------------------------------------------------------------------ *)
(** * Regular expressions of [_strptime] *)

(** The zero digits of the Unicode decimal digits (category Nd,
    Unicode 14): each is followed by the digits one to nine. *)
Definition decimal_zeros : list N :=
  [48; 1632; 1776; 1984; 2406; 2534; 2662; 2790; 2918; 3046; 3174;
   3302; 3430; 3558; 3664; 3792; 3872; 4160; 4240; 6112; 6160; 6470;
   6608; 6784; 6800; 6992; 7088; 7232; 7248; 42528; 43216; 43264;
   43472; 43504; 43600; 44016; 65296; 66720; 68912; 69734; 69872;
   69942; 70096; 70384; 70736; 70864; 71248; 71360; 71472; 71904;
   72016; 72784; 73040; 73120; 92768; 92864; 93008; 120782; 120792;
   120802; 120812; 120822; 123200; 123632; 125264; 130032]%N.

(** [unicodedata.decimal(c)], [None] when [c] is not a decimal digit. *)
Definition decimal_value (c : char) : option N :=
  match find (fun z => (z <=? c) && (c <? z + 10))%N decimal_zeros with
  | Some z => Some (c - z)%N
  | None => None
  end.

(** What [\d] matches in a [str] pattern. *)
Definition isdecimal (c : char) : bool :=
  match decimal_value c with
  | Some _ => true
  | None => false
  end.

Inductive directive : Type := dY | dm | dd | dH | dM.

Definition directive_eqb (a b : directive) : bool :=
  match a, b with
  | dY, dY | dm, dm | dd, dd | dH, dH | dM, dM => true
  | _, _ => false
  end.

Inductive regex : Type :=
| RChar (c : char)
| RRange (lo hi : char)
| RDigit
| RCat (r1 r2 : regex)
| RAlt (r1 r2 : regex)
| RGroup (name : directive) (r : regex).

Definition groupdict := list (directive * str).

(** Backtracking match of [r] at the start of [s]; [k] continues with
    the unmatched rest.  The first alternative whose continuation
    succeeds wins, as in [re]. *)
Fixpoint rmatch {A : Type} (r : regex) (s : str) (g : groupdict)
  (k : str -> groupdict -> option A) : option A :=
  match r with
  | RChar c =>
      match s with
      | x :: s' => if (x =? c)%N then k s' g else None
      | [] => None
      end
  | RRange lo hi =>
      match s with
      | x :: s' => if ((lo <=? x) && (x <=? hi))%N then k s' g else None
      | [] => None
      end
  | RDigit =>
      match s with
      | x :: s' => if isdecimal x then k s' g else None
      | [] => None
      end
  | RCat r1 r2 => rmatch r1 s g (fun s1 g1 => rmatch r2 s1 g1 k)
  | RAlt r1 r2 =>
      match rmatch r1 s g k with
      | Some a => Some a
      | None => rmatch r2 s g k
      end
  | RGroup name r1 =>
      rmatch r1 s g
        (fun s1 g1 => k s1 ((name, firstn (length s - length s1) s) :: g1))
  end.

(** [re.match]: the group dictionary and the unmatched rest. *)
Definition re_match (r : regex) (s : str) : option (groupdict * str) :=
  rmatch r s [] (fun rest g => Some (g, rest)).

Fixpoint group (name : directive) (g : groupdict) : str :=
  match g with
  | [] => []
  | (n, v) :: g' => if directive_eqb n name then v else group name g'
  end.

Definition ch (a : ascii) : char := N_of_ascii a.

(** [(?P<Y>\d\d\d\d)] *)
Definition re_Y : regex :=
  RGroup dY (RCat RDigit (RCat RDigit (RCat RDigit RDigit))).

(** [(?P<m>1[0-2]|0[1-9]|[1-9])] *)
Definition re_m : regex :=
  RGroup dm
    (RAlt (RCat (RChar (ch "1")) (RRange (ch "0") (ch "2")))
       (RAlt (RCat (RChar (ch "0")) (RRange (ch "1") (ch "9")))
          (RRange (ch "1") (ch "9")))).

(** [(?P<d>3[0-1]|[1-2]\d|0[1-9]|[1-9]| [1-9])] *)
Definition re_d : regex :=
  RGroup dd
    (RAlt (RCat (RChar (ch "3")) (RRange (ch "0") (ch "1")))
       (RAlt (RCat (RRange (ch "1") (ch "2")) RDigit)
          (RAlt (RCat (RChar (ch "0")) (RRange (ch "1") (ch "9")))
             (RAlt (RRange (ch "1") (ch "9"))
                (RCat (RChar SP) (RRange (ch "1") (ch "9"))))))).

(** [(?P<H>2[0-3]|[0-1]\d|\d)] *)
Definition re_H : regex :=
  RGroup dH
    (RAlt (RCat (RChar (ch "2")) (RRange (ch "0") (ch "3")))
       (RAlt (RCat (RRange (ch "0") (ch "1")) RDigit)
          RDigit)).

(** [(?P<M>[0-5]\d|\d)] *)
Definition re_M : regex :=
  RGroup dM (RAlt (RCat (RRange (ch "0") (ch "5")) RDigit) RDigit).

(** The pattern [_strptime] compiles for ["%H:%M"]. *)
Definition re_HM : regex := RCat re_H (RCat (RChar (ch ":")) re_M).

(** The pattern [_strptime] compiles for ["%Y-%m-%d"]. *)
Definition re_Ymd : regex :=
  RCat re_Y (RCat (RChar HYPHEN) (RCat re_m (RCat (RChar HYPHEN) re_d))).

(** [int(s)] on the strings the groups above capture: decimal digits,
    surrounding whitespace ignored. *)
Fixpoint int_digits (acc : Z) (s : str) : result Z :=
  match s with
  | [] => Ok acc
  | c :: s' =>
      match decimal_value c with
      | Some v => int_digits (10 * acc + Z.of_N v) s'
      | None => Raise ValueError
      end
  end.

Definition py_int (s : str) : result Z :=
  match strip s with
  | [] => Raise ValueError
  | s' => int_digits 0 s'
  end.

(* ------------------------------------------------------------------ *)
(** * datetime *)

Record time : Type := mk_time { hour : Z; minute : Z }.
Record date : Type := mk_date { year : Z; month : Z; day : Z }.

Definition is_leap (y : Z) : bool :=
  (y mod 4 =? 0) && (negb (y mod 100 =? 0) || (y mod 400 =? 0)).

Definition days_before_year (y : Z) : Z :=
  let y := y - 1 in y * 365 + y / 4 - y / 100 + y / 400.

Definition DAYS_IN_MONTH : list Z :=
  [-1; 31; 28; 31; 30; 31; 30; 31; 31; 30; 31; 30; 31].

Definition DAYS_BEFORE_MONTH : list Z :=
  [-1; 0; 31; 59; 90; 120; 151; 181; 212; 243; 273; 304; 334].

Definition days_in_month (y m : Z) : Z :=
  if (m =? 2) && is_leap y then 29
  else nth (Z.to_nat m) DAYS_IN_MONTH 0.

Definition days_before_month (y m : Z) : Z :=
  nth (Z.to_nat m) DAYS_BEFORE_MONTH 0
  + (if (2 <? m) && is_leap y then 1 else 0).

(** [_ymd2ord]: 0001-01-01 is day 1. *)
Definition ymd2ord (d : date) : Z :=
  days_before_year (year d) + days_before_month (year d) (month d) + day d.

Definition DI400Y : Z := 146097.
Definition DI100Y : Z := 36524.
Definition DI4Y : Z := 1461.

(** [_ord2ymd] *)
Definition ord2ymd (n : Z) : date :=
  let n := n - 1 in
  let n400 := n / DI400Y in
  let n := n mod DI400Y in
  let y := n400 * 400 + 1 in
  let n100 := n / DI100Y in
  let n := n mod DI100Y in
  let n4 := n / DI4Y in
  let n := n mod DI4Y in
  let n1 := n / 365 in
  let n := n mod 365 in
  let y := y + n100 * 100 + n4 * 4 + n1 in
  if (n1 =? 4) || (n100 =? 4) then mk_date (y - 1) 12 31
  else
    let leapyear := (n1 =? 3) && (negb (n4 =? 24) || (n100 =? 3)) in
    let m := Z.shiftr (n + 50) 5 in
    let preceding :=
      nth (Z.to_nat m) DAYS_BEFORE_MONTH 0
      + (if (2 <? m) && leapyear then 1 else 0) in
    if n <? preceding then
      let m := m - 1 in
      let preceding :=
        preceding
        - (nth (Z.to_nat m) DAYS_IN_MONTH 0
           + (if (m =? 2) && leapyear then 1 else 0)) in
      mk_date y m (n - preceding + 1)
    else mk_date y m (n - preceding + 1).

Definition MINYEAR : Z := 1.
Definition MAXYEAR : Z := 9999.

(** [datetime.date(y, m, d)]: the constructor checks its fields. *)
Definition make_date (y m d : Z) : result date :=
  if (MINYEAR <=? y) && (y <=? MAXYEAR)
     && (1 <=? m) && (m <=? 12)
     && (1 <=? d) && (d <=? days_in_month y m)
  then Ok (mk_date y m d)
  else Raise ValueError.

(** Microseconds. *)
Definition US_PER_SECOND : Z := 1000000.
Definition US_PER_MINUTE : Z := 60 * US_PER_SECOND.
Definition US_PER_HOUR : Z := 60 * US_PER_MINUTE.
Definition US_PER_DAY : Z := 24 * US_PER_HOUR.

(** [timedelta(minutes=n)] *)
Definition minutes (n : Z) : Z := n * US_PER_MINUTE.

(** One past [datetime.max]. *)
Definition DT_END : Z := days_before_year (MAXYEAR + 1) * US_PER_DAY.

Definition dt_in_range (t : Z) : bool := (0 <=? t) && (t <? DT_END).

(** [datetime.combine(d, t).replace(tzinfo=IST)] *)
Definition combine_IST (d : date) (t : time) : Z :=
  (ymd2ord d - 1) * US_PER_DAY + hour t * US_PER_HOUR
  + minute t * US_PER_MINUTE.

(** [dt + delta] *)
Definition dt_add (t delta : Z) : result Z :=
  if dt_in_range (t + delta) then Ok (t + delta) else Raise OverflowError.

Definition dt_date (t : Z) : date := ord2ymd (t / US_PER_DAY + 1).
Definition dt_hour (t : Z) : Z := (t mod US_PER_DAY) / US_PER_HOUR.
Definition dt_minute (t : Z) : Z := (t mod US_PER_HOUR) / US_PER_MINUTE.
Definition dt_second (t : Z) : Z := (t mod US_PER_MINUTE) / US_PER_SECOND.
Definition dt_microsecond (t : Z) : Z := t mod US_PER_SECOND.

(** [dt.weekday()]: Monday is 0. *)
Definition dt_weekday (t : Z) : Z := (t / US_PER_DAY + 1 + 6) mod 7.

(** The fixed offset of [IST]. *)
Definition IST_UTCOFFSET : Z := minutes 330.

(** [dt.astimezone(ZoneInfo("UTC"))] for [dt] in [IST]: the same
    instant on the UTC wall clock. *)
Definition astimezone_UTC (t : Z) : result Z :=
  if dt_in_range (t - IST_UTCOFFSET) then Ok (t - IST_UTCOFFSET)
  else Raise OverflowError.

(** [datetime.strptime(s, "%H:%M").time()] *)
Definition strptime_HM (s : str) : result time :=
  match re_match re_HM s with
  | None => Raise ValueError
  | Some (found, rest) =>
      match rest with
      | _ :: _ => Raise ValueError
      | [] =>
          h <- py_int (group dH found) ;;
          m <- py_int (group dM found) ;;
          Ok (mk_time h m)
      end
  end.

(** [datetime.strptime(s, "%Y-%m-%d").date()] *)
Definition strptime_Ymd (s : str) : result date :=
  match re_match re_Ymd s with
  | None => Raise ValueError
  | Some (found, rest) =>
      match rest with
      | _ :: _ => Raise ValueError
      | [] =>
          y <- py_int (group dY found) ;;
          m <- py_int (group dm found) ;;
          d <- py_int (group dd found) ;;
          make_date y m d
      end
  end.

(* ------------------------------------------------------------------ *)
(** * Formatting *)

(** [str(n)] for an [int]. *)
Definition str_of_Z (n : Z) : str := lit (NilZero.string_of_int (Z.to_int n)).

(** ["%0<w>d" % n] for a non-negative [n]. *)
Definition zfill (w : nat) (n : Z) : str :=
  let s := str_of_Z n in
  repeat (ch "0") (w - length s) ++ s.

(** [dt.strftime("%Y%m%dT%H%M%SZ")]; the C library's [%Y] does not pad
    the year. *)
Definition strftime_compact (t : Z) : str :=
  let d := dt_date t in
  str_of_Z (year d) ++ zfill 2 (month d) ++ zfill 2 (day d) ++ lit "T"
  ++ zfill 2 (dt_hour t) ++ zfill 2 (dt_minute t) ++ zfill 2 (dt_second t)
  ++ lit "Z".

Definition DAY_ABBR : list str :=
  [lit "Mon"; lit "Tue"; lit "Wed"; lit "Thu"; lit "Fri"; lit "Sat";
   lit "Sun"].

(** [dt.strftime("%a")] in the C locale. *)
Definition strftime_a (t : Z) : str :=
  nth (Z.to_nat (dt_weekday t)) DAY_ABBR [].

(** [str(dt)] for an aware datetime in [IST]. *)
Definition isoformat_IST (t : Z) : str :=
  let d := dt_date t in
  zfill 4 (year d) ++ lit "-" ++ zfill 2 (month d) ++ lit "-"
  ++ zfill 2 (day d) ++ lit " " ++ zfill 2 (dt_hour t) ++ lit ":"
  ++ zfill 2 (dt_minute t) ++ lit ":" ++ zfill 2 (dt_second t)
  ++ (if dt_microsecond t =? 0 then []
      else lit "." ++ zfill 6 (dt_microsecond t))
  ++ lit "+05:30".

(** [str(v)], which is also how an f-string formats [v]. *)
Definition py_str (v : pyval) : str :=
  match v with
  | PNone => lit "None"
  | PNaN => lit "nan"
  | PNaT => lit "NaT"
  | PStr s => s
  | PInt n => str_of_Z n
  | PTimestamp t => isoformat_IST t
  end.

(* ------------------------------------------------------------------ *)
(** * parse_time_range *)

(** [l[i]] *)
Definition getitem {A} (l : list A) (i : nat) : result A :=
  match nth_error l i with
  | Some a => Ok a
  | None => Raise IndexError
  end.

Definition parse_time_range (tstr : pyval)
  : result (option time * option time) :=
  match tstr with
  | PStr t =>
      let s := strip (replace (lit " IST") [] (clean_str t)) in
      let s := replace [EN_DASH] [HYPHEN] s in
      let parts := map strip (split_on HYPHEN s) in
      let start_t :=
        try_or_None (p <- getitem parts 0 ;; strptime_HM p) in
      let end_t :=
        if (1 <? length parts)%nat
        then try_or_None (p <- getitem parts 1 ;; strptime_HM p)
        else None in
      Ok (start_t, end_t)
  | _ => Ok (None, None)
  end.

(* ------------------------------------------------------------------ *)
(** * pandas *)

(** [[f(x) for x in l]] where [f] can raise: the first exception ends
    the loop. *)
Fixpoint map_result {A B} (f : A -> result B) (l : list A)
  : result (list B) :=
  match l with
  | [] => Ok []
  | x :: l' => y <- f x ;; ys <- map_result f l' ;; Ok (y :: ys)
  end.

Fixpoint mapi_from {A B} (i : nat) (f : nat -> A -> B) (l : list A)
  : list B :=
  match l with
  | [] => []
  | x :: l' => f i x :: mapi_from (S i) f l'
  end.

(** A row holds one cell per column, in the order of the columns. *)
Definition Row := list pyval.

(** A [DataFrame] with its default [RangeIndex] left out; the column
    labels are distinct strings. *)
Record DataFrame : Type := mkDF { columns : list str; rows : list Row }.

Fixpoint col_index (k : str) (cols : list str) : option nat :=
  match cols with
  | [] => None
  | c :: cs =>
      if str_eqb k c then Some O
      else match col_index k cs with
           | Some j => Some (S j)
           | None => None
           end
  end.

Definition cell (j : nat) (r : Row) : pyval := nth j r PNaN.

Definition column (j : nat) (rs : list Row) : list pyval :=
  map (cell j) rs.

(** [k in df.columns] *)
Definition has_column (k : str) (df : DataFrame) : bool :=
  match col_index k (columns df) with
  | Some _ => true
  | None => false
  end.

(** [df[k]] *)
Definition df_getitem (df : DataFrame) (k : str) : result (list pyval) :=
  match col_index k (columns df) with
  | Some j => Ok (column j (rows df))
  | None => Raise KeyError
  end.

(** [row.get(k, default)] for a row of [iterrows()] *)
Definition series_get (cols : list str) (r : Row) (k : str)
  (default : pyval) : pyval :=
  match col_index k cols with
  | Some j => cell j r
  | None => default
  end.

(** [row[k]] *)
Definition series_getitem (cols : list str) (r : Row) (k : str)
  : result pyval :=
  match col_index k cols with
  | Some j => Ok (cell j r)
  | None => Raise KeyError
  end.

Fixpoint set_cell (j : nat) (v : pyval) (r : Row) : Row :=
  match j, r with
  | O, [] => [v]
  | O, _ :: r' => v :: r'
  | S j', [] => PNaN :: set_cell j' v []
  | S j', x :: r' => x :: set_cell j' v r'
  end.

(** [df[k] = vals] for a list [vals] with one value per row: the column
    is replaced in place, or added as the last one. *)
Definition set_column (k : str) (vals : list pyval) (df : DataFrame)
  : DataFrame :=
  match col_index k (columns df) with
  | Some j =>
      mkDF (columns df)
        (map (fun rv => set_cell j (snd rv) (fst rv))
           (combine (rows df) vals))
  | None =>
      mkDF (columns df ++ [k])
        (map (fun rv => set_cell (length (columns df)) (snd rv) (fst rv))
           (combine (rows df) vals))
  end.

Inductive dtype : Type := object | int64 | float64 | datetime64.

Definition is_object (d : dtype) : bool :=
  match d with
  | object => true
  | _ => false
  end.

Definition is_int (v : pyval) : bool :=
  match v with
  | PInt _ => true
  | _ => false
  end.

Definition is_number (v : pyval) : bool :=
  match v with
  | PInt _ | PNaN => true
  | _ => false
  end.

Definition is_timestamp (v : pyval) : bool :=
  match v with
  | PTimestamp _ => true
  | _ => false
  end.

(** [pandas.isna] *)
Definition isna (v : pyval) : bool :=
  match v with
  | PNone | PNaN | PNaT => true
  | _ => false
  end.

(** 1970-01-01T00:00:00 on the UTC wall clock. *)
Definition UNIX_EPOCH : Z := (days_before_year 1970) * US_PER_DAY.

(** The instants a [datetime64[ns]] column can hold: the nanoseconds
    since the epoch fit a signed 64-bit integer other than its least
    value, which stands for [NaT]. *)
Definition in_ns_bounds (t : Z) : bool :=
  let ns := (t - IST_UTCOFFSET - UNIX_EPOCH) * 1000 in
  (- 2 ^ 63 <? ns) && (ns <? 2 ^ 63).

Definition datetime64_cell (v : pyval) : bool :=
  match v with
  | PTimestamp t => in_ns_bounds t
  | PNaT => true
  | _ => false
  end.

(** The dtype pandas infers for a column with these cells. *)
Definition infer_dtype (cells : list pyval) : dtype :=
  match cells with
  | [] => object
  | _ :: _ =>
      if forallb is_int cells then int64
      else if forallb is_number cells then float64
      else if forallb datetime64_cell cells then datetime64
      else object
  end.

(** The cells of a column assigned from a list of [datetime] and
    [None]: a [datetime64[ns, Asia/Kolkata]] column with [NaT] for
    [None] when there is a datetime and all fit; the objects as they
    are otherwise. *)
Definition box_datetimes (l : list (option Z)) : list pyval :=
  let some t := match t with Some _ => true | None => false end in
  let fits t := match t with Some x => in_ns_bounds x | None => true end in
  if existsb some l && forallb fits l
  then map (fun t => match t with
                     | Some x => PTimestamp x
                     | None => PNaT
                     end) l
  else map (fun t => match t with
                     | Some x => PTimestamp x
                     | None => PNone
                     end) l.

(** [series.dt]: only a datetime column has the accessor. *)
Definition dt_accessor (cells : list pyval) : result (list pyval) :=
  match infer_dtype cells with
  | datetime64 => Ok cells
  | _ => Raise AttributeError
  end.

(** [.dt.month], cell by cell *)
Definition dt_month (v : pyval) : pyval :=
  match v with
  | PTimestamp t => PInt (month (dt_date t))
  | _ => PNaN
  end.

(** [.dt.strftime("%a")], cell by cell *)
Definition dt_strftime_a (v : pyval) : pyval :=
  match v with
  | PTimestamp t => PStr (strftime_a t)
  | _ => PNaN
  end.

(** [a <= b] for two strings *)
Fixpoint str_leb (a b : str) : bool :=
  match a, b with
  | [], _ => true
  | _ :: _, [] => false
  | x :: a', y :: b' =>
      if (x <? y)%N then true
      else if (y <? x)%N then false
      else str_leb a' b'
  end.

(** The order of the sort keys: missing values last; among the others
    numbers and timestamps come before strings ([safe_sort]).  An
    integer and a timestamp cannot be compared: see [sortable]. *)
Definition key_leb (a b : pyval) : bool :=
  match a, b with
  | _, (PNone | PNaN | PNaT) => true
  | (PNone | PNaN | PNaT), _ => false
  | PInt x, PInt y => x <=? y
  | PTimestamp x, PTimestamp y => x <=? y
  | PStr x, PStr y => str_leb x y
  | PStr _, _ => false
  | _, PStr _ => true
  | PInt _, PTimestamp _ => true
  | PTimestamp _, PInt _ => false
  end.

Definition sortable (cells : list pyval) : bool :=
  negb (existsb is_int cells && existsb is_timestamp cells).

(** Rows compared on the key columns [js], the first key first. *)
Fixpoint lex_leb (js : list nat) (r1 r2 : Row) : bool :=
  match js with
  | [] => true
  | j :: js' =>
      if key_leb (cell j r1) (cell j r2)
      then if key_leb (cell j r2) (cell j r1)
           then lex_leb js' r1 r2
           else true
      else false
  end.

Fixpoint insert_by {A} (leb : A -> A -> bool) (x : A) (l : list A)
  : list A :=
  match l with
  | [] => [x]
  | y :: l' => if leb x y then x :: l else y :: insert_by leb x l'
  end.

(** A stable sort (what [numpy.lexsort] computes). *)
Fixpoint stable_sort {A} (leb : A -> A -> bool) (l : list A) : list A :=
  match l with
  | [] => []
  | x :: l' => insert_by leb x (stable_sort leb l')
  end.

(** [df.sort_values(by)]: ascending, missing values last. *)
Definition sort_values (by_ : list str) (df : DataFrame)
  : result DataFrame :=
  js <- map_result
          (fun k => match col_index k (columns df) with
                    | Some j => Ok j
                    | None => Raise KeyError
                    end) by_ ;;
  if forallb (fun j => sortable (column j (rows df))) js
  then Ok (mkDF (columns df) (stable_sort (lex_leb js) (rows df)))
  else Raise TypeError.

(** [df.loc[mask]] for a boolean mask with one entry per row *)
Fixpoint loc_mask (mask : list bool) (rs : list Row) : list Row :=
  match mask, rs with
  | b :: mask', r :: rs' =>
      if b then r :: loc_mask mask' rs' else loc_mask mask' rs'
  | _, _ => []
  end.

(** [cell > now] and [cell <= limit] as pandas compares a column with a
    datetime: a missing value compares false. *)
Definition gt_datetime (now : Z) (v : pyval) : result bool :=
  match v with
  | PTimestamp t => Ok (now <? t)
  | PNone | PNaN | PNaT => Ok false
  | _ => Raise TypeError
  end.

Definition le_datetime (limit : Z) (v : pyval) : result bool :=
  match v with
  | PTimestamp t => Ok (t <=? limit)
  | PNone | PNaN | PNaT => Ok false
  | _ => Raise TypeError
  end.

(* ------------------------------------------------------------------ *)
(** * enrich_schedule *)

Definition COL_DATE : str := lit "Date".
Definition COL_TIME : str := lit "Time".
Definition COL_WEEK : str := lit "Week".
Definition COL_MONTH_NO : str := lit "Month #".
Definition COL_DAY : str := lit "Day".
Definition COL_START : str := lit "Start (IST)".
Definition COL_END : str := lit "End (IST)".

(** The first loop: [clean_text] on the cells of the object columns. *)
Definition clean_columns (df : DataFrame) : DataFrame :=
  mkDF (columns df)
    (map (mapi_from 0
            (fun j v =>
               if is_object (infer_dtype (column j (rows df)))
               then clean_text v else v))
       (rows df)).

Definition date_str (cols : list str) (r : Row) : str :=
  strip (py_str (series_get cols r COL_DATE (PStr []))).

Definition time_str (cols : list str) (r : Row) : str :=
  strip (py_str (series_get cols r COL_TIME (PStr []))).

(** The body of the second loop: the start and the end of one row.  A
    [date] and a [time] are true values, so [d and stime] tests that
    neither is [None]. *)
Definition row_instants (cols : list str) (r : Row)
  : result (option Z * option Z) :=
  let d := try_or_None (strptime_Ymd (date_str cols r)) in
  se <- parse_time_range (PStr (time_str cols r)) ;;
  let stime := fst se in
  let etime := snd se in
  let start_dt :=
    match d, stime with
    | Some d, Some t => Some (combine_IST d t)
    | _, _ => None
    end in
  end_dt <- match d, etime with
            | Some d, Some t => Ok (Some (combine_IST d t))
            | _, _ =>
                match start_dt with
                | Some s => e <- dt_add s (minutes 30) ;; Ok (Some e)
                | None => Ok None
                end
            end ;;
  Ok (start_dt, end_dt).

Definition enrich_schedule (df : DataFrame) : result DataFrame :=
  let df := clean_columns df in
  se <- map_result (row_instants (columns df)) (rows df) ;;
  let starts := map fst se in
  let ends := map snd se in
  let df := set_column COL_START (box_datetimes starts) df in
  let df := set_column COL_END (box_datetimes ends) df in
  df <- (if has_column COL_MONTH_NO df then Ok df
         else
           c <- df_getitem df COL_START ;;
           c <- dt_accessor c ;;
           Ok (set_column COL_MONTH_NO (map dt_month c) df)) ;;
  df <- (if has_column COL_DAY df then Ok df
         else
           c <- df_getitem df COL_START ;;
           c <- dt_accessor c ;;
           Ok (set_column COL_DAY (map dt_strftime_a c) df)) ;;
  sort_values [COL_START; COL_WEEK] df.

(* ------------------------------------------------------------------ *)
(** * upcoming_between *)

(** The order in which [sort_values] leaves rows with equal starts is
    numpy's choice for a single key; nothing below depends on it. *)
Definition upcoming_between (df : DataFrame) (now horizon : Z)
  : result DataFrame :=
  c1 <- df_getitem df COL_START ;;
  m1 <- map_result (gt_datetime now) c1 ;;
  c2 <- df_getitem df COL_START ;;
  limit <- dt_add now horizon ;;
  m2 <- map_result (le_datetime limit) c2 ;;
  let mask := map (fun p => andb (fst p) (snd p)) (combine m1 m2) in
  sort_values [COL_START] (mkDF (columns df) (loc_mask mask (rows df))).

(* ------------------------------------------------------------------ *)
(** * ics_from_rows *)

(** [isinstance(v, datetime)]: a [Timestamp] is a [datetime], and so is
    [NaT] (pandas declares [class NaTType(_NaT)] with
    [cdef class _NaT(datetime)]). *)
Definition isinstance_datetime (v : pyval) : bool :=
  match v with
  | PTimestamp _ | PNaT => true
  | _ => false
  end.

(** [v.astimezone(ZoneInfo("UTC")).strftime("%Y%m%dT%H%M%SZ")] for a
    [v] that passed [isinstance_datetime]; [NaT.astimezone] raises
    [ValueError]. *)
Definition utc_compact (v : pyval) : result str :=
  match v with
  | PTimestamp t => u <- astimezone_UTC t ;; Ok (strftime_compact u)
  | _ => Raise ValueError
  end.

Definition CALENDAR_HEADER (cal_name : str) : list str :=
  [lit "BEGIN:VCALENDAR";
   lit "VERSION:2.0";
   lit "PRODID:-//CoffeeConnect//Schedule//EN";
   lit "X-WR-CALNAME:" ++ cal_name].

(** [{r.get(k, default)}] inside an f-string *)
Definition fget (cols : list str) (r : Row) (k default : string) : str :=
  py_str (series_get cols r (lit k) (PStr (lit default))).
Arguments fget cols r (k default)%_string.

(** The UID of an event. *)
Definition event_uid (dtstart_utc : str) (cols : list str) (r : Row)
  : str :=
  dtstart_utc ++ lit "-" ++ fget cols r "Week" "W"
  ++ lit "-coffee-connect@atul".

(** The body of the loop: the lines one row adds, none when the row is
    skipped. *)
Definition vevent (cols : list str) (r : Row) : result (list str) :=
  start <- series_getitem cols r COL_START ;;
  end_ <- series_getitem cols r COL_END ;;
  if negb (isinstance_datetime start) || negb (isinstance_datetime end_)
  then Ok []
  else
    dtstart_utc <- utc_compact start ;;
    dtend_utc <- utc_compact end_ ;;
    let uid := event_uid dtstart_utc cols r in
    let summary :=
      lit "Coffee & Connect " ++ [EM_DASH] ++ lit " " ++ fget cols r "Week" EmptyString in
    let desc :=
      lit "Manager: " ++ fget cols r "Manager" "Atul Anand" ++ [LF]
      ++ lit "Participants: " ++ fget cols r "Participants (4)" EmptyString ++ [LF]
      ++ lit "Focus: " ++ fget cols r "Location Focus" EmptyString ++ [LF]
      ++ lit "Mode: " ++ fget cols r "Mode of Connect" EmptyString in
    let loc := fget cols r "Location Focus" EmptyString in
    Ok [lit "BEGIN:VEVENT";
        lit "UID:" ++ uid;
        lit "DTSTAMP:" ++ dtstart_utc;
        lit "DTSTART:" ++ dtstart_utc;
        lit "DTEND:" ++ dtend_utc;
        lit "SUMMARY:" ++ summary;
        lit "DESCRIPTION:" ++ desc;
        lit "LOCATION:" ++ loc;
        lit "END:VEVENT"].

Definition ics_from_rows (df : DataFrame) (cal_name : str) : result str :=
  events <- map_result (vevent (columns df)) (rows df) ;;
  let lines := CALENDAR_HEADER cal_name ++ concat events
               ++ [lit "END:VCALENDAR"] in
  Ok (join [CR; LF] lines).

(* ------------------------------------------------------------------ *)
(** * Vocabulary of the statements *)

(** ** Strings *)

(** No whitespace in [w]. *)
Definition no_ws (w : str) : bool := forallb (fun c => negb (isspace c)) w.

(** A word: not empty and without whitespace. *)
Definition is_word (w : str) : bool :=
  match w with
  | [] => false
  | _ :: _ => no_ws w
  end.

(** No control character in [s]. *)
Definition no_ctrl (s : str) : bool := forallb (fun c => negb (is_ctrl c)) s.

(** The character [c] does not occur in [s]. *)
Definition lacks (c : char) (s : str) : bool :=
  forallb (fun x => negb (x =? c)%N) s.

(** [s] starts with a character that is not whitespace, ends with one,
    and between them a whitespace character is a space that follows a
    character which is not whitespace. *)
Fixpoint tidy_from (s : str) : bool :=
  match s with
  | [] => false
  | c :: s' =>
      negb (isspace c) &&
      match s' with
      | [] => true
      | c' :: s'' => if (c' =? SP)%N then tidy_from s'' else tidy_from s'
      end
  end.

(** Words separated by single spaces, with no whitespace at either
    end. *)
Definition single_spaced (s : str) : bool :=
  match s with
  | [] => true
  | _ :: _ => tidy_from s
  end.

(** ** Clock times *)

(** The text ["HH:MM"] of a clock time. *)
Definition HHMM (t : time) : str :=
  zfill 2 (hour t) ++ lit ":" ++ zfill 2 (minute t).

Definition valid_time (t : time) : Prop :=
  0 <= hour t < 24 /\ 0 <= minute t < 60.


Definition time_eqb (a b : time) : bool :=
  (hour a =? hour b) && (minute a =? minute b).

(** A character that [clean_text] and the splitting of
    [parse_time_range] leave alone. *)
Definition plain_char (c : char) : bool :=
  negb (isspace c) && negb (is_ctrl c) && negb (c =? 95)%N
  && negb (c =? HYPHEN)%N && negb (c =? EN_DASH)%N.

Definition plain (s : str) : bool := forallb plain_char s.

(** ** Enriched tables *)

Definition instant_of (v : pyval) : option Z :=
  match v with
  | PTimestamp t => Some t
  | _ => None
  end.

(** The start instant of a row, [None] when it is absent. *)
Definition start_instant (cols : list str) (r : Row) : option Z :=
  instant_of (series_get cols r COL_START PNone).

(** The end instant of a row, [None] when it is absent. *)
Definition end_instant (cols : list str) (r : Row) : option Z :=
  instant_of (series_get cols r COL_END PNone).

Definition instants_of (cols : list str) (r : Row) : option Z * option Z :=
  (start_instant cols r, end_instant cols r).



(** The window [(now, now + horizon]]. *)
Definition in_window (now horizon : Z) (o : option Z) : bool :=
  match o with
  | Some t => (now <? t) && (t <=? now + horizon)
  | None => false
  end.

(** Both rows have a start instant and [r1] does not start after
    [r2]. *)
Definition start_le (cols : list str) (r1 r2 : Row) : Prop :=
  match start_instant cols r1, start_instant cols r2 with
  | Some a, Some b => a <= b
  | _, _ => False
  end.

(** [df[ks]] for labels that [df] has: the raw columns of an enriched
    table when [ks] are the columns of the table it was made from. *)
Definition select_columns (ks : list str) (df : DataFrame) : DataFrame :=
  mkDF ks
    (map (fun r => map (fun k => series_get (columns df) r k PNaN) ks) (rows df)).

(** The month and the weekday name the start instant gives. *)
Definition derived_month (cols : list str) (r : Row) : pyval :=
  match start_instant cols r with
  | Some t => PInt (month (dt_date t))
  | None => PNaN
  end.

Definition derived_day (cols : list str) (r : Row) : pyval :=
  match start_instant cols r with
  | Some t => PStr (strftime_a t)
  | None => PNaN
  end.

(** ** Calendar documents *)




(** ** Two statements that do not hold *)


(** Row by row, a month or a day the source does not supply is derived
    from the start instant.  The rows of the source are paired with the
    rows of the enriched table, which are sorted. *)
Definition claim_month_and_day_derived_per_row (df : DataFrame) : Prop :=
  forall df', enrich_schedule df = Ok df' ->
  exists paired,
    Permutation paired (rows df')
    /\ Forall2
         (fun r0 r' =>
            (isna (series_get (columns df) r0 COL_MONTH_NO PNaN) = true ->
             series_get (columns df') r' COL_MONTH_NO PNaN
             = derived_month (columns df') r')
            /\ (isna (series_get (columns df) r0 COL_DAY PNaN) = true ->
                series_get (columns df') r' COL_DAY PNaN
                = derived_day (columns df') r'))
         (rows df) paired.

(* ------------------------------------------------------------------ *)
(** * Example tables *)

(** A text cell. *)
Definition txt (s : string) : pyval := PStr (lit s).
Arguments txt s%_string.

Definition unwrap (r : result DataFrame) : DataFrame :=
  match r with
  | Ok df => df
  | Raise _ => mkDF [] []
  end.

Definition DATE_TIME_WEEK : list str := [lit "Date"; lit "Time"; lit "Week"].

(** One session given without an end time. *)
Definition table_no_end : DataFrame :=
  mkDF DATE_TIME_WEEK [[txt "2026-03-10"; txt "15:30 IST"; txt "Week 1"]].

Definition enriched_no_end : DataFrame :=
  Eval vm_compute in unwrap (enrich_schedule table_no_end).



(** A session next to a row whose date is not a date. *)
Definition table_mixed : DataFrame :=
  mkDF DATE_TIME_WEEK
    [[txt "2026-03-10"; txt "15:30-16:00 IST"; txt "Week 1"];
     [txt "TBD"; txt "15:30-16:00 IST"; txt "Week 2"]].

Definition enriched_mixed : DataFrame :=
  Eval vm_compute in unwrap (enrich_schedule table_mixed).

(** A table with a [Month #] column whose one cell is blank. *)
Definition table_blank_month : DataFrame :=
  mkDF (lit "Month #" :: DATE_TIME_WEEK)
    [[PNaN; txt "2026-03-10"; txt "15:30-16:00 IST"; txt "Week 1"]].

Definition enriched_blank_month : DataFrame :=
  Eval vm_compute in unwrap (enrich_schedule table_blank_month).

(** Two sessions of the same week at the same time. *)
Definition table_twins : DataFrame :=
  mkDF (DATE_TIME_WEEK ++ [lit "Manager"])
    [[txt "2026-03-10"; txt "15:30-16:00 IST"; txt "Week 1"; txt "A"];
     [txt "2026-03-10"; txt "15:30-16:00 IST"; txt "Week 1"; txt "B"]].

Definition enriched_twins : DataFrame :=
  Eval vm_compute in unwrap (enrich_schedule table_twins).

(** 10 March 2026, 15:30 and 15:00 local time. *)
Definition T_1530 : Z := combine_IST (mk_date 2026 3 10) (mk_time 15 30).
Definition T_1500 : Z := combine_IST (mk_date 2026 3 10) (mk_time 15 0).

(* ------------------------------------------------------------------ *)
(** * Auxiliary definitions of the proofs *)

(** The clock times, and the pairs of numbers of two digits. *)
Definition clock_times : list time :=
  flat_map (fun h => map (fun m => mk_time (Z.of_nat h) (Z.of_nat m)) (seq 0 60))
    (seq 0 24).


Definition semi_plain_char (c : char) : bool :=
  negb (isspace c) && negb (is_ctrl c) && negb (c =? 95)%N.

(** [strptime] reads the text of [t] back. *)
Definition HHMM_ok (t : time) : bool :=
  plain (HHMM t) &&
  match strptime_HM (HHMM t) with
  | Ok t' => time_eqb t' t
  | Raise _ => false
  end.


(** [k in cols] *)
Definition has (k : str) (cols : list str) : bool :=
  match col_index k cols with
  | Some _ => true
  | None => false
  end.

(** The columns after [df[k] = ...], and where the column [k] then
    is. *)
Definition add_col (k : str) (cols : list str) : list str :=
  match col_index k cols with
  | Some _ => cols
  | None => cols ++ [k]
  end.

Definition col_pos (k : str) (cols : list str) : nat :=
  match col_index k cols with
  | Some j => j
  | None => length cols
  end.

(** [box_datetimes], value by value: [b] tells whether the column
    becomes a datetime column. *)
Definition boxf (b : bool) (o : option Z) : pyval :=
  match o with
  | Some x => PTimestamp x
  | None => if b then PNaT else PNone
  end.

Definition box_flag (l : list (option Z)) : bool :=
  existsb (fun t => match t with Some _ => true | None => false end) l
  && forallb (fun t => match t with Some x => in_ns_bounds x | None => true end) l.

Definition set_if_absent (k : str) (cols : list str) (v : pyval) (r : Row) : Row :=
  if has k cols then r else set_cell (length cols) v r.

(** The columns of the enriched table. *)
Definition enrich_cols (cols0 : list str) : list str :=
  add_col COL_DAY (add_col COL_MONTH_NO (add_col COL_END (add_col COL_START cols0))).

(** A row of the enriched table, from the cleaned row and the cells of
    its start and end. *)
Definition enrich_row (cols0 : list str) (r : Row) (vS vE : pyval) : Row :=
  let cols1 := add_col COL_START cols0 in
  let cols2 := add_col COL_END cols1 in
  let cols3 := add_col COL_MONTH_NO cols2 in
  let r1 := set_cell (col_pos COL_START cols0) vS r in
  let r2 := set_cell (col_pos COL_END cols1) vE r1 in
  let r3 := set_if_absent COL_MONTH_NO cols2 (dt_month vS) r2 in
  set_if_absent COL_DAY cols3 (dt_strftime_a vS) r3.

(** The [.dt] accessor is used. *)
Definition needs_dt (cols0 : list str) : bool :=
  let cols2 := add_col COL_END (add_col COL_START cols0) in
  negb (has COL_MONTH_NO cols2) || negb (has COL_DAY (add_col COL_MONTH_NO cols2)).

Definition is_dt (d : dtype) : bool :=
  match d with
  | datetime64 => true
  | _ => false
  end.

(** What [enrich_schedule] does once the instants are computed. *)
Definition enrich_tail (cols0 : list str) (R : list Row) (vS vE : list pyval)
  : result DataFrame :=
  let df := mkDF cols0 R in
  let df := set_column COL_START vS df in
  let df := set_column COL_END vE df in
  df <- (if has_column COL_MONTH_NO df then Ok df
         else
           c <- df_getitem df COL_START ;;
           c <- dt_accessor c ;;
           Ok (set_column COL_MONTH_NO (map dt_month c) df)) ;;
  df <- (if has_column COL_DAY df then Ok df
         else
           c <- df_getitem df COL_START ;;
           c <- dt_accessor c ;;
           Ok (set_column COL_DAY (map dt_strftime_a c) df)) ;;
  sort_values [COL_START; COL_WEEK] df.

(** The rows of the enriched table before they are sorted. *)
Definition boxed_rows (cols0 : list str) (R : list Row)
  (se : list (option Z * option Z)) : list Row :=
  map (fun p => enrich_row cols0 (fst p)
                  (boxf (box_flag (map fst se)) (fst (snd p)))
                  (boxf (box_flag (map snd se)) (snd (snd p))))
    (combine R se).

(** [leb] as a relation. *)
Definition le_of {A} (leb : A -> A -> bool) (x y : A) : Prop := leb x y = true.

(** [clean_text] leaves the cell as it is. *)
Definition fixed_cell (v : pyval) : Prop := clean_text v = v.

(** [r'] is the enriched row of a cleaned row. *)
Definition enriched_row (cols0 : list str) (fS fE : bool) (r' : Row) : Prop :=
  exists r s e,
    Forall fixed_cell r
    /\ row_instants cols0 r = Ok (s, e)
    /\ r' = enrich_row cols0 r (boxf fS s) (boxf fE e).

(** What a run of [enrich_schedule] that returns [df1] establishes. *)
Record run_facts (cols0 : list str) (df1 : DataFrame) (fS fE : bool) (jW : nat)
  : Prop := {
  rf_columns : columns df1 = enrich_cols cols0;
  rf_rows : Forall (enriched_row cols0 fS fE) (rows df1);
  rf_week : col_index COL_WEEK (enrich_cols cols0) = Some jW;
  rf_sorted : Sorted (le_of (lex_leb [col_pos COL_START cols0; jW])) (rows df1);
  rf_sortable_S : sortable (column (col_pos COL_START cols0) (rows df1)) = true;
  rf_sortable_W : sortable (column jW (rows df1)) = true;
  rf_flag_S : box_flag (map (start_instant (enrich_cols cols0)) (rows df1)) = fS;
  rf_flag_E : box_flag (map (end_instant (enrich_cols cols0)) (rows df1)) = fE;
  rf_dt : needs_dt cols0 = true ->
          is_dt (infer_dtype
                   (map (fun r => boxf fS (start_instant (enrich_cols cols0) r))
                      (rows df1))) = true
}.

(** The raw row [rX] gives the instants and the week label of the
    enriched row [r']. *)
Definition same_raw (colsX cols' : list str) (rX r' : Row) : Prop :=
  row_instants colsX (map clean_text rX) = row_instants cols' r'
  /\ series_get colsX (map clean_text rX) COL_WEEK PNaN
     = series_get cols' r' COL_WEEK PNaN.

(* ------------------------------------------------------------------ *)
(** * toast_events *)

Definition COL_PARTICIPANTS : str := lit "Participants (4)".
Definition COL_MODE : str := lit "Mode of Connect".

(** The bell (U+1F514) and the bullet (U+2022) of the messages. *)
Definition BELL : char := 128276%N.
Definition BULLET : char := 8226%N.

Definition MONTH_ABBR : list str :=
  [lit "Jan"; lit "Feb"; lit "Mar"; lit "Apr"; lit "May"; lit "Jun";
   lit "Jul"; lit "Aug"; lit "Sep"; lit "Oct"; lit "Nov"; lit "Dec"].

(** [%b] in the C locale. *)
Definition strftime_b (t : Z) : str :=
  nth (Z.to_nat (month (dt_date t) - 1)) MONTH_ABBR [].

(** The hour of the 12-hour clock ([%I]) and the half of the day
    ([%p]). *)
Definition hour12 (h : Z) : Z := if h mod 12 =? 0 then 12 else h mod 12.

Definition strftime_p (t : Z) : str :=
  if dt_hour t <? 12 then lit "AM" else lit "PM".

(** [dt.strftime("%b %d, %Y %I:%M %p")]; [%Y] is not padded. *)
Definition strftime_long (t : Z) : str :=
  let d := dt_date t in
  strftime_b t ++ lit " " ++ zfill 2 (day d) ++ lit ", " ++ str_of_Z (year d)
  ++ lit " " ++ zfill 2 (hour12 (dt_hour t)) ++ lit ":" ++ zfill 2 (dt_minute t)
  ++ lit " " ++ strftime_p t.

(** [v.strftime(...)] for a cell [v]: [NaT.strftime] raises
    [ValueError]; [None], a [float], an [int] and a [str] have no such
    method. *)
Definition strftime_method (fmt : Z -> str) (v : pyval) : result str :=
  match v with
  | PTimestamp t => Ok (fmt t)
  | PNaT => Raise ValueError
  | _ => Raise AttributeError
  end.

(** The text of the toast of one row. *)
Definition toast_message (label : str) (cols : list str) (r : Row)
  : result str :=
  week <- series_getitem cols r COL_WEEK ;;
  start <- series_getitem cols r COL_START ;;
  when_ <- strftime_method strftime_long start ;;
  participants <- series_getitem cols r COL_PARTICIPANTS ;;
  Ok ([BELL] ++ lit " " ++ label ++ lit ": " ++ py_str week ++ lit " "
      ++ [BULLET] ++ lit " " ++ when_ ++ lit " " ++ [BULLET]
      ++ lit " Participants: " ++ py_str participants ++ lit " " ++ [BULLET]
      ++ lit " Mode: " ++ fget cols r "Mode of Connect" EmptyString).

(** The loop over the rows: the toasts shown, the first one first, and
    the exception that ended the loop, if one did. *)
Fixpoint toast_loop (label : str) (cols : list str) (rs : list Row)
  : list str * option exn :=
  match rs with
  | [] => ([], None)
  | r :: rs' =>
      match toast_message label cols r with
      | Ok msg =>
          let out := toast_loop label cols rs' in
          (msg :: fst out, snd out)
      | Raise e => ([], Some e)
      end
  end.

Definition toast_events (df : DataFrame) (label : str)
  : list str * option exn :=
  toast_loop label (columns df) (rows df).

(* ------------------------------------------------------------------ *)
(** * js_browser_notifications: the script of the page *)

(** An element of [events].  The numbers of the script are counts of
    milliseconds, integers far below 2^53, on which the arithmetic of
    JavaScript is exact. *)
Record event : Type :=
  mk_event { ev_id : str; ev_title : str; ev_body : str; ev_start_ts : Z }.

(** What the loop over the events does: [setTimeout(() =>
    notifyNow(title, body), delay)] or [notifyNow(title, body)]. *)
Inductive effect : Type :=
| SetTimeout (title body : str) (delay : Z)
| NotifyNow (title body : str).

(** The alarm clock (U+23F0) and the hourglass (U+23F3). *)
Definition ALARM_CLOCK : char := 9200%N.
Definition HOURGLASS : char := 9203%N.

(** The first [if] of the loop body: the reminder one day before. *)
Definition day_reminder (now : Z) (ev : event) : list effect :=
  let t1 := ev_start_ts ev - 24 * 60 * 60 * 1000 - now in
  let title := [ALARM_CLOCK] ++ lit " 1-day reminder: " ++ ev_title ev in
  if (0 <? t1) && (t1 <? 26 * 60 * 60 * 1000)
  then [SetTimeout title (ev_body ev) t1]
  else if (t1 <=? 0) && (now <? ev_start_ts ev)
          && (ev_start_ts ev - now <? 24 * 60 * 60 * 1000)
       then [NotifyNow title (ev_body ev)]
       else [].

(** The second [if]: the reminder 30 minutes before. *)
Definition half_hour_reminder (now : Z) (ev : event) : list effect :=
  let t2 := ev_start_ts ev - 30 * 60 * 1000 - now in
  let title := [HOURGLASS] ++ lit " 30-min reminder: " ++ ev_title ev in
  if (0 <? t2) && (t2 <? 2 * 60 * 60 * 1000)
  then [SetTimeout title (ev_body ev) t2]
  else if (t2 <=? 0) && (now <? ev_start_ts ev)
          && (ev_start_ts ev - now <? 30 * 60 * 1000)
       then [NotifyNow title (ev_body ev)]
       else [].

(** [events.forEach(...)] with [now = Date.now()]. *)
Definition for_each_event (now : Z) (events : list event) : list effect :=
  flat_map (fun ev => day_reminder now ev ++ half_hour_reminder now ev) events.

(* ------------------------------------------------------------------ *)
(** * The script of the page *)

Definition expected_cols : list str :=
  [lit "Month #"; lit "Month"; lit "Week"; lit "Date"; lit "Day"; lit "Time";
   lit "Location Focus"; lit "Team Focus"; lit "Participants (4)";
   lit "Manager"; lit "Notes"; lit "Mode of Connect"].

(** [[c for c in expected_cols if c not in df_raw.columns]] *)
Definition missing (df_raw : DataFrame) : list str :=
  filter (fun c => negb (has_column c df_raw)) expected_cols.

(** [df.loc[mask].sort_values(["Start (IST)", "Week"])] for the mask the
    filters give. *)
Definition df_f (df : DataFrame) (mask : list bool) : result DataFrame :=
  sort_values [COL_START; COL_WEEK]
    (mkDF (columns df) (loc_mask mask (rows df))).

(** What the page shows about the next session. *)
Inductive banner : Type :=
| Success (msg : str)
| Info (msg : str).

(** [df_f[df_f["Start (IST)"] > now].sort_values("Start (IST)").head(1)];
    which of several rows with the least start comes first is numpy's
    choice, and nothing below depends on it. *)
Definition next_df (df : DataFrame) (now : Z) : result DataFrame :=
  c <- df_getitem df COL_START ;;
  m <- map_result (gt_datetime now) c ;;
  sorted <- sort_values [COL_START] (mkDF (columns df) (loc_mask m (rows df))) ;;
  Ok (mkDF (columns sorted) (firstn 1 (rows sorted))).

(** The card at the foot of the page. *)
Definition next_session_card (df : DataFrame) (now : Z) : result banner :=
  nd <- next_df df now ;;
  match rows nd with
  | [] => Ok (Info (lit "No future sessions in the current filter."))
  | r :: _ =>
      let cols := columns nd in
      week <- series_getitem cols r COL_WEEK ;;
      start <- series_getitem cols r COL_START ;;
      when_ <- strftime_method (fun t => strftime_long t ++ lit " IST") start ;;
      participants <- series_getitem cols r COL_PARTICIPANTS ;;
      Ok (Success
            (lit "Next session: **" ++ py_str week ++ lit "** " ++ [EM_DASH]
             ++ lit " **" ++ when_ ++ lit "** " ++ [BULLET]
             ++ lit " Participants: " ++ py_str participants ++ lit " "
             ++ [BULLET] ++ lit " Mode: "
             ++ fget cols r "Mode of Connect" EmptyString))
  end.

(* ------------------------------------------------------------------ *)
(** * Vocabulary of the further statements *)

(** ** Calendar dates *)

(** A date that [datetime.date] accepts. *)
Definition valid_date (d : date) : Prop :=
  MINYEAR <= year d <= MAXYEAR /\ 1 <= month d <= 12
  /\ 1 <= day d <= days_in_month (year d) (month d).

Definition date_eqb (a b : date) : bool :=
  (year a =? year b) && (month a =? month b) && (day a =? day b).

(** The day [d] of month [m] of year [y], when there is one, is read
    back from its ordinal. *)
Definition date_round_trips (y m d : Z) : bool :=
  negb (d <=? days_in_month y m)
  || date_eqb (ord2ymd (ymd2ord (mk_date y m d))) (mk_date y m d).


(** The four columns [enrich_schedule] computes, in the order in which
    it adds those the source lacks. *)
Definition COMPUTED_COLS : list str :=
  [COL_START; COL_END; COL_MONTH_NO; COL_DAY].

(** A cell that can be compared with a [datetime]: a text and an
    integer cannot. *)
Definition comparable_with_datetime (v : pyval) : bool :=
  match v with
  | PStr _ | PInt _ => false
  | _ => true
  end.

(* ------------------------------------------------------------------ *)
(** * Further examples *)

(** A sheet with every expected column and one session. *)
Definition table_full : DataFrame :=
  mkDF expected_cols
    [[PInt 3; txt "March"; txt "Week 1"; txt "2026-03-10"; txt "Tue";
      txt "15:30-16:00 IST"; txt "Chennai"; txt "Platform"; txt "A, B, C, D";
      txt "Atul Anand"; PNaN; txt "Online"]].

Definition enriched_full : DataFrame :=
  Eval vm_compute in unwrap (enrich_schedule table_full).

(** A sheet without [Week] column. *)
Definition table_no_week : DataFrame :=
  mkDF [lit "Date"; lit "Time"] [[txt "2026-03-10"; txt "15:30"]].

(** The sessions of [enriched_full] and of [enriched_mixed] that start
    within an hour, and within a day, of 15:00. *)
Definition upcoming_full_1h : DataFrame :=
  Eval vm_compute in unwrap (upcoming_between enriched_full T_1500 (minutes 60)).

Definition upcoming_mixed_30m : DataFrame :=
  Eval vm_compute in unwrap (upcoming_between enriched_mixed T_1500 (minutes 30)).

Definition upcoming_mixed_1d : DataFrame :=
  Eval vm_compute in unwrap (upcoming_between enriched_mixed T_1500 (minutes 1440)).


(** An event that starts 25 hours, 24 hours, 10 minutes after the
    instant 0, and one that started an hour before. *)
Definition event_at (start_ts : Z) : event :=
  mk_event (lit "202603101530-Week 1") (lit "Week 1") (lit "Participants: A")
    start_ts.

(* ------------------------------------------------------------------ *)
(** * The functions on examples *)

Example clean_str_example :
  clean_str (lit "  a  b_x000D_c " ++ [0; 1; 10]%N ++ lit "d_x000_x000D_D_")
  = lit "a b c d_x000 D_".
Proof. vm_compute. reflexivity. Qed.

Example strptime_HM_examples :
  map (fun s => try_or_None (strptime_HM s))
    [lit "15:30"; lit "9:5"; lit "23:59"; lit "24:00"; lit "15:60";
     lit "15:30 "; lit "15:30:00"]
  = [Some (mk_time 15 30); Some (mk_time 9 5); Some (mk_time 23 59); None; None;
     None; None].
Proof. vm_compute. reflexivity. Qed.

Example strptime_Ymd_examples :
  map (fun s => try_or_None (strptime_Ymd s))
    [lit "2026-03-10"; lit "2026-3-1"; lit "2024-02-29"; lit "2026-02-29";
     lit "2026-13-01"; lit "0000-01-01"; lit "2026-03-10 00:00:00"]
  = [Some (mk_date 2026 3 10); Some (mk_date 2026 3 1); Some (mk_date 2024 2 29);
     None; None; None; None].
Proof. vm_compute. reflexivity. Qed.

Example parse_time_range_examples :
  map (fun s => parse_time_range (PStr s))
    [lit "15:30" ++ [EN_DASH] ++ lit "16:00 IST"; lit "15:30-16:00";
     lit "15:30 IST"; lit "25:00-16:00"; lit "soon"]
  = [Ok (Some (mk_time 15 30), Some (mk_time 16 0));
     Ok (Some (mk_time 15 30), Some (mk_time 16 0));
     Ok (Some (mk_time 15 30), None);
     Ok (None, Some (mk_time 16 0));
     Ok (None, None)].
Proof. vm_compute. reflexivity. Qed.

Example datetime_examples :
  isoformat_IST T_1530 = lit "2026-03-10 15:30:00+05:30"
  /\ strftime_a T_1530 = lit "Tue"
  /\ utc_compact (PTimestamp T_1530) = Ok (lit "20260310T100000Z")
  /\ dt_add (combine_IST (mk_date 9999 12 31) (mk_time 23 45)) (minutes 30)
     = Raise OverflowError.
Proof. vm_compute. repeat split. Qed.

Example enrich_schedule_example :
  columns enriched_mixed
  = [lit "Date"; lit "Time"; lit "Week"; lit "Start (IST)"; lit "End (IST)";
     lit "Month #"; lit "Day"]
  /\ map (map py_str) (rows enriched_mixed)
  = [[lit "2026-03-10"; lit "15:30-16:00 IST"; lit "Week 1";
      lit "2026-03-10 15:30:00+05:30"; lit "2026-03-10 16:00:00+05:30";
      lit "3"; lit "Tue"];
     [lit "TBD"; lit "15:30-16:00 IST"; lit "Week 2"; lit "NaT"; lit "NaT";
      lit "nan"; lit "nan"]].
Proof. vm_compute. split; reflexivity. Qed.

Example enrich_schedule_raises_examples :
  enrich_schedule (mkDF [lit "Date"; lit "Time"] [[txt "2026-03-10"; txt "15:30"]])
  = Raise KeyError
  /\ enrich_schedule (mkDF DATE_TIME_WEEK [[txt "TBD"; txt "15:30"; txt "Week 1"]])
     = Raise AttributeError.
Proof. vm_compute. split; reflexivity. Qed.

Example ics_from_rows_example :
  ics_from_rows enriched_no_end (lit "Cal")
  = Ok (join [CR; LF]
          [lit "BEGIN:VCALENDAR";
           lit "VERSION:2.0";
           lit "PRODID:-//CoffeeConnect//Schedule//EN";
           lit "X-WR-CALNAME:Cal";
           lit "BEGIN:VEVENT";
           lit "UID:20260310T100000Z-Week 1-coffee-connect@atul";
           lit "DTSTAMP:20260310T100000Z";
           lit "DTSTART:20260310T100000Z";
           lit "DTEND:20260310T103000Z";
           lit "SUMMARY:Coffee & Connect " ++ [EM_DASH] ++ lit " Week 1";
           lit "DESCRIPTION:Manager: Atul Anand" ++ [LF] ++ lit "Participants: "
           ++ [LF] ++ lit "Focus: " ++ [LF] ++ lit "Mode: ";
           lit "LOCATION:";
           lit "END:VEVENT";
           lit "END:VCALENDAR"]).
Proof. vm_compute. reflexivity. Qed.

(* ------------------------------------------------------------------ *)
(** * Properties *)

(* ---------- startswith / contains ---------- *)

Lemma startswith_app_sep p u c v :
  startswith p (u ++ c :: v) = true -> lacks c p = true -> startswith p u = true.
Proof.
  revert u. induction p as [|a p IH]; intros u H L; simpl; auto.
  simpl in L. apply andb_prop in L as [L1 L2].
  destruct u as [|x u]; simpl in *.
  - apply andb_prop in H as [H _]. rewrite H in L1. discriminate.
  - apply andb_prop in H as [H1 H2]. rewrite H1. simpl. auto.
Qed.

Lemma contains_cons p c s : contains p s = true -> contains p (c :: s) = true.
Proof. intros H. simpl. rewrite H. apply orb_true_r. Qed.

Lemma contains_app_r p u s : contains p s = true -> contains p (u ++ s) = true.
Proof. induction u; simpl; auto. intros H. rewrite (IHu H). apply orb_true_r. Qed.

Lemma startswith_app_l p u v : startswith p u = true -> startswith p (u ++ v) = true.
Proof.
  revert u. induction p as [|a p IH]; intros u H; simpl; auto.
  destruct u as [|x u]; simpl in *; try discriminate.
  apply andb_prop in H as [H1 H2]. rewrite H1. simpl. auto.
Qed.

Lemma contains_app_l p u v : contains p u = true -> contains p (u ++ v) = true.
Proof.
  induction u as [|x u IH]; simpl; intros H.
  - rewrite orb_false_r in H. destruct p; simpl in *; try discriminate.
    destruct v; reflexivity.
  - apply orb_prop in H as [H|H].
    + change (x :: u ++ v) with ((x :: u) ++ v).
      rewrite (startswith_app_l _ _ _ H). reflexivity.
    + rewrite (IH H). apply orb_true_r.
Qed.

Lemma contains_app_sep p u c v :
  lacks c p = true -> contains p (u ++ c :: v) = true ->
  contains p u = true \/ contains p v = true.
Proof.
  intros L. induction u as [|x u IH]; simpl; intros H.
  - apply orb_prop in H as [H|H]; auto.
    left. destruct p; simpl in *; auto.
    apply andb_prop in L as [L1 _]. apply andb_prop in H as [H _].
    rewrite H in L1. discriminate.
  - apply orb_prop in H as [H|H].
    + left. change (x :: u ++ c :: v) with ((x :: u) ++ c :: v) in H.
      rewrite (startswith_app_sep _ _ _ _ H L). reflexivity.
    + destruct (IH H) as [K|K]; auto. left. rewrite K. apply orb_true_r.
Qed.

Lemma contains_nil_false p : p <> [] -> contains p [] = false.
Proof. destruct p; simpl; congruence. Qed.

(* ---------- replace ---------- *)

Lemma replace_startswith_sep (old : str) (c : char) b s :
  lacks c b = true ->
  startswith b (replace_from old [c] 0 s) = true -> startswith b s = true.
Proof.
  intros L. revert b L. induction s as [|x s IH]; intros b L H.
  - simpl in H. exact H.
  - simpl in H. destruct (startswith old (x :: s)) eqn:E.
    + destruct b as [|y b]; auto. simpl in *.
      apply andb_prop in L as [L1 _]. apply andb_prop in H as [H _].
      rewrite H in L1. discriminate.
    + destruct b as [|y b]; auto. simpl in *.
      apply andb_prop in L as [_ L2]. apply andb_prop in H as [H1 H2].
      rewrite H1. simpl. auto.
Qed.

Lemma startswith_head_neq (p : str) (c : char) s :
  p <> [] -> lacks c p = true -> startswith p (c :: s) = false.
Proof.
  intros Hne L. destruct p as [|a p]; [congruence|]. simpl in *.
  apply andb_prop in L as [L1 _].
  apply negb_true_iff in L1. rewrite L1. reflexivity.
Qed.

Lemma replace_from_no_match (old : str) (c : char) :
  old <> [] -> lacks c old = true ->
  forall s k, contains old (replace_from old [c] k s) = false.
Proof.
  intros Hne L. induction s as [|x s IH]; intros k.
  - simpl. destruct old; simpl; congruence.
  - destruct k as [|k]; [|apply IH].
    cbn [replace_from]. destruct (startswith old (x :: s)) eqn:E.
    + change ([c] ++ ?t) with (c :: t). cbn [contains].
      rewrite IH, startswith_head_neq by auto. reflexivity.
    + cbn [contains]. rewrite IH. rewrite orb_false_r.
      destruct (startswith old (x :: replace_from old [c] 0 s)) eqn:E2; auto.
      assert (K : startswith old (replace_from old [c] 0 (x :: s)) = true).
      { cbn [replace_from]. rewrite E. exact E2. }
      apply (replace_startswith_sep old c old _ L) in K. congruence.
Qed.

Lemma replace_no_match (old : str) (c : char) s :
  old <> [] -> lacks c old = true -> contains old (replace old [c] s) = false.
Proof. intros. unfold replace. apply replace_from_no_match; auto. Qed.

(* ---------- sub_ctrl_runs ---------- *)
Lemma sub_ctrl_cons c s :
  sub_ctrl_runs (c :: s) =
  if is_ctrl c then
    match s with
    | [] => [SP]
    | c' :: _ => if is_ctrl c' then sub_ctrl_runs s else SP :: sub_ctrl_runs s
    end
  else c :: sub_ctrl_runs s.
Proof. reflexivity. Qed.

Lemma sub_ctrl_head c s :
  is_ctrl c = true -> exists t, sub_ctrl_runs (c :: s) = SP :: t.
Proof.
  revert c. induction s as [|x s IH]; intros c H; rewrite sub_ctrl_cons, H.
  - eauto.
  - destruct (is_ctrl x) eqn:E; [apply IH; exact E | eauto].
Qed.

Lemma sub_ctrl_no_ctrl s : no_ctrl (sub_ctrl_runs s) = true.
Proof.
  induction s as [|c s IH]; auto.
  rewrite sub_ctrl_cons. destruct (is_ctrl c) eqn:E.
  - destruct s as [|x s]; [reflexivity|].
    destruct (is_ctrl x); auto.
  - unfold no_ctrl in *. simpl. rewrite E. exact IH.
Qed.

Lemma sub_ctrl_startswith b s :
  lacks SP b = true ->
  startswith b (sub_ctrl_runs s) = true -> startswith b s = true.
Proof.
  revert b. induction s as [|x s IH]; intros b L H.
  - exact H.
  - destruct b as [|y b]; auto.
    simpl in L. apply andb_prop in L as [L1 L2].
    destruct (is_ctrl x) eqn:E.
    + destruct (sub_ctrl_head x s E) as [t Ht]. rewrite Ht in H.
      simpl in H. apply andb_prop in H as [H _]. rewrite H in L1. discriminate.
    + rewrite sub_ctrl_cons, E in H. simpl in H.
      apply andb_prop in H as [H1 H2]. simpl. rewrite H1. simpl. auto.
Qed.

Lemma contains_unfold p s :
  contains p s = startswith p s || match s with [] => false | _ :: s' => contains p s' end.
Proof. destruct s; reflexivity. Qed.

Lemma sub_ctrl_contains p s :
  p <> [] -> lacks SP p = true ->
  contains p (sub_ctrl_runs s) = true -> contains p s = true.
Proof.
  intros Hne L. induction s as [|x s IH]; intros H.
  - exact H.
  - destruct (startswith p (sub_ctrl_runs (x :: s))) eqn:E0.
    { apply sub_ctrl_startswith in E0; auto.
      rewrite contains_unfold, E0. reflexivity. }
    apply contains_cons.
    rewrite sub_ctrl_cons in H, E0.
    destruct (is_ctrl x) eqn:E.
    + destruct s as [|y s].
      * rewrite contains_unfold, E0 in H.
        destruct p; [congruence | discriminate H].
      * destruct (is_ctrl y) eqn:E2.
        -- apply IH. exact H.
        -- rewrite contains_unfold, E0 in H. simpl in H. apply IH. exact H.
    + rewrite contains_unfold, E0 in H. simpl in H. auto.
Qed.

(* ---------- split_ws / join ---------- *)
Lemma split_ws_cons c s :
  split_ws (c :: s) =
  if isspace c then split_ws s
  else if starts_word s then
         match split_ws s with
         | w :: ws => (c :: w) :: ws
         | [] => [[c]]
         end
       else [c] :: split_ws s.
Proof. reflexivity. Qed.

Lemma split_ws_decomp s :
  starts_word s = true ->
  exists w r, is_word w = true /\ s = w ++ r /\ starts_word r = false
              /\ split_ws s = w :: split_ws r.
Proof.
  induction s as [|c s IH]; [discriminate|]. intros H.
  simpl in H. apply negb_true_iff in H.
  rewrite split_ws_cons, H.
  destruct (starts_word s) eqn:E.
  - destruct (IH eq_refl) as (w & r & Hw & Hs & Hr & Hsp).
    exists (c :: w), r. rewrite Hsp. repeat split; auto.
    + destruct w; [discriminate|]. simpl in *. unfold no_ws. simpl.
      rewrite H. exact Hw.
    + simpl. congruence.
  - exists [c], s. repeat split; auto. simpl. rewrite H. reflexivity.
Qed.

Lemma is_word_length w : is_word w = true -> (0 < length w)%nat.
Proof. destruct w; simpl; [discriminate | lia]. Qed.

Lemma split_ws_words s : Forall (fun w => is_word w = true) (split_ws s).
Proof.
  remember (length s) as n eqn:Hn. revert s Hn.
  induction n as [n IH] using lt_wf_ind. intros s Hn.
  destruct s as [|c s]; [constructor|].
  destruct (isspace c) eqn:E.
  - rewrite split_ws_cons, E. apply (IH (length s)); simpl in *; auto; lia.
  - destruct (split_ws_decomp (c :: s)) as (w & r & Hw & Hs & Hr & Hsp).
    { simpl. rewrite E. reflexivity. }
    rewrite Hsp. constructor; auto.
    apply (IH (length r)); auto.
    apply is_word_length in Hw. rewrite Hn, Hs, length_app. lia.
Qed.

Lemma split_ws_contains p s w :
  In w (split_ws s) -> contains p w = true -> contains p s = true.
Proof.
  remember (length s) as n eqn:Hn. revert s Hn.
  induction n as [n IH] using lt_wf_ind. intros s Hn Hin Hc.
  destruct s as [|c s]; [destruct Hin|].
  destruct (isspace c) eqn:E.
  - rewrite split_ws_cons, E in Hin. apply contains_cons.
    apply (IH (length s)); simpl in *; auto; lia.
  - destruct (split_ws_decomp (c :: s)) as (w0 & r & Hw & Hs & Hr & Hsp).
    { simpl. rewrite E. reflexivity. }
    rewrite Hsp in Hin. rewrite Hs. destruct Hin as [<-|Hin].
    + apply contains_app_l. exact Hc.
    + apply contains_app_r. apply (IH (length r)); auto.
      apply is_word_length in Hw. rewrite Hn, Hs, length_app. lia.
Qed.

Lemma split_ws_forallb (P : char -> bool) s :
  forallb P s = true -> Forall (fun w => forallb P w = true) (split_ws s).
Proof.
  remember (length s) as n eqn:Hn. revert s Hn.
  induction n as [n IH] using lt_wf_ind. intros s Hn H.
  destruct s as [|c s]; [constructor|].
  destruct (isspace c) eqn:E.
  - rewrite split_ws_cons, E. simpl in H. apply andb_prop in H as [_ H].
    apply (IH (length s)); simpl in *; auto; lia.
  - destruct (split_ws_decomp (c :: s)) as (w0 & r & Hw & Hs & Hr & Hsp).
    { simpl. rewrite E. reflexivity. }
    rewrite Hsp. rewrite Hs, forallb_app in H. apply andb_prop in H as [H1 H2].
    constructor; auto. apply (IH (length r)); auto.
    apply is_word_length in Hw. rewrite Hn, Hs, length_app. lia.
Qed.


Lemma join_cons2 sep w w2 ws :
  join sep (w :: w2 :: ws) = w ++ sep ++ join sep (w2 :: ws).
Proof. reflexivity. Qed.


Lemma tidy_from_word_app w t :
  is_word w = true -> (t = [] \/ exists t', t = SP :: t' /\ tidy_from t' = true) ->
  tidy_from (w ++ t) = true.
Proof.
  induction w as [|c w IH]; [discriminate|]. intros Hw Ht.
  simpl in Hw. apply andb_prop in Hw as [Hc Hw].
  change ((c :: w) ++ t) with (c :: w ++ t). cbn [tidy_from]. rewrite Hc. simpl.
  destruct w as [|d w].
  - simpl. destruct Ht as [ -> | (t' & -> & Ht')]; auto.
  - assert (Hw' : is_word (d :: w) = true) by exact Hw.
    specialize (IH Hw' Ht). simpl in Hw. apply andb_prop in Hw as [Hd _].
    change ((d :: w) ++ t) with (d :: w ++ t) in *.
    destruct (d =? SP)%N eqn:E.
    + apply N.eqb_eq in E. subst d. discriminate.
    + rewrite E. exact IH.
Qed.

Lemma join_words_tidy ws :
  Forall (fun w => is_word w = true) ws -> ws <> [] ->
  tidy_from (join [SP] ws) = true.
Proof.
  induction 1 as [|w ws Hw Hws IH]; [congruence|]. intros _.
  destruct ws as [|w2 ws].
  - simpl. rewrite <- (app_nil_r w). apply tidy_from_word_app; auto.
  - rewrite join_cons2. apply tidy_from_word_app; auto.
    right. eexists. split; [reflexivity|]. apply IH. discriminate.
Qed.

Lemma join_words_single_spaced ws :
  Forall (fun w => is_word w = true) ws -> single_spaced (join [SP] ws) = true.
Proof.
  intros H. destruct ws as [|w ws]; [reflexivity|].
  assert (K := join_words_tidy _ H ltac:(discriminate)).
  unfold single_spaced. destruct (join [SP] (w :: ws)); auto.
Qed.

Lemma join_forallb (P : char -> bool) sep ws :
  forallb P sep = true -> Forall (fun w => forallb P w = true) ws ->
  forallb P (join sep ws) = true.
Proof.
  intros Hsep. induction 1 as [|w ws Hw Hws IH]; [reflexivity|].
  destruct ws as [|w2 ws]; [exact Hw|].
  rewrite join_cons2, !forallb_app, Hw, Hsep. simpl andb. apply IH.
Qed.

Lemma join_contains p ws :
  p <> [] -> lacks SP p = true -> contains p (join [SP] ws) = true ->
  exists w, In w ws /\ contains p w = true.
Proof.
  intros Hne L. induction ws as [|w ws IH]; intros H.
  - change (join [SP] []) with (@nil char) in H.
    rewrite contains_nil_false in H by auto. discriminate.
  - destruct ws as [|w2 ws].
    + exists w. split; [left; reflexivity | exact H].
    + rewrite join_cons2 in H. change ([SP] ++ ?t) with (SP :: t) in H.
      apply contains_app_sep in H; auto. destruct H as [H|H].
      * exists w. split; [left; reflexivity | exact H].
      * destruct (IH H) as (w' & Hin & Hc). exists w'. split; [right|]; auto.
Qed.

(* ---------- clean_str ---------- *)
Lemma EXCEL_CR_lacks_SP : lacks SP EXCEL_CR = true.
Proof. reflexivity. Qed.

Lemma EXCEL_CR_nonempty : EXCEL_CR <> [].
Proof. discriminate. Qed.

Lemma clean_str_no_artifact s : contains EXCEL_CR (clean_str s) = false.
Proof.
  unfold clean_str.
  destruct (contains EXCEL_CR
              (join [SP] (split_ws (sub_ctrl_runs (replace EXCEL_CR [SP] s)))))
    eqn:E; auto.
  apply join_contains in E; auto using EXCEL_CR_lacks_SP, EXCEL_CR_nonempty.
  destruct E as (w & Hin & Hc).
  apply (split_ws_contains _ _ _ Hin) in Hc.
  apply sub_ctrl_contains in Hc; auto using EXCEL_CR_lacks_SP, EXCEL_CR_nonempty.
  rewrite replace_no_match in Hc; auto using EXCEL_CR_lacks_SP, EXCEL_CR_nonempty.
Qed.

Lemma clean_str_no_ctrl s : no_ctrl (clean_str s) = true.
Proof.
  unfold clean_str, no_ctrl. apply join_forallb; [reflexivity|].
  apply split_ws_forallb. apply sub_ctrl_no_ctrl.
Qed.

Lemma clean_str_single_spaced s : single_spaced (clean_str s) = true.
Proof. apply join_words_single_spaced, split_ws_words. Qed.



(* ---- generic helpers ---- *)
Lemma forallb_weaken {A} (P Q : A -> bool) l :
  (forall x, P x = true -> Q x = true) -> forallb P l = true -> forallb Q l = true.
Proof.
  intros HPQ. induction l; simpl; auto. intros H. apply andb_prop in H as [H1 H2].
  rewrite (HPQ _ H1), IHl; auto.
Qed.

Lemma plain_char_facts c : plain_char c = true ->
  isspace c = false /\ is_ctrl c = false /\ (c =? 95)%N = false
  /\ (c =? HYPHEN)%N = false /\ (c =? EN_DASH)%N = false /\ (c =? SP)%N = false.
Proof.
  unfold plain_char. intros H.
  repeat (apply andb_prop in H as [H ?]).
  repeat match goal with K : negb _ = true |- _ => apply negb_true_iff in K end.
  repeat split; auto.
  destruct (c =? SP)%N eqn:E; auto. apply N.eqb_eq in E. subst. discriminate.
Qed.

Lemma plain_no_ws s : plain s = true -> no_ws s = true.
Proof. apply forallb_weaken. intros c H. apply plain_char_facts in H. now rewrite (proj1 H). Qed.
Lemma plain_lacks s c :
  (c = 95%N \/ c = HYPHEN \/ c = EN_DASH \/ c = SP) -> plain s = true -> lacks c s = true.
Proof.
  intros Hc. apply forallb_weaken. intros x H. apply plain_char_facts in H.
  destruct H as (_ & _ & H1 & H2 & H3 & H4).
  destruct Hc as [ -> | [ -> | [ -> | -> ] ] ]; apply negb_true_iff; auto.
Qed.

Lemma lacks_app c u v : lacks c (u ++ v) = lacks c u && lacks c v.
Proof. apply forallb_app. Qed.

(* ---- replace ---- *)
Lemma replace_from_lacks_head (a : char) old new u v :
  lacks a u = true ->
  replace_from (a :: old) new 0 (u ++ v) = u ++ replace_from (a :: old) new 0 v.
Proof.
  induction u as [|x u IH]; intros L; [reflexivity|].
  simpl in L. apply andb_prop in L as [L1 L2]. apply negb_true_iff in L1.
  change ((x :: u) ++ v) with (x :: u ++ v). cbn [replace_from startswith].
  rewrite N.eqb_sym, L1. simpl. rewrite IH; auto.
Qed.

Lemma replace_lacks_head (a : char) old new u :
  lacks a u = true -> replace (a :: old) new u = u.
Proof.
  intros L. unfold replace. rewrite <- (app_nil_r u) at 1.
  rewrite replace_from_lacks_head by auto. simpl. apply app_nil_r.
Qed.

Lemma replace_id old new s : contains old s = false -> replace old new s = s.
Proof.
  unfold replace. induction s as [|x s IH]; [reflexivity|].
  intros H. rewrite contains_unfold in H. apply orb_false_iff in H as [H1 H2].
  cbn [replace_from]. rewrite H1, IH; auto.
Qed.

Lemma contains_lacks_head (a : char) p s : lacks a s = true -> contains (a :: p) s = false.
Proof.
  induction s as [|x s IH]; intros L; [reflexivity|].
  simpl in L. apply andb_prop in L as [L1 L2]. apply negb_true_iff in L1.
  rewrite contains_unfold. cbn [startswith]. rewrite N.eqb_sym, L1, IH; auto.
Qed.

Lemma sub_ctrl_id s : no_ctrl s = true -> sub_ctrl_runs s = s.
Proof.
  induction s as [|x s IH]; [reflexivity|]. intros H.
  unfold no_ctrl in H. simpl in H. apply andb_prop in H as [H1 H2].
  apply negb_true_iff in H1. rewrite sub_ctrl_cons, H1, IH; auto.
Qed.

(* ---- strip ---- *)
Lemma lstrip_id s : starts_word s = true \/ s = [] -> lstrip s = s.
Proof.
  intros [H | ->]; [|reflexivity]. destruct s; [discriminate|].
  simpl in *. apply negb_true_iff in H. rewrite H. reflexivity.
Qed.

Lemma no_ws_starts s : no_ws s = true -> starts_word s = true \/ s = [].
Proof. destruct s; auto. intros H. left. simpl in *. apply andb_prop in H. tauto. Qed.

Lemma no_ws_rev s : no_ws s = true -> no_ws (rev s) = true.
Proof.
  unfold no_ws. rewrite !forallb_forall. intros H x Hx. apply H. now apply in_rev.
Qed.

Lemma strip_no_ws s : no_ws s = true -> strip s = s.
Proof.
  intros H. unfold strip, rstrip.
  rewrite (lstrip_id (rev s)) by (apply no_ws_starts, no_ws_rev, H).
  rewrite rev_involutive. apply lstrip_id, no_ws_starts, H.
Qed.

(* ---- split_on ---- *)
Lemma split_on_lacks sep s : lacks sep s = true -> split_on sep s = [s].
Proof.
  induction s as [|x s IH]; [reflexivity|]. intros L.
  simpl in L. apply andb_prop in L as [L1 L2]. apply negb_true_iff in L1.
  simpl. rewrite L1, IH; auto.
Qed.

Lemma split_on_app sep u v :
  lacks sep u = true -> split_on sep (u ++ sep :: v) = u :: split_on sep v.
Proof.
  induction u as [|x u IH]; intros L.
  - simpl. rewrite N.eqb_refl. reflexivity.
  - simpl in L. apply andb_prop in L as [L1 L2]. apply negb_true_iff in L1.
    simpl. rewrite L1, IH; auto.
Qed.

(* ---- tidy strings are fixed by clean_str ---- *)
Lemma tidy_from_word_inv w r :
  is_word w = true -> starts_word r = false -> tidy_from (w ++ r) = true ->
  r = [] \/ exists r', r = SP :: r' /\ tidy_from r' = true.
Proof.
  induction w as [|c w IH]; [discriminate|]. intros Hw Hr H.
  change ((c :: w) ++ r) with (c :: w ++ r) in H. cbn [tidy_from] in H.
  apply andb_prop in H as [Hc H].
  destruct w as [|d w].
  - simpl in H. destruct r as [|x r]; auto.
    destruct (x =? SP)%N eqn:E.
    + apply N.eqb_eq in E. subst. right. eauto.
    + simpl in Hr. apply negb_false_iff in Hr.
      simpl in H. rewrite Hr in H. discriminate.
  - simpl in Hw. apply andb_prop in Hw as [_ Hw].
    apply IH; auto.
    change ((d :: w) ++ r) with (d :: w ++ r) in *.
    destruct (d =? SP)%N eqn:E.
    + apply N.eqb_eq in E. subst. simpl in Hw. discriminate.
    + cbv iota in H. rewrite E in H. exact H.
Qed.

Lemma tidy_from_starts s : tidy_from s = true -> starts_word s = true.
Proof. destruct s; simpl; [discriminate|]. intros H. apply andb_prop in H. tauto. Qed.

Lemma tidy_join_split s : tidy_from s = true -> join [SP] (split_ws s) = s.
Proof.
  remember (length s) as n eqn:Hn. revert s Hn.
  induction n as [n IH] using lt_wf_ind. intros s Hn H.
  destruct (split_ws_decomp s (tidy_from_starts _ H)) as (w & r & Hw & Hs & Hr & Hsp).
  rewrite Hsp. rewrite Hs in H.
  destruct (tidy_from_word_inv _ _ Hw Hr H) as [ -> | (r' & -> & Hr')].
  - simpl. rewrite Hs, app_nil_r. reflexivity.
  - rewrite split_ws_cons. change (isspace SP) with true. cbv iota.
    assert (K : join [SP] (split_ws r') = r').
    { apply (IH (length r')); auto. rewrite Hn, Hs, length_app. simpl. lia. }
    destruct (split_ws_decomp r' (tidy_from_starts _ Hr')) as (w2 & r2 & _ & _ & _ & Hsp2).
    rewrite Hsp2 in *. rewrite join_cons2, K. now rewrite Hs.
Qed.

Lemma single_spaced_join_split s : single_spaced s = true -> join [SP] (split_ws s) = s.
Proof. destruct s; [reflexivity|]. apply tidy_join_split. Qed.

Lemma clean_str_fix s :
  contains EXCEL_CR s = false -> no_ctrl s = true -> single_spaced s = true ->
  clean_str s = s.
Proof.
  intros H1 H2 H3. unfold clean_str.
  rewrite replace_id, sub_ctrl_id by auto. now apply single_spaced_join_split.
Qed.

Lemma clean_str_idem s : clean_str (clean_str s) = clean_str s.
Proof.
  apply clean_str_fix.
  - apply clean_str_no_artifact.
  - apply clean_str_no_ctrl.
  - apply clean_str_single_spaced.
Qed.

Lemma plain_semi s : plain s = true -> forallb semi_plain_char s = true.
Proof.
  apply forallb_weaken. intros c H. unfold plain_char in H. unfold semi_plain_char.
  repeat (apply andb_prop in H as [H ?]).
  repeat (apply andb_true_intro; split); auto.
Qed.

Lemma semi_no_ws s : forallb semi_plain_char s = true -> no_ws s = true.
Proof.
  apply forallb_weaken. intros c H. unfold semi_plain_char in H.
  repeat (apply andb_prop in H as [H ?]). auto.
Qed.
Lemma semi_no_ctrl s : forallb semi_plain_char s = true -> no_ctrl s = true.
Proof.
  apply forallb_weaken. intros c H. unfold semi_plain_char in H.
  repeat (apply andb_prop in H as [H ?]). auto.
Qed.
Lemma semi_lacks_95 s : forallb semi_plain_char s = true -> lacks 95%N s = true.
Proof.
  apply forallb_weaken. intros c H. unfold semi_plain_char in H.
  repeat (apply andb_prop in H as [H ?]). auto.
Qed.
Lemma no_ws_lacks_SP s : no_ws s = true -> lacks SP s = true.
Proof.
  apply forallb_weaken. intros c H. apply negb_true_iff in H. apply negb_true_iff.
  destruct (c =? SP)%N eqn:E; auto. apply N.eqb_eq in E. subst. discriminate.
Qed.

Lemma no_ws_is_word s : s <> [] -> no_ws s = true -> is_word s = true.
Proof. destruct s; [congruence|auto]. Qed.

Lemma clean_str_tagged W suffix :
  W <> [] -> forallb semi_plain_char W = true ->
  suffix = [] \/ suffix = lit " IST" ->
  clean_str (W ++ suffix) = W ++ suffix.
Proof.
  intros Hne HW Hs.
  assert (HS : forallb semi_plain_char (lit "IST") = true) by reflexivity.
  assert (Hw : is_word W = true) by (apply no_ws_is_word; auto using semi_no_ws).
  apply clean_str_fix.
  - change EXCEL_CR with (95%N :: lit "x000D_"). apply contains_lacks_head.
    rewrite lacks_app, semi_lacks_95 by auto.
    destruct Hs as [ -> | -> ]; reflexivity.
  - unfold no_ctrl. rewrite forallb_app. fold (no_ctrl W).
    rewrite semi_no_ctrl by auto. destruct Hs as [ -> | -> ]; reflexivity.
  - destruct Hs as [ -> | -> ].
    + rewrite app_nil_r. apply (join_words_single_spaced [W]). repeat constructor; auto.
    + apply (join_words_single_spaced [W; lit "IST"]). repeat constructor; auto.
Qed.

Lemma strip_tag W suffix :
  no_ws W = true -> suffix = [] \/ suffix = lit " IST" ->
  strip (replace (lit " IST") [] (W ++ suffix)) = W.
Proof.
  intros HW Hs. change (lit " IST") with (SP :: lit "IST").
  assert (L : lacks SP W = true) by (apply no_ws_lacks_SP; auto).
  destruct Hs as [ -> | -> ].
  - rewrite app_nil_r, replace_lacks_head by auto. apply strip_no_ws; auto.
  - unfold replace. rewrite replace_from_lacks_head by auto.
    change (replace_from (SP :: lit "IST") [] 0 (lit " IST")) with (@nil char).
    rewrite app_nil_r. apply strip_no_ws; auto.
Qed.

Lemma endash_to_hyphen A B sep :
  plain A = true -> plain B = true -> sep = HYPHEN \/ sep = EN_DASH ->
  replace [EN_DASH] [HYPHEN] (A ++ sep :: B) = A ++ HYPHEN :: B.
Proof.
  intros HA HB Hsep.
  assert (LA : lacks EN_DASH A = true) by (apply plain_lacks; auto).
  assert (LB : lacks EN_DASH B = true) by (apply plain_lacks; auto).
  destruct Hsep as [ -> | -> ].
  - apply replace_lacks_head. rewrite lacks_app, LA. simpl. exact LB.
  - unfold replace. rewrite replace_from_lacks_head by auto.
    cbn [replace_from startswith]. rewrite N.eqb_refl. simpl.
    fold (replace [EN_DASH] [HYPHEN] B). rewrite replace_lacks_head; auto.
Qed.

Lemma parse_time_range_two A B sep suffix :
  plain A = true -> plain B = true ->
  sep = HYPHEN \/ sep = EN_DASH -> suffix = [] \/ suffix = lit " IST" ->
  parse_time_range (PStr (A ++ sep :: B ++ suffix))
  = Ok (try_or_None (strptime_HM A), try_or_None (strptime_HM B)).
Proof.
  intros HA HB Hsep Hsuf.
  assert (HW : forallb semi_plain_char (A ++ sep :: B) = true).
  { rewrite forallb_app. cbn [forallb]. rewrite !plain_semi by auto.
    destruct Hsep as [ -> | -> ]; reflexivity. }
  unfold parse_time_range.
  replace (A ++ sep :: B ++ suffix) with ((A ++ sep :: B) ++ suffix)
    by (rewrite <- app_assoc; reflexivity).
  rewrite clean_str_tagged; auto; [|destruct A; discriminate].
  rewrite strip_tag by auto using semi_no_ws.
  rewrite endash_to_hyphen by auto.
  rewrite split_on_app by (apply plain_lacks; auto).
  rewrite split_on_lacks by (apply plain_lacks; auto).
  cbn [map]. rewrite !strip_no_ws by auto using plain_no_ws.
  reflexivity.
Qed.

Lemma parse_time_range_one A suffix :
  A <> [] -> plain A = true -> suffix = [] \/ suffix = lit " IST" ->
  parse_time_range (PStr (A ++ suffix))
  = Ok (try_or_None (strptime_HM A), None).
Proof.
  intros Hne HA Hsuf.
  unfold parse_time_range.
  rewrite clean_str_tagged; auto using plain_semi.
  rewrite strip_tag by auto using plain_no_ws.
  rewrite replace_lacks_head by (apply plain_lacks; auto).
  rewrite split_on_lacks by (apply plain_lacks; auto).
  cbn [map]. rewrite !strip_no_ws by auto using plain_no_ws.
  reflexivity.
Qed.

(* ---- clock times ---- *)
Lemma in_grid {A} (f : nat -> nat -> A) (a b i j : nat) :
  (i < a)%nat -> (j < b)%nat ->
  In (f i j) (flat_map (fun h => map (f h) (seq 0 b)) (seq 0 a)).
Proof.
  intros Hi Hj. apply in_flat_map. exists i. split.
  - apply in_seq. lia.
  - apply in_map. apply in_seq. lia.
Qed.

Lemma clock_times_complete t : valid_time t -> In t clock_times.
Proof.
  destruct t as [h m]. unfold valid_time. simpl. intros [Hh Hm].
  replace h with (Z.of_nat (Z.to_nat h)) by lia.
  replace m with (Z.of_nat (Z.to_nat m)) by lia.
  apply (in_grid (fun h m => mk_time (Z.of_nat h) (Z.of_nat m)) 24 60); lia.
Qed.

Lemma time_eqb_eq a b : time_eqb a b = true -> a = b.
Proof.
  destruct a, b. unfold time_eqb. simpl. intros H.
  apply andb_prop in H as [H1 H2]. apply Z.eqb_eq in H1, H2. congruence.
Qed.

Lemma HHMM_all_ok : forallb HHMM_ok clock_times = true.
Proof. vm_compute. reflexivity. Qed.

Lemma HHMM_plain t : valid_time t -> plain (HHMM t) = true.
Proof.
  intros H. apply clock_times_complete in H.
  pose proof (proj1 (forallb_forall _ _) HHMM_all_ok _ H) as K.
  unfold HHMM_ok in K. apply andb_prop in K. tauto.
Qed.

Lemma strptime_HHMM t : valid_time t -> strptime_HM (HHMM t) = Ok t.
Proof.
  intros H. apply clock_times_complete in H.
  pose proof (proj1 (forallb_forall _ _) HHMM_all_ok _ H) as K.
  unfold HHMM_ok in K. apply andb_prop in K as [_ K].
  destruct (strptime_HM (HHMM t)); [|discriminate].
  apply time_eqb_eq in K. congruence.
Qed.

Lemma HHMM_nonempty t : HHMM t <> [].
Proof.
  unfold HHMM. intros H. apply (f_equal (@length char)) in H.
  rewrite !length_app in H. simpl in H. lia.
Qed.





(* ---------- result ---------- *)
Lemma bind_Ok {A B} (m : result A) (f : A -> result B) b :
  bind m f = Ok b -> exists a, m = Ok a /\ f a = Ok b.
Proof. destruct m; simpl; [eauto|discriminate]. Qed.

Lemma map_result_Ok {A B} (f : A -> result B) l ys :
  map_result f l = Ok ys -> Forall2 (fun x y => f x = Ok y) l ys.
Proof.
  revert ys. induction l as [|x l IH]; simpl; intros ys H.
  - injection H as <-. constructor.
  - apply bind_Ok in H as (y & Hy & H). apply bind_Ok in H as (ys' & Hys & H).
    injection H as <-. constructor; auto.
Qed.

Lemma Forall2_map_result {A B} (f : A -> result B) l ys :
  Forall2 (fun x y => f x = Ok y) l ys -> map_result f l = Ok ys.
Proof. induction 1; simpl; auto. rewrite H, IHForall2. reflexivity. Qed.

Lemma Forall2_length' {A B} (R : A -> B -> Prop) l l' :
  Forall2 R l l' -> length l = length l'.
Proof. induction 1; simpl; auto. Qed.

(* ---------- str_eqb / col_index ---------- *)
Lemma str_eqb_eq a b : str_eqb a b = true <-> a = b.
Proof.
  revert b. induction a as [|x a IH]; destruct b as [|y b]; simpl; split; try congruence.
  - intros H. apply andb_prop in H as [H1 H2]. apply N.eqb_eq in H1. apply IH in H2. congruence.
  - intros H. injection H as -> ->. rewrite N.eqb_refl. simpl. now apply IH.
Qed.

Lemma str_eqb_refl a : str_eqb a a = true.
Proof. now apply str_eqb_eq. Qed.

Lemma col_index_lt k cols j : col_index k cols = Some j -> (j < length cols)%nat.
Proof.
  revert j. induction cols as [|c cols IH]; simpl; intros j H; [discriminate|].
  destruct (str_eqb k c).
  - injection H as <-. lia.
  - destruct (col_index k cols); [|discriminate]. injection H as <-.
    specialize (IH _ eq_refl). lia.
Qed.

Lemma col_index_nth k cols j : col_index k cols = Some j -> nth j cols [] = k.
Proof.
  revert j. induction cols as [|c cols IH]; simpl; intros j H; [discriminate|].
  destruct (str_eqb k c) eqn:E.
  - injection H as <-. apply str_eqb_eq in E. auto.
  - destruct (col_index k cols); [|discriminate]. injection H as <-. now apply IH.
Qed.

Lemma col_index_inj k k' cols j :
  col_index k cols = Some j -> col_index k' cols = Some j -> k = k'.
Proof. intros H H'. apply col_index_nth in H, H'. congruence. Qed.

Lemma col_index_app k cols k' :
  col_index k (cols ++ [k']) =
  match col_index k cols with
  | Some j => Some j
  | None => if str_eqb k k' then Some (length cols) else None
  end.
Proof.
  induction cols as [|c cols IH]; simpl.
  - destruct (str_eqb k k'); reflexivity.
  - destruct (str_eqb k c); auto. rewrite IH.
    destruct (col_index k cols); auto. destruct (str_eqb k k'); reflexivity.
Qed.

Lemma col_index_add_col k cols k' :
  col_index k' (add_col k cols) =
  if str_eqb k' k then Some (col_pos k cols) else col_index k' cols.
Proof.
  unfold add_col, col_pos. destruct (col_index k cols) as [j|] eqn:E.
  - destruct (str_eqb k' k) eqn:E2; auto. apply str_eqb_eq in E2. now subst.
  - rewrite col_index_app. destruct (str_eqb k' k) eqn:E2.
    + apply str_eqb_eq in E2. subst. now rewrite E.
    + destruct (col_index k' cols); reflexivity.
Qed.

Lemma col_pos_other k k' cols j :
  str_eqb k' k = false -> col_index k' cols = Some j -> j <> col_pos k cols.
Proof.
  intros Hne H. unfold col_pos. destruct (col_index k cols) as [j'|] eqn:E.
  - intros ->. assert (k' = k) by (eapply col_index_inj; eauto).
    subst. rewrite str_eqb_refl in Hne. discriminate.
  - apply col_index_lt in H. lia.
Qed.

(* ---------- cells ---------- *)
Lemma cell_set_cell_same j v r : cell j (set_cell j v r) = v.
Proof.
  revert r. induction j as [|j IH]; intros [|x r]; simpl; auto; apply IH.
Qed.

Lemma cell_set_cell_other i j v r : i <> j -> cell i (set_cell j v r) = cell i r.
Proof.
  revert i r. induction j as [|j IH]; intros i [|x r] H; simpl.
  - destruct i; [congruence|]. unfold cell. simpl. destruct i; reflexivity.
  - destruct i; [congruence|]. reflexivity.
  - destruct i; [reflexivity|]. unfold cell in *. simpl.
    rewrite IH by congruence. destruct i; reflexivity.
  - destruct i; [reflexivity|]. unfold cell in *. simpl. apply IH. congruence.
Qed.

Lemma length_set_cell j v r : (j < length (set_cell j v r))%nat.
Proof.
  revert r. induction j as [|j IH]; intros [|x r]; simpl; try lia.
  - specialize (IH []). lia.
  - specialize (IH r). lia.
Qed.

Lemma length_set_cell_ge j v r : (length r <= length (set_cell j v r))%nat.
Proof.
  revert r. induction j as [|j IH]; intros [|x r]; simpl; try lia.
  specialize (IH r). lia.
Qed.

Lemma set_cell_same j r : (j < length r)%nat -> set_cell j (cell j r) r = r.
Proof.
  revert r. induction j as [|j IH]; intros [|x r] H; simpl in *; try lia; auto.
  f_equal. apply IH. lia.
Qed.

(* ---------- views ---------- *)
Lemma series_get_set_same cols k v r d :
  series_get (add_col k cols) (set_cell (col_pos k cols) v r) k d = v.
Proof.
  unfold series_get. rewrite col_index_add_col, str_eqb_refl.
  apply cell_set_cell_same.
Qed.

Lemma series_get_set_other cols k v r k' d :
  str_eqb k' k = false ->
  series_get (add_col k cols) (set_cell (col_pos k cols) v r) k' d
  = series_get cols r k' d.
Proof.
  intros H. unfold series_get. rewrite col_index_add_col, H.
  destruct (col_index k' cols) as [j|] eqn:E; auto.
  apply cell_set_cell_other. eapply col_pos_other; eauto.
Qed.

Lemma set_column_eq k vals df :
  set_column k vals df =
  mkDF (add_col k (columns df))
    (map (fun rv => set_cell (col_pos k (columns df)) (snd rv) (fst rv))
       (combine (rows df) vals)).
Proof.
  unfold set_column, add_col, col_pos.
  destruct (col_index k (columns df)); reflexivity.
Qed.

Lemma box_datetimes_eq l : box_datetimes l = map (boxf (box_flag l)) l.
Proof.
  unfold box_datetimes, box_flag.
  destruct (existsb _ l && forallb _ l); apply map_ext; intros [x|]; reflexivity.
Qed.

Lemma instant_of_boxf b o : instant_of (boxf b o) = o.
Proof. destruct o, b; reflexivity. Qed.

Lemma combine_map_same {A B C} (f : A -> B) (g : A -> C) l :
  combine (map f l) (map g l) = map (fun x => (f x, g x)) l.
Proof. induction l; simpl; congruence. Qed.

Lemma combine_fst_snd {A B} (l : list A) (l' : list B) :
  length l = length l' ->
  map fst (combine l l') = l /\ map snd (combine l l') = l'.
Proof.
  revert l'. induction l as [|x l IH]; intros [|y l'] H; simpl in *; try lia; auto.
  destruct (IH l') as [H1 H2]; [lia|]. rewrite H1, H2. auto.
Qed.

(* ---------- clean_columns ---------- *)
Lemma clean_text_idem v : clean_text (clean_text v) = clean_text v.
Proof. destruct v; simpl; auto. now rewrite clean_str_idem. Qed.

Lemma infer_dtype_not_object cells x :
  is_object (infer_dtype cells) = false -> In x cells -> clean_text x = x.
Proof.
  unfold infer_dtype. destruct cells as [|c cells]; [discriminate|].
  intros H Hin.
  destruct (forallb is_int (c :: cells)) eqn:E1.
  { rewrite forallb_forall in E1. specialize (E1 _ Hin). destruct x; try discriminate; reflexivity. }
  destruct (forallb is_number (c :: cells)) eqn:E2.
  { rewrite forallb_forall in E2. specialize (E2 _ Hin). destruct x; try discriminate; reflexivity. }
  destruct (forallb datetime64_cell (c :: cells)) eqn:E3.
  { rewrite forallb_forall in E3. specialize (E3 _ Hin). destruct x; try discriminate; reflexivity. }
  discriminate.
Qed.

Lemma mapi_from_clean rs i r :
  (forall j v, nth_error r j = Some v -> In v (column (i + j) rs)) ->
  mapi_from i
    (fun j v => if is_object (infer_dtype (column j rs)) then clean_text v else v) r
  = map clean_text r.
Proof.
  revert i. induction r as [|x r IH]; intros i H; [reflexivity|].
  simpl. f_equal.
  - destruct (is_object (infer_dtype (column i rs))) eqn:E; auto.
    symmetry. eapply infer_dtype_not_object; eauto.
    specialize (H 0%nat x eq_refl). now rewrite Nat.add_0_r in H.
  - apply IH. intros j v Hj. specialize (H (S j) v Hj).
    now rewrite Nat.add_succ_r in H.
Qed.

Lemma clean_columns_map df :
  clean_columns df = mkDF (columns df) (map (map clean_text) (rows df)).
Proof.
  unfold clean_columns. f_equal. apply map_ext_in. intros r Hr.
  apply mapi_from_clean. intros j v Hj. simpl.
  unfold column. apply in_map_iff. exists r. split; auto.
  unfold cell. apply nth_error_nth. exact Hj.
Qed.

(* ---------- set_column over a mapped list ---------- *)
Lemma set_column_map {X} (P : list X) (row : X -> Row) (val : X -> pyval) k cols :
  set_column k (map val P) (mkDF cols (map row P))
  = mkDF (add_col k cols)
      (map (fun x => set_cell (col_pos k cols) (val x) (row x)) P).
Proof.
  rewrite set_column_eq. cbn [columns rows]. f_equal.
  rewrite combine_map_same, map_map. reflexivity.
Qed.

Lemma df_getitem_map {X} (P : list X) (row : X -> Row) k cols j :
  col_index k cols = Some j ->
  df_getitem (mkDF cols (map row P)) k = Ok (map (fun x => cell j (row x)) P).
Proof.
  intros H. unfold df_getitem. cbn [columns rows]. rewrite H.
  unfold column. now rewrite map_map.
Qed.

Lemma enrich_schedule_tail df :
  enrich_schedule df =
  se <- map_result (row_instants (columns df)) (map (map clean_text) (rows df)) ;;
  enrich_tail (columns df) (map (map clean_text) (rows df))
    (box_datetimes (map fst se)) (box_datetimes (map snd se)).
Proof.
  unfold enrich_schedule. rewrite clean_columns_map. reflexivity.
Qed.

Lemma add_col_present k cols : has k cols = true -> add_col k cols = cols.
Proof. unfold has, add_col. destruct (col_index k cols); [auto|discriminate]. Qed.
Lemma col_pos_absent k cols : has k cols = false -> col_pos k cols = length cols.
Proof. unfold has, col_pos. destruct (col_index k cols); [discriminate|auto]. Qed.

Lemma col_index_START_cols2 cols0 :
  col_index COL_START (add_col COL_END (add_col COL_START cols0))
  = Some (col_pos COL_START cols0).
Proof. rewrite !col_index_add_col. reflexivity. Qed.

Lemma col_pos_START_lt cols0 :
  (col_pos COL_START cols0 < length (add_col COL_END (add_col COL_START cols0)))%nat.
Proof. apply (col_index_lt COL_START). apply col_index_START_cols2. Qed.

Lemma cell_START_r2 cols0 r vS vE :
  cell (col_pos COL_START cols0)
    (set_cell (col_pos COL_END (add_col COL_START cols0)) vE
       (set_cell (col_pos COL_START cols0) vS r)) = vS.
Proof.
  rewrite cell_set_cell_other, cell_set_cell_same; auto.
  apply (col_pos_other COL_END COL_START (add_col COL_START cols0)); [reflexivity|].
  rewrite col_index_add_col. reflexivity.
Qed.

Lemma set_if_absent_eq k cols v r :
  set_if_absent k cols v r
  = if has k cols then r else set_cell (col_pos k cols) v r.
Proof.
  unfold set_if_absent. destruct (has k cols) eqn:E; auto.
  now rewrite col_pos_absent.
Qed.

Lemma dt_accessor_eq c :
  dt_accessor c = if is_dt (infer_dtype c) then Ok c else Raise AttributeError.
Proof. unfold dt_accessor. destruct (infer_dtype c); reflexivity. Qed.

Lemma enrich_tail_map {X} (P : list X) (row : X -> Row) (vs ve : X -> pyval) cols0 :
  enrich_tail cols0 (map row P) (map vs P) (map ve P)
  = if needs_dt cols0 && negb (is_dt (infer_dtype (map vs P)))
    then Raise AttributeError
    else sort_values [COL_START; COL_WEEK]
           (mkDF (enrich_cols cols0)
              (map (fun x => enrich_row cols0 (row x) (vs x) (ve x)) P)).
Proof.
  unfold enrich_tail. rewrite !set_column_map.
  unfold has_column. cbn [columns].
  fold (has COL_MONTH_NO (add_col COL_END (add_col COL_START cols0))).
  unfold needs_dt, enrich_cols, enrich_row.
  set (cols2 := add_col COL_END (add_col COL_START cols0)).
  set (jS := col_pos COL_START cols0).
  set (jE := col_pos COL_END (add_col COL_START cols0)).
  assert (HjS : (jS < length cols2)%nat) by apply col_pos_START_lt.
  destruct (has COL_MONTH_NO cols2) eqn:HM.
  - (* Month # supplied *)
    cbn [bind columns]. rewrite (add_col_present _ _ HM).
    fold (has COL_DAY cols2).
    destruct (has COL_DAY cols2) eqn:HD.
    + cbn [bind negb orb andb]. rewrite (add_col_present _ _ HD).
      f_equal. f_equal. apply map_ext. intros x.
      unfold set_if_absent. rewrite HM, HD. reflexivity.
    + cbn [bind negb orb].
      rewrite (df_getitem_map P _ COL_START cols2 jS) by apply col_index_START_cols2.
      cbn [bind].
      rewrite (map_ext _ vs) by (intros x; apply cell_START_r2).
      rewrite dt_accessor_eq. cbn [andb].
      destruct (is_dt (infer_dtype (map vs P))); cbn [bind negb]; auto.
      rewrite map_map, set_column_map. f_equal. f_equal.
      apply map_ext. intros x. rewrite !set_if_absent_eq, HM, HD. reflexivity.
  - (* Month # derived *)
    cbn [negb orb andb].
    rewrite (df_getitem_map P _ COL_START cols2 jS) by apply col_index_START_cols2.
    cbn [bind].
    rewrite (map_ext _ vs) by (intros x; apply cell_START_r2).
    rewrite dt_accessor_eq.
    destruct (is_dt (infer_dtype (map vs P))) eqn:Edt; cbn [bind negb]; auto.
    rewrite map_map, set_column_map. cbn [columns].
    fold (has COL_DAY (add_col COL_MONTH_NO cols2)).
    destruct (has COL_DAY (add_col COL_MONTH_NO cols2)) eqn:HD.
    + cbn [bind]. rewrite (add_col_present _ _ HD).
      f_equal. f_equal. apply map_ext. intros x.
      rewrite !set_if_absent_eq, HM, HD. reflexivity.
    + assert (HS3 : col_index COL_START (add_col COL_MONTH_NO cols2) = Some jS).
      { rewrite col_index_add_col. apply col_index_START_cols2. }
      rewrite (df_getitem_map P _ COL_START _ jS HS3). cbn [bind].
      rewrite (map_ext _ vs).
      2:{ intros x. rewrite cell_set_cell_other; [apply cell_START_r2|].
          apply (col_pos_other COL_MONTH_NO COL_START cols2); [reflexivity|].
          apply col_index_START_cols2. }
      rewrite dt_accessor_eq, Edt. cbn [bind].
      rewrite map_map, set_column_map. f_equal. f_equal.
      apply map_ext. intros x. rewrite !set_if_absent_eq, HM, HD. reflexivity.
Qed.

Section Sorting.
Context {A : Type}.
Variable leb : A -> A -> bool.
Hypothesis leb_total : forall x y, leb x y = true \/ leb y x = true.

Lemma insert_by_perm x l : Permutation (insert_by leb x l) (x :: l).
Proof.
  induction l as [|y l IH]; simpl; auto.
  destruct (leb x y); auto.
  rewrite IH. apply perm_swap.
Qed.

Lemma stable_sort_perm l : Permutation (stable_sort leb l) l.
Proof.
  induction l as [|x l IH]; simpl; auto.
  rewrite insert_by_perm. now constructor.
Qed.

Lemma insert_by_hd x l a :
  le_of leb a x -> HdRel (le_of leb) a l -> HdRel (le_of leb) a (insert_by leb x l).
Proof.
  intros Hax Hal. destruct l as [|y l]; simpl.
  - constructor. exact Hax.
  - destruct (leb x y); constructor; auto. now inversion Hal.
Qed.

Lemma insert_by_sorted x l :
  Sorted (le_of leb) l -> Sorted (le_of leb) (insert_by leb x l).
Proof.
  induction 1 as [|y l Hl IH Hy]; simpl.
  - repeat constructor.
  - destruct (leb x y) eqn:E.
    + constructor; [constructor; auto|]. constructor. exact E.
    + constructor; auto. apply insert_by_hd; auto.
      destruct (leb_total x y) as [K|K]; [congruence|exact K].
Qed.

Lemma stable_sort_sorted l : Sorted (le_of leb) (stable_sort leb l).
Proof.
  induction l as [|x l IH]; simpl; [constructor|].
  now apply insert_by_sorted.
Qed.

Lemma insert_by_sorted_hd x l :
  HdRel (le_of leb) x l -> insert_by leb x l = x :: l.
Proof.
  destruct l as [|y l]; simpl; auto. intros H. inversion H as [|? ? K]; subst.
  unfold le_of in K. now rewrite K.
Qed.
End Sorting.

Lemma stable_sort_fix {A} (leb : A -> A -> bool) l :
  Sorted (le_of leb) l -> stable_sort leb l = l.
Proof.
  induction 1 as [|x l Hl IH Hx]; simpl; auto.
  rewrite IH. now apply insert_by_sorted_hd.
Qed.

(* ---------- the key order ---------- *)
Lemma str_leb_total a b : str_leb a b = true \/ str_leb b a = true.
Proof.
  revert b. induction a as [|x a IH]; intros [|y b]; simpl; auto.
  destruct (N.ltb_spec x y), (N.ltb_spec y x); auto; lia.
Qed.

Lemma str_leb_trans a b c :
  str_leb a b = true -> str_leb b c = true -> str_leb a c = true.
Proof.
  revert b c. induction a as [|x a IH]; intros [|y b] [|z c]; simpl; auto; try discriminate.
  destruct (N.ltb_spec x y), (N.ltb_spec y x), (N.ltb_spec y z), (N.ltb_spec z y),
    (N.ltb_spec x z), (N.ltb_spec z x); try discriminate; try lia; auto.
  eauto.
Qed.

Lemma key_leb_total a b : key_leb a b = true \/ key_leb b a = true.
Proof.
  destruct a, b; simpl; auto using str_leb_total.
  all: repeat match goal with
         | |- context [(?x <=? ?y)] => destruct (Z.leb_spec x y)
         end; auto; lia.
Qed.

Lemma key_leb_trans a b c :
  key_leb a b = true -> key_leb b c = true -> key_leb a c = true.
Proof.
  destruct a, b, c; simpl; auto; try discriminate;
    try apply str_leb_trans;
    rewrite ?Z.leb_le; intros; lia.
Qed.

Lemma lex_leb_total js r1 r2 : lex_leb js r1 r2 = true \/ lex_leb js r2 r1 = true.
Proof.
  induction js as [|j js IH]; simpl; auto.
  destruct (key_leb_total (cell j r1) (cell j r2)) as [H|H]; rewrite H;
    destruct (key_leb (cell j r2) (cell j r1)) eqn:E;
    destruct (key_leb (cell j r1) (cell j r2)) eqn:E'; auto; discriminate.
Qed.

Lemma lex_leb_trans js r1 r2 r3 :
  lex_leb js r1 r2 = true -> lex_leb js r2 r3 = true -> lex_leb js r1 r3 = true.
Proof.
  induction js as [|j js IH]; simpl; auto.
  destruct (key_leb (cell j r1) (cell j r2)) eqn:E12; [|discriminate].
  destruct (key_leb (cell j r2) (cell j r3)) eqn:E23; [|intros _; discriminate].
  rewrite (key_leb_trans _ _ _ E12 E23).
  destruct (key_leb (cell j r2) (cell j r1)) eqn:E21;
  destruct (key_leb (cell j r3) (cell j r2)) eqn:E32;
  destruct (key_leb (cell j r3) (cell j r1)) eqn:E31; auto;
  exfalso;
  first
    [ rewrite (key_leb_trans _ _ _ E32 E21) in E31; discriminate
    | rewrite (key_leb_trans _ _ _ E31 E12) in E32; discriminate
    | rewrite (key_leb_trans _ _ _ E23 E31) in E21; discriminate ].
Qed.

(* ---------- existsb / sortable under permutation ---------- *)
Lemma existsb_perm {A} (f : A -> bool) l l' :
  Permutation l l' -> existsb f l = existsb f l'.
Proof.
  induction 1; simpl; auto.
  - now rewrite IHPermutation.
  - destruct (f x), (f y); reflexivity.
  - congruence.
Qed.

Lemma forallb_perm {A} (f : A -> bool) l l' :
  Permutation l l' -> forallb f l = forallb f l'.
Proof.
  induction 1; simpl; auto.
  - now rewrite IHPermutation.
  - destruct (f x), (f y); reflexivity.
  - congruence.
Qed.

Lemma sortable_perm l l' : Permutation l l' -> sortable l = sortable l'.
Proof.
  intros H. unfold sortable.
  now rewrite (existsb_perm is_int _ _ H), (existsb_perm is_timestamp _ _ H).
Qed.

Lemma box_flag_perm l l' : Permutation l l' -> box_flag l = box_flag l'.
Proof.
  intros H. unfold box_flag.
  now rewrite (existsb_perm _ _ _ H), (forallb_perm _ _ _ H).
Qed.

(* ---------- sort_values ---------- *)
Lemma sort_values_two k1 k2 df :
  sort_values [k1; k2] df =
  match col_index k1 (columns df), col_index k2 (columns df) with
  | Some j1, Some j2 =>
      if sortable (column j1 (rows df)) && sortable (column j2 (rows df))
      then Ok (mkDF (columns df) (stable_sort (lex_leb [j1; j2]) (rows df)))
      else Raise TypeError
  | _, _ => Raise KeyError
  end.
Proof.
  unfold sort_values. simpl.
  destruct (col_index k1 (columns df)); simpl; auto.
  destruct (col_index k2 (columns df)); simpl; auto.
  rewrite andb_true_r. reflexivity.
Qed.

Lemma sort_values_one k1 df :
  sort_values [k1] df =
  match col_index k1 (columns df) with
  | Some j1 =>
      if sortable (column j1 (rows df))
      then Ok (mkDF (columns df) (stable_sort (lex_leb [j1]) (rows df)))
      else Raise TypeError
  | _ => Raise KeyError
  end.
Proof.
  unfold sort_values. simpl.
  destruct (col_index k1 (columns df)); simpl; auto.
  rewrite andb_true_r. reflexivity.
Qed.

(* ---------- views of an enriched row ---------- *)
Lemma has_add_col k k' cols :
  str_eqb k' k = false -> has k' (add_col k cols) = has k' cols.
Proof. intros H. unfold has. now rewrite col_index_add_col, H. Qed.

Lemma has_add_col_same k cols : has k (add_col k cols) = true.
Proof. unfold has. now rewrite col_index_add_col, str_eqb_refl. Qed.

Lemma series_get_set_if_absent_other cols k v r k' d :
  str_eqb k' k = false ->
  series_get (add_col k cols) (set_if_absent k cols v r) k' d
  = series_get cols r k' d.
Proof.
  intros H. rewrite set_if_absent_eq. destruct (has k cols) eqn:E.
  - now rewrite add_col_present.
  - now apply series_get_set_other.
Qed.

Lemma series_get_set_if_absent_same cols k v r d :
  series_get (add_col k cols) (set_if_absent k cols v r) k d
  = if has k cols then series_get cols r k d else v.
Proof.
  rewrite set_if_absent_eq. destruct (has k cols) eqn:E.
  - now rewrite add_col_present.
  - apply series_get_set_same.
Qed.

Section EnrichedRow.
Variable cols0 : list str.
Variables (r : Row) (vS vE : pyval).

Lemma enriched_get_START d :
  series_get (enrich_cols cols0) (enrich_row cols0 r vS vE) COL_START d = vS.
Proof.
  unfold enrich_cols, enrich_row.
  rewrite !series_get_set_if_absent_other by reflexivity.
  rewrite series_get_set_other by reflexivity.
  apply series_get_set_same.
Qed.

Lemma enriched_get_END d :
  series_get (enrich_cols cols0) (enrich_row cols0 r vS vE) COL_END d = vE.
Proof.
  unfold enrich_cols, enrich_row.
  rewrite !series_get_set_if_absent_other by reflexivity.
  apply series_get_set_same.
Qed.

Lemma enriched_get_MONTH d :
  series_get (enrich_cols cols0) (enrich_row cols0 r vS vE) COL_MONTH_NO d
  = if has COL_MONTH_NO cols0 then series_get cols0 r COL_MONTH_NO d
    else dt_month vS.
Proof.
  unfold enrich_cols, enrich_row.
  rewrite series_get_set_if_absent_other by reflexivity.
  rewrite series_get_set_if_absent_same.
  rewrite !has_add_col by reflexivity.
  destruct (has COL_MONTH_NO cols0); auto.
  rewrite !series_get_set_other by reflexivity. reflexivity.
Qed.

Lemma enriched_get_DAY d :
  series_get (enrich_cols cols0) (enrich_row cols0 r vS vE) COL_DAY d
  = if has COL_DAY cols0 then series_get cols0 r COL_DAY d
    else dt_strftime_a vS.
Proof.
  unfold enrich_cols, enrich_row.
  rewrite series_get_set_if_absent_same.
  rewrite !has_add_col by reflexivity.
  destruct (has COL_DAY cols0); auto.
  rewrite series_get_set_if_absent_other by reflexivity.
  rewrite !series_get_set_other by reflexivity. reflexivity.
Qed.

Lemma enriched_get_other k d :
  str_eqb k COL_START = false -> str_eqb k COL_END = false ->
  str_eqb k COL_MONTH_NO = false -> str_eqb k COL_DAY = false ->
  series_get (enrich_cols cols0) (enrich_row cols0 r vS vE) k d
  = series_get cols0 r k d.
Proof.
  intros H1 H2 H3 H4. unfold enrich_cols, enrich_row.
  rewrite !series_get_set_if_absent_other by assumption.
  rewrite !series_get_set_other by assumption. reflexivity.
Qed.

Lemma enriched_row_instants :
  row_instants (enrich_cols cols0) (enrich_row cols0 r vS vE)
  = row_instants cols0 r.
Proof.
  unfold row_instants, date_str, time_str.
  rewrite !enriched_get_other by reflexivity. reflexivity.
Qed.
End EnrichedRow.

Lemma col_index_enrich_START cols0 :
  col_index COL_START (enrich_cols cols0) = Some (col_pos COL_START cols0).
Proof. unfold enrich_cols. rewrite !col_index_add_col. reflexivity. Qed.

Lemma enrich_schedule_eq df :
  enrich_schedule df =
  se <- map_result (row_instants (columns df)) (map (map clean_text) (rows df)) ;;
  if needs_dt (columns df)
     && negb (is_dt (infer_dtype (map (boxf (box_flag (map fst se))) (map fst se))))
  then Raise AttributeError
  else sort_values [COL_START; COL_WEEK]
         (mkDF (enrich_cols (columns df))
            (boxed_rows (columns df) (map (map clean_text) (rows df)) se)).
Proof.
  rewrite enrich_schedule_tail.
  set (R := map (map clean_text) (rows df)).
  destruct (map_result (row_instants (columns df)) R) as [se|e] eqn:E; [|reflexivity].
  cbn [bind]. rewrite !box_datetimes_eq.
  pose proof (Forall2_length' _ _ _ (map_result_Ok _ _ _ E)) as Hlen.
  destruct (combine_fst_snd R se Hlen) as [HR Hse].
  unfold boxed_rows.
  set (fS := box_flag (map fst se)). set (fE := box_flag (map snd se)).
  set (P := combine R se) in *.
  assert (H1 : map (boxf fS) (map fst se) = map (fun p => boxf fS (fst (snd p))) P).
  { rewrite <- Hse at 1. rewrite !map_map. reflexivity. }
  assert (H2 : map (boxf fE) (map snd se) = map (fun p => boxf fE (snd (snd p))) P).
  { rewrite <- Hse at 1. rewrite !map_map. reflexivity. }
  rewrite H1, H2. rewrite <- HR at 1.
  apply enrich_tail_map.
Qed.

Lemma enrich_schedule_inv df df' :
  enrich_schedule df = Ok df' ->
  exists se jW,
    let cols0 := columns df in
    let R := map (map clean_text) (rows df) in
    let rows4 := boxed_rows cols0 R se in
    let jS := col_pos COL_START cols0 in
    Forall2 (fun r p => row_instants cols0 r = Ok p) R se
    /\ col_index COL_WEEK (enrich_cols cols0) = Some jW
    /\ sortable (column jS rows4) = true
    /\ sortable (column jW rows4) = true
    /\ (needs_dt cols0 = true ->
        is_dt (infer_dtype (map (boxf (box_flag (map fst se))) (map fst se))) = true)
    /\ df' = mkDF (enrich_cols cols0) (stable_sort (lex_leb [jS; jW]) rows4).
Proof.
  rewrite enrich_schedule_eq. intros H.
  apply bind_Ok in H as (se & Hse & H).
  destruct (needs_dt (columns df) && _) eqn:Edt; [discriminate|].
  rewrite sort_values_two in H. cbn [columns rows] in H.
  rewrite col_index_enrich_START in H.
  destruct (col_index COL_WEEK (enrich_cols (columns df))) as [jW|] eqn:EW; [|discriminate].
  destruct (sortable _ && sortable _) eqn:Es; [|discriminate].
  apply andb_prop in Es as [Es1 Es2]. injection H as <-.
  exists se, jW. cbn zeta. repeat split; auto.
  - now apply map_result_Ok.
  - intros Hn. rewrite Hn in Edt. simpl in Edt. now apply negb_false_iff in Edt.
Qed.

Lemma Forall2_combine {A B} (R : A -> B -> Prop) l l' :
  Forall2 R l l' -> Forall (fun p => R (fst p) (snd p)) (combine l l').
Proof. induction 1; simpl; constructor; auto. Qed.

Lemma in_combine_fst {A B} (l : list A) (l' : list B) p :
  In p (combine l l') -> In (fst p) l.
Proof. destruct p. apply in_combine_l. Qed.

Lemma boxed_rows_enriched cols0 rows0 se :
  Forall2 (fun r p => row_instants cols0 r = Ok p)
    (map (map clean_text) rows0) se ->
  Forall (enriched_row cols0 (box_flag (map fst se)) (box_flag (map snd se)))
    (boxed_rows cols0 (map (map clean_text) rows0) se).
Proof.
  intros H. unfold boxed_rows. apply Forall_forall. intros r' Hr'.
  apply in_map_iff in Hr' as (p & <- & Hp).
  pose proof (proj1 (Forall_forall _ _) (Forall2_combine _ _ _ H) _ Hp) as Hri.
  apply in_combine_fst in Hp. apply in_map_iff in Hp as (r0 & Hr0 & _).
  exists (fst p), (fst (snd p)), (snd (snd p)). repeat split.
  - rewrite <- Hr0. apply Forall_forall. intros v Hv.
    apply in_map_iff in Hv as (v0 & <- & _). apply clean_text_idem.
  - simpl in Hri. rewrite Hri. destruct (snd p); reflexivity.
Qed.

Lemma enrich_schedule_rows df df' :
  enrich_schedule df = Ok df' ->
  columns df' = enrich_cols (columns df)
  /\ exists fS fE, Forall (enriched_row (columns df) fS fE) (rows df').
Proof.
  intros H. apply enrich_schedule_inv in H as (se & jW & H1 & _ & _ & _ & _ & ->).
  split; [reflexivity|]. cbn [rows].
  exists (box_flag (map fst se)), (box_flag (map snd se)).
  eapply Permutation_Forall; [|apply boxed_rows_enriched; eauto].
  symmetry. apply stable_sort_perm.
Qed.

Lemma enriched_row_start cols0 fS fE r' :
  enriched_row cols0 fS fE r' ->
  row_instants (enrich_cols cols0) r'
  = Ok (start_instant (enrich_cols cols0) r', end_instant (enrich_cols cols0) r').
Proof.
  intros (r & s & e & _ & Hri & ->).
  rewrite enriched_row_instants, Hri. unfold start_instant, end_instant.
  now rewrite enriched_get_START, enriched_get_END, !instant_of_boxf.
Qed.

(** Each enriched row carries the instants [row_instants] computes from
    its own date and time cells. *)
Lemma enrich_schedule_row_instants df df' r :
  enrich_schedule df = Ok df' -> In r (rows df') ->
  row_instants (columns df') r
  = Ok (start_instant (columns df') r, end_instant (columns df') r).
Proof.
  intros H Hr. apply enrich_schedule_rows in H as (-> & fS & fE & HF).
  eapply enriched_row_start. eapply Forall_forall; eauto.
Qed.

Lemma parse_time_range_str s :
  exists st et, parse_time_range (PStr s) = Ok (st, et).
Proof. simpl. eauto. Qed.




Lemma StronglySorted_impl {A} (R R' : A -> A -> Prop) l :
  (forall x y, In x l -> In y l -> R x y -> R' x y) ->
  StronglySorted R l -> StronglySorted R' l.
Proof.
  intros H. induction 1 as [|x l Hl IH Hx]; constructor.
  - apply IH. intros a b Ha Hb. apply H; now right.
  - rewrite Forall_forall in *. intros y Hy. apply H; [now left|now right|auto].
Qed.




(* ---------- C6 ---------- *)
Lemma cell_map_clean j r : cell j (map clean_text r) = clean_text (cell j r).
Proof. unfold cell. change PNaN with (clean_text PNaN) at 1. apply map_nth. Qed.

Lemma dt_month_boxf f s :
  dt_month (boxf f s)
  = match s with Some t => PInt (month (dt_date t)) | None => PNaN end.
Proof. destruct s, f; reflexivity. Qed.

Lemma dt_strftime_a_boxf f s :
  dt_strftime_a (boxf f s)
  = match s with Some t => PStr (strftime_a t) | None => PNaN end.
Proof. destruct s, f; reflexivity. Qed.

Lemma boxed_rows_paired cols0 fS fE rows0 se :
  length rows0 = length se ->
  Forall2
    (fun r0 r' => exists s e,
         r' = enrich_row cols0 (map clean_text r0) (boxf fS s) (boxf fE e))
    rows0
    (map (fun p => enrich_row cols0 (fst p) (boxf fS (fst (snd p)))
                     (boxf fE (snd (snd p))))
       (combine (map (map clean_text) rows0) se)).
Proof.
  revert se. induction rows0 as [|r0 rows0 IH]; intros [|p se] H; simpl in *;
    try discriminate; constructor; eauto.
Qed.

(** Claim C6, amended.  When the table has no [Month #] column, the
    enriched table has one that holds, row by row, the month of the
    start instant, and [NaN] where the start instant is absent; and
    likewise a [Day] column with the abbreviated weekday name when the
    table has none.  A column the table has is kept as supplied, its
    text normalized. *)
Theorem month_and_day_derived_for_missing_columns df df' :
  enrich_schedule df = Ok df' ->
  (has_column COL_MONTH_NO df = false ->
   Forall (fun r =>
             series_get (columns df') r COL_MONTH_NO PNaN
             = match start_instant (columns df') r with
               | Some t => PInt (month (dt_date t))
               | None => PNaN
               end) (rows df'))
  /\ (has_column COL_DAY df = false ->
      Forall (fun r =>
                series_get (columns df') r COL_DAY PNaN
                = match start_instant (columns df') r with
                  | Some t => PStr (strftime_a t)
                  | None => PNaN
                  end) (rows df'))
  /\ exists paired,
      Permutation paired (rows df')
      /\ Forall2
           (fun r0 r' =>
              (has_column COL_MONTH_NO df = true ->
               series_get (columns df') r' COL_MONTH_NO PNaN
               = clean_text (series_get (columns df) r0 COL_MONTH_NO PNaN))
              /\ (has_column COL_DAY df = true ->
                  series_get (columns df') r' COL_DAY PNaN
                  = clean_text (series_get (columns df) r0 COL_DAY PNaN)))
           (rows df) paired.
Proof.
  intros H.
  pose proof (enrich_schedule_rows _ _ H) as (Hc & fS & fE & HF).
  rewrite Hc. repeat split.
  - intros HM. eapply Forall_impl; [|exact HF].
    intros r' (r & s & e & _ & _ & ->).
    unfold start_instant. rewrite enriched_get_MONTH, enriched_get_START.
    change (has COL_MONTH_NO (columns df) = false) in HM.
    rewrite HM, instant_of_boxf.
    apply dt_month_boxf.
  - intros HD. eapply Forall_impl; [|exact HF].
    intros r' (r & s & e & _ & _ & ->).
    unfold start_instant. rewrite enriched_get_DAY, enriched_get_START.
    change (has COL_DAY (columns df) = false) in HD.
    rewrite HD, instant_of_boxf.
    apply dt_strftime_a_boxf.
  - pose proof (enrich_schedule_inv _ _ H) as (se & jW & HF2 & _ & _ & _ & _ & E).
    cbn zeta in *. rewrite E. cbn [rows].
    eexists. split; [symmetry; apply stable_sort_perm|].
    apply Forall2_length' in HF2. rewrite length_map in HF2.
    eapply Forall2_impl; [|apply boxed_rows_paired; exact HF2].
    intros r0 r' (s & e & ->). split.
    + intros HM. rewrite enriched_get_MONTH.
      assert (HM' : has COL_MONTH_NO (columns df) = true) by exact HM.
      rewrite HM'. unfold series_get. unfold has_column in HM.
      destruct (col_index COL_MONTH_NO (columns df)); [|discriminate].
      apply cell_map_clean.
    + intros HD. rewrite enriched_get_DAY.
      assert (HD' : has COL_DAY (columns df) = true) by exact HD.
      rewrite HD'. unfold series_get. unfold has_column in HD.
      destruct (col_index COL_DAY (columns df)); [|discriminate].
      apply cell_map_clean.
Qed.

Lemma map_result_map_total {A B C} (f : B -> result C) (g : A -> B) (h : A -> C) l :
  Forall (fun x => f (g x) = Ok (h x)) l ->
  map_result f (map g l) = Ok (map h l).
Proof. induction 1; simpl; auto. rewrite H, IHForall. reflexivity. Qed.

Lemma loc_mask_map (b : Row -> bool) rs : loc_mask (map b rs) rs = filter b rs.
Proof. induction rs as [|r rs IH]; simpl; auto. rewrite IH. reflexivity. Qed.

Lemma enriched_row_START_cell cols0 fS fE r :
  enriched_row cols0 fS fE r ->
  cell (col_pos COL_START cols0) r
  = boxf fS (start_instant (enrich_cols cols0) r).
Proof.
  intros (x & s & e & _ & _ & ->).
  unfold start_instant. rewrite enriched_get_START, instant_of_boxf.
  pose proof (enriched_get_START cols0 x (boxf fS s) (boxf fE e) PNone) as K.
  unfold series_get in K. now rewrite col_index_enrich_START in K.
Qed.

Lemma existsb_false_forall {A} (f : A -> bool) l :
  (forall x, In x l -> f x = false) -> existsb f l = false.
Proof.
  induction l as [|x l IH]; simpl; auto. intros H.
  rewrite H by now left. apply IH. intros y Hy. apply H. now right.
Qed.

(** Claim C2.  On an enriched table, for every instant [now] and
    horizon such that [now + horizon] is a datetime, [upcoming_between]
    returns the rows whose start instant [t] satisfies
    [now < t <= now + horizon], each as often as in the table, in
    ascending order of start instant.  Rows without a start instant are
    left out, so is a row starting at [now]; a row starting at
    [now + horizon] is kept (the horizon being positive). *)
Theorem upcoming_between_exact raw df now horizon :
  enrich_schedule raw = Ok df ->
  dt_in_range (now + horizon) = true ->
  exists out,
    upcoming_between df now horizon = Ok out
    /\ columns out = columns df
    /\ Permutation (rows out)
         (filter (fun r => in_window now horizon (start_instant (columns df) r))
            (rows df))
    /\ StronglySorted (start_le (columns df)) (rows out)
    /\ (forall r,
           In r (rows out) <->
           In r (rows df)
           /\ exists t, start_instant (columns df) r = Some t
                        /\ now < t <= now + horizon)
    /\ (forall r, start_instant (columns df) r = None -> ~ In r (rows out))
    /\ (forall r, start_instant (columns df) r = Some now -> ~ In r (rows out))
    /\ (forall r,
           In r (rows df) -> 0 < horizon ->
           start_instant (columns df) r = Some (now + horizon) ->
           In r (rows out)).
Proof.
  intros H Hrange.
  pose proof (enrich_schedule_rows _ _ H) as (Hc & fS & fE & HF).
  set (cols0 := columns raw) in *. set (jS := col_pos COL_START cols0).
  set (w := fun r => in_window now horizon (start_instant (columns df) r)).
  assert (Hcell : Forall (fun r => cell jS r = boxf fS (start_instant (columns df) r))
                    (rows df)).
  { eapply Forall_impl; [|exact HF]. intros r Hr. rewrite Hc.
    now apply enriched_row_START_cell with (fE := fE). }
  assert (Hidx : col_index COL_START (columns df) = Some jS).
  { rewrite Hc. apply col_index_enrich_START. }
  assert (Hsort : sortable (column jS (filter w (rows df))) = true).
  { unfold sortable. rewrite existsb_false_forall; [reflexivity|].
    intros v Hv. unfold column in Hv. apply in_map_iff in Hv as (r & <- & Hr).
    apply filter_In in Hr as [Hr _].
    rewrite (proj1 (Forall_forall _ _) Hcell r Hr).
    destruct (start_instant (columns df) r), fS; reflexivity. }
  assert (Hup : upcoming_between df now horizon
                = Ok (mkDF (columns df)
                        (stable_sort (lex_leb [jS]) (filter w (rows df))))).
  { unfold upcoming_between, df_getitem. rewrite Hidx. cbn [bind].
    unfold column.
    rewrite (map_result_map_total (gt_datetime now) (cell jS)
               (fun r => match start_instant (columns df) r with
                         | Some t => now <? t
                         | None => false
                         end)).
    2:{ eapply Forall_impl; [|exact Hcell]. intros r ->.
        destruct (start_instant (columns df) r), fS; reflexivity. }
    cbn [bind]. unfold dt_add. rewrite Hrange. cbn [bind].
    rewrite (map_result_map_total (le_datetime (now + horizon)) (cell jS)
               (fun r => match start_instant (columns df) r with
                         | Some t => t <=? now + horizon
                         | None => false
                         end)).
    2:{ eapply Forall_impl; [|exact Hcell]. intros r ->.
        destruct (start_instant (columns df) r), fS; reflexivity. }
    cbn [bind]. rewrite combine_map_same, map_map. cbn [fst snd].
    rewrite (map_ext _ w).
    2:{ intros r. unfold w, in_window.
        destruct (start_instant (columns df) r); reflexivity. }
    rewrite loc_mask_map, sort_values_one. cbn [columns rows].
    rewrite Hidx, Hsort. reflexivity. }
  assert (Hperm : Permutation (stable_sort (lex_leb [jS]) (filter w (rows df)))
                    (filter w (rows df))) by apply stable_sort_perm.
  assert (Hiff : forall r,
             In r (stable_sort (lex_leb [jS]) (filter w (rows df))) <->
             In r (rows df)
             /\ exists t, start_instant (columns df) r = Some t
                          /\ now < t <= now + horizon).
  { intros r. split.
    - intros Hr. apply (Permutation_in _ Hperm) in Hr.
      apply filter_In in Hr as [Hr Hw]. split; auto.
      unfold w, in_window in Hw.
      destruct (start_instant (columns df) r) as [t|]; [|discriminate].
      exists t. split; auto. apply andb_prop in Hw as [H1 H2].
      apply Z.ltb_lt in H1. apply Z.leb_le in H2. lia.
    - intros (Hr & t & Ht & Hlt).
      apply (Permutation_in _ (Permutation_sym Hperm)).
      apply filter_In. split; auto. unfold w, in_window. rewrite Ht.
      apply andb_true_intro. split; [apply Z.ltb_lt|apply Z.leb_le]; lia. }
  eexists. split; [exact Hup|]. cbn [columns rows].
  split; [reflexivity|]. split; [exact Hperm|]. split; [|split; [exact Hiff|]].
  - eapply StronglySorted_impl.
    2:{ apply (@Sorted_StronglySorted _ (le_of (lex_leb [jS]))).
        - intros x y z. apply lex_leb_trans.
        - apply stable_sort_sorted. apply lex_leb_total. }
    intros x y Hx Hy Hxy.
    apply Hiff in Hx as (Hx & tx & Ex & _). apply Hiff in Hy as (Hy & ty & Ey & _).
    unfold le_of in Hxy. cbn [lex_leb] in Hxy.
    rewrite (proj1 (Forall_forall _ _) Hcell x Hx) in Hxy.
    rewrite (proj1 (Forall_forall _ _) Hcell y Hy) in Hxy.
    unfold start_le. rewrite Ex, Ey in *. cbn [boxf key_leb] in Hxy.
    destruct (Z.leb_spec tx ty); [lia|discriminate].
  - repeat split.
    + intros r Hr Hin. apply Hiff in Hin as (_ & t & Ht & _). congruence.
    + intros r Hr Hin. apply Hiff in Hin as (_ & t & Ht & Hlt).
      rewrite Hr in Ht. injection Ht as <-. lia.
    + intros r Hr Hpos Hs. apply Hiff. split; auto.
      exists (now + horizon). split; auto. lia.
Qed.

(* ---------- cells of enriched rows are normalized ---------- *)
Lemma fixed_set_cell j v r :
  fixed_cell v -> Forall fixed_cell r -> Forall fixed_cell (set_cell j v r).
Proof.
  intros Hv. revert r. induction j as [|j IH]; intros [|x r] Hr; simpl.
  - repeat constructor; auto.
  - inversion Hr; subst. constructor; auto.
  - constructor; [reflexivity|]. apply IH. constructor.
  - inversion Hr; subst. constructor; auto.
Qed.

Lemma fixed_set_if_absent k cols v r :
  fixed_cell v -> Forall fixed_cell r -> Forall fixed_cell (set_if_absent k cols v r).
Proof.
  intros Hv Hr. unfold set_if_absent. destruct (has k cols); auto.
  now apply fixed_set_cell.
Qed.

Lemma day_abbr_fixed n : clean_str (nth n DAY_ABBR []) = nth n DAY_ABBR [].
Proof. do 8 (destruct n as [|n]; [vm_compute; reflexivity|]). destruct n; reflexivity. Qed.

Lemma fixed_boxf f s : fixed_cell (boxf f s).
Proof. destruct s, f; reflexivity. Qed.

Lemma fixed_dt_month v : fixed_cell (dt_month v).
Proof. destruct v; reflexivity. Qed.

Lemma fixed_dt_strftime_a v : fixed_cell (dt_strftime_a v).
Proof.
  destruct v; try reflexivity.
  unfold fixed_cell, dt_strftime_a, clean_text, strftime_a.
  f_equal. apply day_abbr_fixed.
Qed.

Lemma enriched_row_fixed cols0 fS fE r :
  enriched_row cols0 fS fE r -> Forall fixed_cell r.
Proof.
  intros (x & s & e & Hx & _ & ->). unfold enrich_row.
  repeat first [apply fixed_set_if_absent | apply fixed_set_cell];
    auto using fixed_boxf, fixed_dt_month, fixed_dt_strftime_a.
Qed.

Lemma map_fixed r : Forall fixed_cell r -> map clean_text r = r.
Proof. induction 1; simpl; congruence. Qed.

(* ---------- dtype inference does not depend on the order ---------- *)
Lemma infer_dtype_perm l l' : Permutation l l' -> infer_dtype l = infer_dtype l'.
Proof.
  intros H. unfold infer_dtype.
  rewrite (forallb_perm is_int _ _ H), (forallb_perm is_number _ _ H),
    (forallb_perm datetime64_cell _ _ H).
  destruct l as [|x l], l' as [|y l']; auto.
  - apply Permutation_nil in H. discriminate.
  - apply Permutation_sym, Permutation_nil in H. discriminate.
Qed.

(* ---------- sortedness carried along aligned lists ---------- *)
Lemma Sorted_transfer {A B} (leA : A -> A -> bool) (leB : B -> B -> bool)
  (Q : A -> B -> Prop) l l' :
  (forall x x' y y', Q x x' -> Q y y' -> leA x y = true -> leB x' y' = true) ->
  Forall2 Q l l' -> Sorted (le_of leA) l -> Sorted (le_of leB) l'.
Proof.
  intros HQ HF. induction HF as [|x x' l l' Hx HF IH]; intros HS; constructor.
  - apply IH. now inversion HS.
  - inversion HS as [|? ? _ Hhd]; subst.
    destruct HF as [|y y' l l' Hy HF]; constructor.
    inversion Hhd; subst. unfold le_of in *. eauto.
Qed.

Lemma Forall2_Forall_l {A B} (P : A -> Prop) (Q Q' : A -> B -> Prop) l l' :
  Forall P l -> (forall x y, P x -> Q x y -> Q' x y) ->
  Forall2 Q l l' -> Forall2 Q' l l'.
Proof.
  intros HP HQ HF. induction HF; constructor; inversion HP; subst; auto.
Qed.

(* ---------- what a successful run establishes ---------- *)
Lemma enriched_row_END_cell cols0 fS fE r :
  enriched_row cols0 fS fE r ->
  cell (col_pos COL_END (add_col COL_START cols0)) r
  = boxf fE (end_instant (enrich_cols cols0) r).
Proof.
  intros (x & s & e & _ & _ & ->).
  unfold end_instant. rewrite enriched_get_END, instant_of_boxf.
  pose proof (enriched_get_END cols0 x (boxf fS s) (boxf fE e) PNone) as K.
  unfold series_get, enrich_cols in K. rewrite !col_index_add_col in K.
  exact K.
Qed.

Lemma col_index_enrich_END cols0 :
  col_index COL_END (enrich_cols cols0)
  = Some (col_pos COL_END (add_col COL_START cols0)).
Proof. unfold enrich_cols. rewrite !col_index_add_col. reflexivity. Qed.

Lemma col_index_enrich_other k cols0 :
  str_eqb k COL_START = false -> str_eqb k COL_END = false ->
  str_eqb k COL_MONTH_NO = false -> str_eqb k COL_DAY = false ->
  col_index k (enrich_cols cols0) = col_index k cols0.
Proof.
  intros H1 H2 H3 H4. unfold enrich_cols.
  now rewrite !col_index_add_col, H1, H2, H3, H4.
Qed.

Lemma boxed_rows_starts cols0 R se :
  length R = length se ->
  map (start_instant (enrich_cols cols0)) (boxed_rows cols0 R se) = map fst se
  /\ map (end_instant (enrich_cols cols0)) (boxed_rows cols0 R se) = map snd se.
Proof.
  intros Hlen. unfold boxed_rows. rewrite !map_map.
  destruct (combine_fst_snd R se Hlen) as [_ Hse].
  generalize (box_flag (map fst se)) (box_flag (map snd se)). intros fS fE.
  split.
  - rewrite <- Hse at 2. rewrite map_map. apply map_ext. intros p.
    unfold start_instant. now rewrite enriched_get_START, instant_of_boxf.
  - rewrite <- Hse at 2. rewrite map_map. apply map_ext. intros p.
    unfold end_instant. now rewrite enriched_get_END, instant_of_boxf.
Qed.

Lemma enrich_schedule_run_facts df df1 :
  enrich_schedule df = Ok df1 ->
  exists fS fE jW, run_facts (columns df) df1 fS fE jW.
Proof.
  intros H.
  pose proof (enrich_schedule_inv _ _ H) as (se & jW & HF2 & HW & HsS & HsW & Hdt & E).
  cbn zeta in *.
  set (cols0 := columns df) in *. set (R := map (map clean_text) (rows df)) in *.
  set (jS := col_pos COL_START cols0) in *.
  assert (Hperm : Permutation (rows df1) (boxed_rows cols0 R se)).
  { rewrite E. cbn [rows]. apply stable_sort_perm. }
  pose proof (Forall2_length' _ _ _ HF2) as Hlen.
  destruct (boxed_rows_starts cols0 R se Hlen) as [HS HE].
  exists (box_flag (map fst se)), (box_flag (map snd se)), jW.
  constructor.
  - now rewrite E.
  - eapply Permutation_Forall; [symmetry; exact Hperm|].
    apply boxed_rows_enriched. exact HF2.
  - exact HW.
  - rewrite E. cbn [rows]. apply stable_sort_sorted. apply lex_leb_total.
  - rewrite <- HsS. apply sortable_perm. unfold column. now apply Permutation_map.
  - rewrite <- HsW. apply sortable_perm. unfold column. now apply Permutation_map.
  - rewrite <- HS. apply box_flag_perm. now apply Permutation_map.
  - rewrite <- HE. apply box_flag_perm. now apply Permutation_map.
  - intros Hn. rewrite <- (Hdt Hn). f_equal. apply infer_dtype_perm.
    rewrite <- HS, map_map. now apply Permutation_map.
Qed.

Lemma Forall2_map_both {A B C D} (f : A -> C) (g : B -> D) (Q : C -> D -> Prop) l l' :
  Forall2 (fun a b => Q (f a) (g b)) l l' -> Forall2 Q (map f l) (map g l').
Proof. induction 1; simpl; constructor; auto. Qed.

Lemma Forall2_and_r {A B} (P : B -> Prop) (Q : A -> B -> Prop) l l' :
  Forall P l' -> Forall2 Q l l' -> Forall2 (fun a b => Q a b /\ P b) l l'.
Proof.
  intros HP HF. induction HF; constructor; inversion HP; subst; auto.
Qed.

Lemma Forall2_eq_map {A B C} (f : A -> C) (g : B -> C) l l' :
  Forall2 (fun a b => f a = g b) l l' -> map f l = map g l'.
Proof. induction 1; simpl; congruence. Qed.

Lemma boxed_rows_aligned colsX fS fE (P : Row -> Row -> Prop) cols' RX rows1 :
  Forall2 P RX rows1 ->
  Forall2
    (fun r' x4 => exists rX,
         P rX r'
         /\ x4 = enrich_row colsX (map clean_text rX)
                   (boxf fS (start_instant cols' r'))
                   (boxf fE (end_instant cols' r')))
    rows1
    (map (fun p => enrich_row colsX (fst p) (boxf fS (fst (snd p)))
                     (boxf fE (snd (snd p))))
       (combine (map (map clean_text) RX) (map (instants_of cols') rows1))).
Proof. induction 1; simpl; constructor; eauto. Qed.

Lemma rerun cols0 df1 fS fE jW colsX RX jWX :
  run_facts cols0 df1 fS fE jW ->
  Forall2 (same_raw colsX (enrich_cols cols0)) RX (rows df1) ->
  col_index COL_WEEK colsX = Some jWX ->
  (needs_dt colsX = true -> needs_dt cols0 = true) ->
  let se1 := map (instants_of (enrich_cols cols0)) (rows df1) in
  let rowsX := boxed_rows colsX (map (map clean_text) RX) se1 in
  enrich_schedule (mkDF colsX RX) = Ok (mkDF (enrich_cols colsX) rowsX)
  /\ map (start_instant (enrich_cols colsX)) rowsX
     = map (start_instant (enrich_cols cols0)) (rows df1)
  /\ map (end_instant (enrich_cols colsX)) rowsX
     = map (end_instant (enrich_cols cols0)) (rows df1).
Proof.
  intros RF HF2 HWX Hneeds.
  destruct RF as [Hcolumns Hrows Hweek Hsorted HsortS HsortW HflagS HflagE Hdt0]. cbn zeta.
  set (cols' := enrich_cols cols0) in *.
  set (se1 := map (instants_of cols') (rows df1)).
  set (jS := col_pos COL_START cols0) in *.
  assert (Hlen : length (map (map clean_text) RX) = length se1).
  { unfold se1. rewrite !length_map. eapply Forall2_length'; eauto. }
  destruct (boxed_rows_starts colsX _ _ Hlen) as [HS HE].
  assert (HfS : box_flag (map fst se1) = fS).
  { unfold se1. rewrite map_map. exact HflagS. }
  assert (HfE : box_flag (map snd se1) = fE).
  { unfold se1. rewrite map_map. exact HflagE. }
  split; [|split].
  2:{ rewrite HS. unfold se1. now rewrite map_map. }
  2:{ rewrite HE. unfold se1. now rewrite map_map. }
  rewrite enrich_schedule_eq. cbn [columns rows].
  (* the instants are recomputed as they were *)
  assert (Hmr : map_result (row_instants colsX) (map (map clean_text) RX) = Ok se1).
  { apply Forall2_map_result. unfold se1. apply Forall2_map_both.
    eapply Forall2_impl; [|apply (Forall2_and_r _ _ _ _ Hrows HF2)].
    intros rX r' [[Hri _] Hen]. cbv beta. rewrite Hri.
    apply (enriched_row_start _ _ _ _ Hen). }
  rewrite Hmr. cbn [bind]. rewrite HfS.
  (* the accessor is there when it is needed *)
  assert (Hdt : needs_dt colsX
                && negb (is_dt (infer_dtype (map (boxf fS) (map fst se1)))) = false).
  { destruct (needs_dt colsX) eqn:En; auto. cbn [andb].
    apply negb_false_iff. unfold se1. rewrite !map_map. cbn [instants_of fst].
    apply Hdt0. auto. }
  rewrite Hdt.
  (* the rows are aligned with those of the first run, key by key *)
  set (jSX := col_pos COL_START colsX).
  assert (HWX' : col_index COL_WEEK (enrich_cols colsX) = Some jWX).
  { rewrite col_index_enrich_other by reflexivity. exact HWX. }
  assert (Hal : Forall2
                  (fun r' x4 => cell jS r' = cell jSX x4 /\ cell jW r' = cell jWX x4)
                  (rows df1)
                  (boxed_rows colsX (map (map clean_text) RX) se1)).
  { unfold boxed_rows. rewrite HfS, HfE. unfold se1.
    eapply Forall2_Forall_l; [exact Hrows| |apply boxed_rows_aligned; exact HF2].
    intros r' x4 Hen (rX & [_ HWk] & ->). split.
    - unfold jS, jSX. rewrite (enriched_row_START_cell _ _ _ _ Hen).
      pose proof (enriched_get_START colsX (map clean_text rX)
                    (boxf fS (start_instant cols' r'))
                    (boxf fE (end_instant cols' r')) PNone) as K.
      unfold series_get in K. rewrite col_index_enrich_START in K. now rewrite K.
    - pose proof (enriched_get_other colsX (map clean_text rX)
                    (boxf fS (start_instant cols' r'))
                    (boxf fE (end_instant cols' r')) COL_WEEK PNaN
                    eq_refl eq_refl eq_refl eq_refl) as K.
      rewrite HWk in K. unfold series_get in K.
      fold cols' in Hweek. rewrite HWX', Hweek in K. now rewrite K. }
  rewrite sort_values_two. cbn [columns rows].
  rewrite col_index_enrich_START, HWX'. fold jSX.
  assert (HcS : column jSX (boxed_rows colsX (map (map clean_text) RX) se1)
                = column jS (rows df1)).
  { unfold column. symmetry. apply Forall2_eq_map.
    eapply Forall2_impl; [|exact Hal]. intros ? ? [K _]. exact K. }
  assert (HcW : column jWX (boxed_rows colsX (map (map clean_text) RX) se1)
                = column jW (rows df1)).
  { unfold column. symmetry. apply Forall2_eq_map.
    eapply Forall2_impl; [|exact Hal]. intros ? ? [_ K]. exact K. }
  rewrite HcS, HcW, HsortS, HsortW. cbn [andb].
  rewrite stable_sort_fix; [reflexivity|].
  eapply Sorted_transfer; [|exact Hal|exact Hsorted].
  intros x x' y y' [Hx1 Hx2] [Hy1 Hy2] Hle. cbn [lex_leb] in *.
  now rewrite <- Hx1, <- Hx2, <- Hy1, <- Hy2.
Qed.

(* ---------- the enriched table is a fixed point ---------- *)
Lemma has_enrich_cols cols0 :
  has COL_START (enrich_cols cols0) = true
  /\ has COL_END (enrich_cols cols0) = true
  /\ has COL_MONTH_NO (enrich_cols cols0) = true
  /\ has COL_DAY (enrich_cols cols0) = true.
Proof.
  unfold enrich_cols. repeat split.
  - rewrite !has_add_col by reflexivity. apply has_add_col_same.
  - rewrite !has_add_col by reflexivity. apply has_add_col_same.
  - rewrite !has_add_col by reflexivity. apply has_add_col_same.
  - apply has_add_col_same.
Qed.

Lemma enrich_cols_idem cols0 : enrich_cols (enrich_cols cols0) = enrich_cols cols0.
Proof.
  destruct (has_enrich_cols cols0) as (H1 & H2 & H3 & H4).
  unfold enrich_cols at 1.
  now rewrite (add_col_present _ _ H1), (add_col_present _ _ H2),
    (add_col_present _ _ H3), (add_col_present _ _ H4).
Qed.

Lemma needs_dt_enrich_cols cols0 : needs_dt (enrich_cols cols0) = false.
Proof.
  destruct (has_enrich_cols cols0) as (H1 & H2 & H3 & H4).
  unfold needs_dt.
  now rewrite (add_col_present _ _ H1), (add_col_present _ _ H2),
    (add_col_present _ _ H3), H3, H4.
Qed.

Lemma col_pos_of_index k cols j : col_index k cols = Some j -> col_pos k cols = j.
Proof. unfold col_pos. now intros ->. Qed.

Lemma length_set_if_absent_ge k cols v r :
  (length r <= length (set_if_absent k cols v r))%nat.
Proof.
  unfold set_if_absent. destruct (has k cols); [lia|apply length_set_cell_ge].
Qed.

Lemma enriched_row_lengths cols0 fS fE r :
  enriched_row cols0 fS fE r ->
  (col_pos COL_START cols0 < length r)%nat
  /\ (col_pos COL_END (add_col COL_START cols0) < length r)%nat.
Proof.
  intros (x & s & e & _ & _ & ->). unfold enrich_row.
  set (r1 := set_cell (col_pos COL_START cols0) (boxf fS s) x).
  set (r2 := set_cell (col_pos COL_END (add_col COL_START cols0)) (boxf fE e) r1).
  pose proof (length_set_cell (col_pos COL_START cols0) (boxf fS s) x) as L1.
  pose proof (length_set_cell (col_pos COL_END (add_col COL_START cols0)) (boxf fE e) r1) as L2.
  pose proof (length_set_cell_ge (col_pos COL_END (add_col COL_START cols0)) (boxf fE e) r1) as L3.
  fold r1 in L1. fold r2 in L2, L3.
  match goal with
  | |- context [set_if_absent ?k2 ?c2 ?v2 (set_if_absent ?k1 ?c1 ?v1 r2)] =>
      pose proof (length_set_if_absent_ge k1 c1 v1 r2) as L4;
      pose proof (length_set_if_absent_ge k2 c2 v2 (set_if_absent k1 c1 v1 r2)) as L5
  end.
  lia.
Qed.

Lemma enrich_row_idem cols0 fS fE r :
  enriched_row cols0 fS fE r ->
  enrich_row (enrich_cols cols0) r
    (boxf fS (start_instant (enrich_cols cols0) r))
    (boxf fE (end_instant (enrich_cols cols0) r)) = r.
Proof.
  intros Hen.
  destruct (has_enrich_cols cols0) as (H1 & H2 & H3 & H4).
  destruct (enriched_row_lengths _ _ _ _ Hen) as [L1 L2].
  unfold enrich_row.
  rewrite (add_col_present _ _ H1), (add_col_present _ _ H2),
    (add_col_present _ _ H3).
  unfold set_if_absent. rewrite H3, H4.
  rewrite (col_pos_of_index _ _ _ (col_index_enrich_START cols0)).
  rewrite (col_pos_of_index _ _ _ (col_index_enrich_END cols0)).
  rewrite <- (enriched_row_START_cell _ _ _ _ Hen).
  rewrite <- (enriched_row_END_cell _ _ _ _ Hen).
  rewrite (set_cell_same _ _ L1). apply set_cell_same. exact L2.
Qed.

Lemma Forall2_diag {A} (Q : A -> A -> Prop) l :
  Forall (fun x => Q x x) l -> Forall2 Q l l.
Proof. induction 1; constructor; auto. Qed.

Lemma map_id_in {A} (f : A -> A) l : (forall x, In x l -> f x = x) -> map f l = l.
Proof.
  induction l as [|x l IH]; simpl; auto. intros H.
  rewrite H by now left. f_equal. apply IH. intros y Hy. apply H. now right.
Qed.

Lemma combine_self_map {A B} (g : A -> B) l :
  combine l (map g l) = map (fun x => (x, g x)) l.
Proof. induction l; simpl; congruence. Qed.

(** Running the enricher on its own result gives that result. *)
Lemma enrich_schedule_fixed_point df df1 :
  enrich_schedule df = Ok df1 -> enrich_schedule df1 = Ok df1.
Proof.
  intros H.
  destruct (enrich_schedule_run_facts _ _ H) as (fS & fE & jW & RF).
  pose proof RF as RF'.
  destruct RF' as [Hcolumns Hrows Hweek Hsorted HsortS HsortW HflagS HflagE Hdt0].
  assert (HF2 : Forall2 (same_raw (enrich_cols (columns df)) (enrich_cols (columns df)))
                  (rows df1) (rows df1)).
  { apply Forall2_diag. eapply Forall_impl; [|exact Hrows].
    intros r Hen. unfold same_raw.
    now rewrite (map_fixed _ (enriched_row_fixed _ _ _ _ Hen)). }
  destruct (rerun _ _ _ _ _ _ _ jW RF HF2 Hweek) as [Hrun _].
  { now rewrite needs_dt_enrich_cols. }
  cbn zeta in Hrun.
  replace df1 with (mkDF (enrich_cols (columns df)) (rows df1)) at 1
    by (destruct df1 as [c1 r1]; cbn [columns rows] in *; congruence).
  rewrite Hrun. f_equal. destruct df1 as [c1 r1]. cbn [columns rows] in *.
  rewrite enrich_cols_idem. f_equal; [congruence|].
  unfold boxed_rows. rewrite !map_map. cbn [instants_of fst snd].
  change (fun x : Row => start_instant (enrich_cols (columns df)) x)
    with (start_instant (enrich_cols (columns df))).
  change (fun x : Row => end_instant (enrich_cols (columns df)) x)
    with (end_instant (enrich_cols (columns df))).
  rewrite HflagS, HflagE.
  assert (Hc : map (map clean_text) r1 = r1).
  { apply map_id_in. intros r Hr.
    apply map_fixed. eapply enriched_row_fixed.
    eapply Forall_forall in Hrows; eauto. }
  rewrite Hc, combine_self_map, map_map. cbn [fst snd instants_of].
  apply map_id_in. intros r Hr.
  apply enrich_row_idem. eapply Forall_forall in Hrows; eauto.
Qed.

Lemma cell_map_nth {A} (f : A -> pyval) l j d :
  (j < length l)%nat -> cell j (map f l) = f (nth j l d).
Proof.
  intros H. unfold cell. rewrite (nth_indep _ PNaN (f d)) by now rewrite length_map.
  apply map_nth.
Qed.

Lemma fixed_cell_nth j r : Forall fixed_cell r -> fixed_cell (cell j r).
Proof.
  intros H. unfold cell. destruct (nth_in_or_default j r PNaN) as [K|K].
  - eapply Forall_forall in H; eauto.
  - rewrite K. reflexivity.
Qed.

Lemma fixed_series_get cols r k :
  Forall fixed_cell r -> fixed_cell (series_get cols r k PNaN).
Proof.
  intros H. unfold series_get. destruct (col_index k cols); [|reflexivity].
  now apply fixed_cell_nth.
Qed.

Lemma select_get cols0 r' k d :
  str_eqb k COL_START = false -> str_eqb k COL_END = false ->
  str_eqb k COL_MONTH_NO = false -> str_eqb k COL_DAY = false ->
  series_get cols0
    (map (fun k => series_get (enrich_cols cols0) r' k PNaN) cols0) k d
  = series_get (enrich_cols cols0) r' k d.
Proof.
  intros H1 H2 H3 H4. unfold series_get at 1 3.
  rewrite (col_index_enrich_other k cols0) by assumption.
  destruct (col_index k cols0) as [j|] eqn:E; auto.
  rewrite (cell_map_nth _ cols0 j (@nil char)) by (eapply col_index_lt; eauto).
  rewrite (col_index_nth _ _ _ E). unfold series_get.
  now rewrite (col_index_enrich_other k cols0), E by assumption.
Qed.

(** Running the enricher on the raw columns of its result gives the
    same instants. *)
Lemma enrich_schedule_rerun_raw df df1 :
  enrich_schedule df = Ok df1 ->
  exists df2,
    enrich_schedule (select_columns (columns df) df1) = Ok df2
    /\ map (start_instant (columns df2)) (rows df2)
       = map (start_instant (columns df1)) (rows df1)
    /\ map (end_instant (columns df2)) (rows df2)
       = map (end_instant (columns df1)) (rows df1).
Proof.
  intros H.
  destruct (enrich_schedule_run_facts _ _ H) as (fS & fE & jW & RF).
  pose proof RF as RF'.
  destruct RF' as [Hcolumns Hrows Hweek Hsorted HsortS HsortW HflagS HflagE Hdt0].
  set (cols0 := columns df) in *.
  set (proj := fun r : Row => map (fun k => series_get (enrich_cols cols0) r k PNaN) cols0).
  assert (HF2 : Forall2 (same_raw cols0 (enrich_cols cols0))
                  (map proj (rows df1)) (rows df1)).
  { rewrite <- (map_id (rows df1)) at 2. apply Forall2_map_both.
    apply Forall2_diag. eapply Forall_impl; [|exact Hrows].
    intros r Hen. cbv beta.
    assert (Hfix : map clean_text (proj r) = proj r).
    { apply map_fixed. unfold proj. apply Forall_forall. intros v Hv.
      apply in_map_iff in Hv as (k & <- & _).
      apply fixed_series_get. eapply enriched_row_fixed; eauto. }
    unfold same_raw. rewrite Hfix. unfold proj. split.
    - unfold row_instants, date_str, time_str.
      now rewrite !select_get by reflexivity.
    - now rewrite select_get by reflexivity. }
  assert (HW : col_index COL_WEEK cols0 = Some jW).
  { rewrite <- Hweek. symmetry. now apply col_index_enrich_other. }
  destruct (rerun _ _ _ _ _ _ _ jW RF HF2 HW (fun x => x)) as (Hrun & HS & HE).
  cbn zeta in *.
  eexists. split.
  - unfold select_columns. rewrite Hcolumns. fold proj. exact Hrun.
  - cbn [columns rows]. rewrite Hcolumns. split; assumption.
Qed.

(* ---------- C9 ---------- *)
(** Claim C9.  [enrich_schedule] is a function of its argument, and
    running it again changes nothing: the enriched table is mapped to
    itself, and the raw columns of the enriched table give the same
    start and end instants, row by row. *)
Theorem enrich_schedule_deterministic_and_idempotent :
  (forall df r1 r2,
      enrich_schedule df = r1 -> enrich_schedule df = r2 -> r1 = r2)
  /\ (forall df df1,
         enrich_schedule df = Ok df1 ->
         enrich_schedule df1 = Ok df1
         /\ exists df2,
             enrich_schedule (select_columns (columns df) df1) = Ok df2
             /\ map (start_instant (columns df2)) (rows df2)
                = map (start_instant (columns df1)) (rows df1)
             /\ map (end_instant (columns df2)) (rows df2)
                = map (end_instant (columns df1)) (rows df1)).
Proof.
  split.
  - intros df r1 r2 <- <-. reflexivity.
  - intros df df1 H. split.
    + now apply enrich_schedule_fixed_point in H.
    + now apply enrich_schedule_rerun_raw.
Qed.

Lemma enrich_table_no_end : enrich_schedule table_no_end = Ok enriched_no_end.
Proof. vm_compute. reflexivity. Qed.
Lemma enrich_table_mixed : enrich_schedule table_mixed = Ok enriched_mixed.
Proof. vm_compute. reflexivity. Qed.
Lemma enrich_table_blank_month :
  enrich_schedule table_blank_month = Ok enriched_blank_month.
Proof. vm_compute. reflexivity. Qed.
Lemma enrich_table_twins : enrich_schedule table_twins = Ok enriched_twins.
Proof. vm_compute. reflexivity. Qed.


(** Claim C6 fails as stated: in a table that has a [Month #] column,
    a row whose month cell is blank keeps the blank although the row has
    a start instant. *)
Lemma blank_month_counterexample :
  ~ claim_month_and_day_derived_per_row table_blank_month.
Proof.
  intros H. destruct (H _ enrich_table_blank_month) as (paired & Hperm & HF2).
  change (rows enriched_blank_month)
    with [nth 0 (rows enriched_blank_month) []] in Hperm.
  apply Permutation_sym, Permutation_length_1_inv in Hperm. subst paired.
  inversion HF2 as [|? ? ? ? [HM _] _]; subst.
  specialize (HM eq_refl). vm_compute in HM. discriminate.
Qed.

(* ---------- C8: the failing input ---------- *)
(** Claim C8 at a table with one session and one row without a date:
    the start of the second row is [NaT], which passes the
    [isinstance] test, and [ics_from_rows] raises [ValueError] instead
    of skipping the row. *)
Lemma ics_from_rows_raises_on_missing_start :
  enrich_schedule table_mixed = Ok enriched_mixed
  /\ map (start_instant (columns enriched_mixed)) (rows enriched_mixed)
     = [Some (combine_IST (mk_date 2026 3 10) (mk_time 15 30)); None]
  /\ map (fun r => series_get (columns enriched_mixed) r COL_START PNone)
       (rows enriched_mixed)
     = [PTimestamp (combine_IST (mk_date 2026 3 10) (mk_time 15 30)); PNaT]
  /\ ics_from_rows enriched_mixed (lit "Coffee & Connect 2026") = Raise ValueError.
Proof. vm_compute. repeat split. Qed.

(* ---------- C10 ---------- *)
(** Claim C10.  Two exported rows with the same start instant and the
    same week label get the same UID line: the UID is made of the start
    in UTC, the week label and a fixed suffix. *)
Theorem equal_start_and_week_give_equal_uid cols r1 r2 lines1 lines2 :
  vevent cols r1 = Ok lines1 -> vevent cols r2 = Ok lines2 ->
  lines1 <> [] -> lines2 <> [] ->
  start_instant cols r1 = start_instant cols r2 ->
  series_get cols r1 COL_WEEK (PStr (lit "W"))
  = series_get cols r2 COL_WEEK (PStr (lit "W")) ->
  nth 1 lines1 [] = nth 1 lines2 []
  /\ exists dtstart_utc,
      nth 1 lines1 []
      = lit "UID:" ++ dtstart_utc ++ lit "-"
        ++ py_str (series_get cols r1 COL_WEEK (PStr (lit "W")))
        ++ lit "-coffee-connect@atul".
Proof.
  intros H1 H2 N1 N2 HS HW.
  unfold vevent, series_getitem in H1, H2.
  unfold start_instant, series_get in HS.
  destruct (col_index COL_START cols) as [jS|]; [|discriminate].
  destruct (col_index COL_END cols) as [jE|]; [|discriminate].
  cbn [bind] in H1, H2.
  destruct (negb (isinstance_datetime (cell jS r1))
            || negb (isinstance_datetime (cell jE r1))).
  { injection H1 as <-. congruence. }
  destruct (negb (isinstance_datetime (cell jS r2))
            || negb (isinstance_datetime (cell jE r2))).
  { injection H2 as <-. congruence. }
  destruct (utc_compact (cell jS r1)) as [u1|] eqn:U1; [|discriminate].
  destruct (utc_compact (cell jS r2)) as [u2|] eqn:U2; [|discriminate].
  cbn [bind] in H1, H2.
  destruct (utc_compact (cell jE r1)) as [v1|]; [|discriminate].
  destruct (utc_compact (cell jE r2)) as [v2|]; [|discriminate].
  cbn [bind] in H1, H2. injection H1 as <-. injection H2 as <-.
  cbn [nth].
  assert (u1 = u2).
  { destruct (cell jS r1), (cell jS r2); try discriminate.
    simpl in HS. injection HS as ->. congruence. }
  subst u2. unfold event_uid, fget.
  change (lit "Week") with COL_WEEK. rewrite <- HW. split; [reflexivity|].
  exists u1. reflexivity.
Qed.


(** Half an hour before the session of [table_mixed]: the session is
    on the boundary of the window and is returned. *)
Lemma upcoming_between_exact_witness :
  exists out,
    upcoming_between enriched_mixed T_1500 (minutes 30) = Ok out
    /\ Permutation (rows out)
         (filter (fun r => in_window T_1500 (minutes 30)
                             (start_instant (columns enriched_mixed) r))
            (rows enriched_mixed))
    /\ In (nth 0 (rows enriched_mixed) []) (rows out).
Proof.
  destruct (upcoming_between_exact table_mixed enriched_mixed T_1500 (minutes 30))
    as (out & H1 & _ & H3 & _ & _ & _ & _ & H8).
  - vm_compute. reflexivity.
  - vm_compute. reflexivity.
  - exists out. split; [exact H1|]. split; [exact H3|].
    apply H8.
    + left. reflexivity.
    + vm_compute. reflexivity.
    + vm_compute. reflexivity.
Defined.



(** [table_mixed] has no [Month #] column. *)
Lemma month_and_day_derived_for_missing_columns_witness :
  Forall (fun r =>
            series_get (columns enriched_mixed) r COL_MONTH_NO PNaN
            = match start_instant (columns enriched_mixed) r with
              | Some t => PInt (month (dt_date t))
              | None => PNaN
              end) (rows enriched_mixed).
Proof.
  apply (proj1 (month_and_day_derived_for_missing_columns table_mixed enriched_mixed
                  ltac:(vm_compute; reflexivity))).
  vm_compute. reflexivity.
Defined.


(** The enriched [table_mixed] is a fixed point. *)
Lemma enrich_schedule_deterministic_and_idempotent_witness :
  enrich_schedule enriched_mixed = Ok enriched_mixed.
Proof.
  apply (proj1 (proj2 enrich_schedule_deterministic_and_idempotent
                  table_mixed enriched_mixed ltac:(vm_compute; reflexivity))).
Defined.

(** The two sessions of [table_twins] differ in their description and
    share their UID. *)
Lemma equal_start_and_week_give_equal_uid_witness :
  exists lines1 lines2,
    vevent (columns enriched_twins) (nth 0 (rows enriched_twins) []) = Ok lines1
    /\ vevent (columns enriched_twins) (nth 1 (rows enriched_twins) []) = Ok lines2
    /\ nth 6 lines1 [] <> nth 6 lines2 []
    /\ nth 1 lines1 [] = nth 1 lines2 [].
Proof.
  eexists. eexists.
  split; [vm_compute; reflexivity|]. split; [vm_compute; reflexivity|].
  split; [vm_compute; discriminate|].
  eapply (equal_start_and_week_give_equal_uid (columns enriched_twins)
            (nth 0 (rows enriched_twins) []) (nth 1 (rows enriched_twins) [])).
  - vm_compute. reflexivity.
  - vm_compute. reflexivity.
  - discriminate.
  - discriminate.
  - vm_compute. reflexivity.
  - vm_compute. reflexivity.
Defined.







(* ------------------------------------------------------------------ *)
(** * Further properties *)

(* ---------- the calendar ---------- *)

Lemma cycle_round_trips :
  forallb (fun y =>
    forallb (fun m =>
      forallb (fun d => date_round_trips (Z.of_nat y) (Z.of_nat m) (Z.of_nat d))
        (seq 1 31))
      (seq 1 12))
    (seq 1 400) = true.
Proof. vm_compute. reflexivity. Qed.

Lemma decimal_value_lt c v : decimal_value c = Some v -> (v < 10)%N.
Proof.
  unfold decimal_value.
  destruct (find _ decimal_zeros) as [z|] eqn:F; [|discriminate].
  apply find_some in F as [_ F]. intros H. injection H as <-.
  apply andb_prop in F as [F1 F2].
  apply N.leb_le in F1. apply N.ltb_lt in F2. lia.
Qed.

Lemma isspace_not_decimal c : isspace c = true -> decimal_value c = None.
Proof.
  unfold isspace. intros H.
  repeat (apply orb_prop in H as [H|H]);
    try (apply N.eqb_eq in H; subst c; vm_compute; reflexivity).
  all: apply andb_prop in H as [H1 H2]; apply N.leb_le in H1; apply N.leb_le in H2.
  - assert (c = 9 \/ c = 10 \/ c = 11 \/ c = 12 \/ c = 13)%N as K by lia.
    repeat (destruct K as [K|K]); subst c; reflexivity.
  - assert (c = 28 \/ c = 29 \/ c = 30 \/ c = 31 \/ c = 32)%N as K by lia.
    repeat (destruct K as [K|K]); subst c; reflexivity.
  - assert (c = 8192 \/ c = 8193 \/ c = 8194 \/ c = 8195 \/ c = 8196 \/ c = 8197
            \/ c = 8198 \/ c = 8199 \/ c = 8200 \/ c = 8201 \/ c = 8202)%N as K by lia.
    repeat (destruct K as [K|K]); subst c; reflexivity.
Qed.

Lemma strip_digit_string (s : str) :
  Forall (fun c => isspace c = false) s -> strip s = s.
Proof.
  intros H. apply strip_no_ws. unfold no_ws. apply forallb_forall.
  rewrite Forall_forall in H. intros x Hx. now rewrite (H x Hx).
Qed.

Lemma isdecimal_value c : isdecimal c = true -> exists v, decimal_value c = Some v /\ (v < 10)%N.
Proof.
  unfold isdecimal. destruct (decimal_value c) as [v|] eqn:E; [|discriminate].
  intros _. exists v. split; auto. eapply decimal_value_lt; eauto.
Qed.

Lemma isdecimal_not_space c : isdecimal c = true -> isspace c = false.
Proof.
  intros H. destruct (isspace c) eqn:E; auto.
  apply isspace_not_decimal in E. unfold isdecimal in H. rewrite E in H. discriminate.
Qed.

Lemma range_digit lo hi c :
  (48 <= lo)%N -> (hi <= 57)%N -> ((lo <=? c) && (c <=? hi))%N = true ->
  decimal_value c = Some (c - 48)%N /\ (lo - 48 <= c - 48 <= hi - 48)%N /\ isspace c = false.
Proof.
  intros Hlo Hhi H. apply andb_prop in H as [H1 H2].
  apply N.leb_le in H1. apply N.leb_le in H2.
  assert (c = 48 \/ c = 49 \/ c = 50 \/ c = 51 \/ c = 52 \/ c = 53 \/ c = 54
          \/ c = 55 \/ c = 56 \/ c = 57)%N as K by lia.
  repeat (destruct K as [K|K]); subst c; (split; [reflexivity|split;[lia|reflexivity]]).
Qed.

Lemma py_int_1 c v : decimal_value c = Some v -> py_int [c] = Ok (Z.of_N v).
Proof.
  intros D. unfold py_int.
  assert (isspace c = false) as E.
  { destruct (isspace c) eqn:E; auto. apply isspace_not_decimal in E. congruence. }
  rewrite strip_digit_string by (repeat constructor; auto).
  cbn [int_digits]. rewrite D. reflexivity.
Qed.

Lemma py_int_2 c1 c2 v1 v2 :
  decimal_value c1 = Some v1 -> decimal_value c2 = Some v2 ->
  py_int [c1; c2] = Ok (10 * Z.of_N v1 + Z.of_N v2).
Proof.
  intros D1 D2. unfold py_int.
  assert (isspace c1 = false) as E1.
  { destruct (isspace c1) eqn:E; auto. apply isspace_not_decimal in E. congruence. }
  assert (isspace c2 = false) as E2.
  { destruct (isspace c2) eqn:E; auto. apply isspace_not_decimal in E. congruence. }
  rewrite strip_digit_string by (repeat constructor; auto).
  cbn [int_digits]. rewrite D1, D2. f_equal; lia.
Qed.

Ltac digit_facts :=
  repeat match goal with
  | H : (_ =? _)%N = true |- _ => apply N.eqb_eq in H; subst
  | H : isdecimal (Npos _) = true |- _ => vm_compute in H; try discriminate H; clear H
  | H : ((_ <=? Npos _) && (Npos _ <=? _))%N = true |- _ =>
      vm_compute in H; try discriminate H; clear H
  | H : ((?lo <=? ?c) && (?c <=? ?hi))%N = true |- _ =>
      apply (range_digit lo hi c) in H; [destruct H as (? & ? & _)| vm_compute; discriminate ..]
  | H : isdecimal ?c = true |- _ =>
      apply isdecimal_value in H; destruct H as (? & ? & ?)
  end;
  repeat match goal with
  | D : decimal_value (Npos ?p) = Some ?v |- _ =>
      is_var v; vm_compute in D; injection D as <-
  end;
  repeat match goal with
  | D1 : decimal_value ?c = Some ?a, D2 : decimal_value ?c = Some ?b |- _ =>
      assert (a = b) by congruence; clear D2
  end.

Lemma mk_time_valid h m t :
  Ok (mk_time h m) = Ok t -> 0 <= h < 24 -> 0 <= m < 60 -> valid_time t.
Proof. intros E. injection E as <-. intros. split; assumption. Qed.

Lemma strptime_HM_valid s t : strptime_HM s = Ok t -> valid_time t.
Proof.
  unfold strptime_HM, re_match, re_HM, re_H, re_M.
  destruct s as [|c1 [|c2 [|c3 [|c4 [|c5 [|c6 s]]]]]];
  cbn -[N.leb N.eqb isdecimal py_int].
  all: repeat match goal with
       | |- context [if ?b then _ else _] => destruct b eqn:?
       | |- context [match ?b with Some _ => _ | None => _ end] => destruct b eqn:?
       end; try discriminate.
  all: digit_facts; try discriminate; cbn [group directive_eqb].
  all: pose proof (eq_refl : decimal_value 50%N = Some 2%N);
       repeat (first [erewrite py_int_2 by eassumption
                     | erewrite py_int_1 by eassumption]);
       cbn [bind]; intros E; apply (mk_time_valid _ _ _ E); lia.
Qed.

Lemma date_eqb_eq a b : date_eqb a b = true -> a = b.
Proof.
  destruct a as [y1 m1 d1], b as [y2 m2 d2]. unfold date_eqb. cbn [year month day]. intros H.
  apply andb_prop in H as [H H3]. apply andb_prop in H as [H1 H2].
  apply Z.eqb_eq in H1, H2, H3. congruence.
Qed.

Lemma is_leap_shift y k : is_leap (y + 400 * k) = is_leap y.
Proof.
  unfold is_leap.
  replace (y + 400 * k) with (y + (100 * k) * 4) at 1 by lia.
  replace (y + 400 * k) with (y + (4 * k) * 100) at 1 by lia.
  replace (y + 400 * k) with (y + k * 400) by lia.
  now rewrite !Z.mod_add by lia.
Qed.

Lemma days_before_year_shift y k :
  days_before_year (y + 400 * k) = days_before_year y + DI400Y * k.
Proof.
  unfold days_before_year, DI400Y. cbv zeta.
  replace (y + 400 * k - 1) with (y - 1 + (100 * k) * 4) at 2 by lia.
  replace (y + 400 * k - 1) with (y - 1 + (4 * k) * 100) at 2 by lia.
  replace (y + 400 * k - 1) with (y - 1 + k * 400) at 2 by lia.
  rewrite !Z.div_add by lia. lia.
Qed.

Lemma ymd2ord_shift y m d k :
  ymd2ord (mk_date (y + 400 * k) m d) = ymd2ord (mk_date y m d) + DI400Y * k.
Proof.
  unfold ymd2ord, days_before_month. cbn [year month day].
  rewrite days_before_year_shift, is_leap_shift. lia.
Qed.

Lemma ord2ymd_shift n k :
  ord2ymd (n + DI400Y * k)
  = let d := ord2ymd n in mk_date (year d + 400 * k) (month d) (day d).
Proof.
  unfold ord2ymd. cbv zeta.
  replace (n + DI400Y * k - 1) with (n - 1 + k * DI400Y) by lia.
  rewrite Z.div_add, Z.mod_add by (unfold DI400Y; lia).
  repeat match goal with
         | |- context [if ?b then _ else _] => destruct b
         end; cbn [year month day]; f_equal; lia.
Qed.

Lemma days_in_month_le y m : days_in_month y m <= 31.
Proof.
  unfold days_in_month. destruct ((m =? 2) && is_leap y); [lia|].
  destruct (Z.to_nat m) as [|[|[|[|[|[|[|[|[|[|[|[|[|[|n]]]]]]]]]]]]]]; cbn; try lia.
Qed.

Lemma date_round_trips_spec y m d :
  date_round_trips y m d = true -> d <= days_in_month y m ->
  ord2ymd (ymd2ord (mk_date y m d)) = mk_date y m d.
Proof.
  unfold date_round_trips. intros C Hd.
  apply orb_prop in C as [C|C].
  - apply negb_true_iff, Z.leb_gt in C. lia.
  - apply date_eqb_eq. exact C.
Qed.

Lemma cycle_date_round_trips y m d :
  1 <= y <= 400 -> 1 <= m <= 12 -> 1 <= d <= 31 -> date_round_trips y m d = true.
Proof.
  intros Hy Hm Hd.
  assert (In (Z.to_nat y) (seq 1 400)) as Iy by (apply in_seq; lia).
  assert (In (Z.to_nat m) (seq 1 12)) as Im by (apply in_seq; lia).
  assert (In (Z.to_nat d) (seq 1 31)) as Id by (apply in_seq; lia).
  pose proof (proj1 (forallb_forall _ _) cycle_round_trips _ Iy) as Cy.
  cbv beta in Cy.
  pose proof (proj1 (forallb_forall _ _) Cy _ Im) as Cm. cbv beta in Cm.
  pose proof (proj1 (forallb_forall _ _) Cm _ Id) as Cd. cbv beta in Cd.
  rewrite !Z2Nat.id in Cd by lia. exact Cd.
Qed.

Lemma ord2ymd_ymd2ord d : valid_date d -> ord2ymd (ymd2ord d) = d.
Proof.
  destruct d as [y m dd]. unfold valid_date, MINYEAR. cbn [year month day].
  intros (Hy & Hm & Hd).
  set (k := (y - 1) / 400). set (y0 := (y - 1) mod 400 + 1).
  assert (y = y0 + 400 * k) as Ey.
  { unfold y0, k. pose proof (Z.div_mod (y - 1) 400). lia. }
  assert (1 <= y0 <= 400) as Hy0.
  { unfold y0. pose proof (Z.mod_pos_bound (y - 1) 400). lia. }
  assert (days_in_month y m = days_in_month y0 m) as Edim.
  { unfold days_in_month. now rewrite Ey, is_leap_shift. }
  rewrite Edim in Hd. clearbody y0 k. subst y.
  rewrite ymd2ord_shift, ord2ymd_shift. cbv zeta.
  pose proof (days_in_month_le y0 m) as Hle.
  rewrite (date_round_trips_spec y0 m dd) by (try apply cycle_date_round_trips; lia).
  reflexivity.
Qed.

Lemma strptime_Ymd_valid s d : strptime_Ymd s = Ok d -> valid_date d.
Proof.
  unfold strptime_Ymd. destruct (re_match re_Ymd s) as [[found rest]|]; [|discriminate].
  destruct rest; [|discriminate].
  destruct (py_int (group dY found)) as [y|]; [|discriminate].
  destruct (py_int (group dm found)) as [m|]; [|discriminate].
  destruct (py_int (group dd found)) as [dd|]; [|discriminate].
  cbn [bind]. unfold make_date.
  destruct (_ && _) eqn:E; [|discriminate]. intros H. injection H as <-.
  repeat (apply andb_prop in E as [E ?]).
  unfold valid_date. cbn [year month day]. lia.
Qed.

Lemma US_PER_DAY_eq : US_PER_DAY = 86400000000.
Proof. reflexivity. Qed.

Lemma combine_IST_fields d t :
  valid_time t ->
  combine_IST d t / US_PER_DAY + 1 = ymd2ord d
  /\ dt_hour (combine_IST d t) = hour t
  /\ dt_minute (combine_IST d t) = minute t
  /\ dt_second (combine_IST d t) = 0
  /\ dt_microsecond (combine_IST d t) = 0.
Proof.
  intros [Hh Hm].
  unfold dt_hour, dt_minute, dt_second, dt_microsecond, combine_IST.
  change US_PER_DAY with 86400000000. change US_PER_HOUR with 3600000000.
  change US_PER_MINUTE with 60000000. change US_PER_SECOND with 1000000.
  repeat split; Z.div_mod_to_equations; lia.
Qed.

Lemma dt_date_combine_IST d t :
  valid_date d -> valid_time t -> dt_date (combine_IST d t) = d.
Proof.
  intros Hd Ht. unfold dt_date.
  destruct (combine_IST_fields d t Ht) as (E & _). rewrite E.
  now apply ord2ymd_ymd2ord.
Qed.

Lemma div_step_4 y : y / 4 - (y - 1) / 4 = if y mod 4 =? 0 then 1 else 0.
Proof.
  destruct (y mod 4 =? 0) eqn:E; rewrite ?Z.eqb_eq, ?Z.eqb_neq in E;
    Z.div_mod_to_equations; lia.
Qed.

Lemma div_step_100 y : y / 100 - (y - 1) / 100 = if y mod 100 =? 0 then 1 else 0.
Proof.
  destruct (y mod 100 =? 0) eqn:E; rewrite ?Z.eqb_eq, ?Z.eqb_neq in E;
    Z.div_mod_to_equations; lia.
Qed.

Lemma div_step_400 y : y / 400 - (y - 1) / 400 = if y mod 400 =? 0 then 1 else 0.
Proof.
  destruct (y mod 400 =? 0) eqn:E; rewrite ?Z.eqb_eq, ?Z.eqb_neq in E;
    Z.div_mod_to_equations; lia.
Qed.

Lemma mod_400_100 y : y mod 400 = 0 -> y mod 100 = 0.
Proof. intros H. Z.div_mod_to_equations. lia. Qed.

Lemma mod_100_4 y : y mod 100 = 0 -> y mod 4 = 0.
Proof. intros H. Z.div_mod_to_equations. lia. Qed.

Lemma days_before_year_succ y :
  days_before_year (y + 1) = days_before_year y + 365 + (if is_leap y then 1 else 0).
Proof.
  unfold days_before_year, is_leap. cbv zeta.
  replace (y + 1 - 1) with y by lia.
  pose proof (div_step_4 y) as H4. pose proof (div_step_100 y) as H100.
  pose proof (div_step_400 y) as H400.
  destruct (y mod 4 =? 0) eqn:E4; destruct (y mod 100 =? 0) eqn:E100;
    destruct (y mod 400 =? 0) eqn:E400; cbn [andb orb negb];
    rewrite ?Z.eqb_eq, ?Z.eqb_neq in *;
    pose proof (mod_400_100 y); pose proof (mod_100_4 y); intuition lia.
Qed.

Lemma days_in_year_bound y m :
  1 <= m <= 12 ->
  0 <= days_before_month y m
  /\ days_before_month y m + days_in_month y m
     <= 365 + (if is_leap y then 1 else 0).
Proof.
  intros Hm. unfold days_before_month, days_in_month.
  assert (m = 1 \/ m = 2 \/ m = 3 \/ m = 4 \/ m = 5 \/ m = 6 \/ m = 7 \/ m = 8
          \/ m = 9 \/ m = 10 \/ m = 11 \/ m = 12) as K by lia.
  repeat (destruct K as [K|K]); subst m; destruct (is_leap y);
    split; apply Z.leb_le; reflexivity.
Qed.

Lemma ymd2ord_bounds d :
  valid_date d ->
  days_before_year (year d) + 1 <= ymd2ord d <= days_before_year (year d + 1).
Proof.
  intros (Hy & Hm & Hd). unfold ymd2ord. rewrite days_before_year_succ.
  pose proof (days_in_year_bound (year d) (month d) Hm). lia.
Qed.

Lemma days_before_year_mono y y' : y <= y' -> days_before_year y <= days_before_year y'.
Proof.
  intros H. unfold days_before_year. cbv zeta.
  pose proof (Z.div_le_mono (y - 1) (y' - 1) 4).
  pose proof (Z.div_le_mono (y - 1) (y' - 1) 400).
  assert ((y' - 1) / 100 - (y - 1) / 100 <= (y' - 1) / 4 - (y - 1) / 4
          \/ True) by auto.
  Z.div_mod_to_equations. lia.
Qed.

Lemma combine_IST_in_range d t :
  valid_date d -> valid_time t -> dt_in_range (combine_IST d t) = true.
Proof.
  intros Hd [Hh Hm]. pose proof (ymd2ord_bounds d Hd) as B.
  destruct Hd as (Hy & _).
  pose proof (days_before_year_mono 1 (year d)) as M1.
  pose proof (days_before_year_mono (year d + 1) (MAXYEAR + 1)) as M2.
  unfold MINYEAR, MAXYEAR in *.
  change (days_before_year 1) with 0 in M1.
  unfold dt_in_range, DT_END, combine_IST.
  change US_PER_DAY with 86400000000. change US_PER_HOUR with 3600000000.
  change US_PER_MINUTE with 60000000.
  apply andb_true_intro. split; [apply Z.leb_le|apply Z.ltb_lt]; unfold MAXYEAR; nia.
Qed.


(* ---------- the instants of an enriched row ---------- *)

Lemma try_strptime_HM_valid (m : result str) t :
  try_or_None (p <- m ;; strptime_HM p) = Some t -> valid_time t.
Proof.
  destruct m as [p|]; cbn [bind try_or_None]; [|discriminate].
  destruct (strptime_HM p) as [t'|] eqn:E; cbn [try_or_None]; [|discriminate].
  intros H. injection H as <-. eapply strptime_HM_valid; eauto.
Qed.

Lemma parse_time_range_valid v st et :
  parse_time_range v = Ok (st, et) ->
  (forall t, st = Some t -> valid_time t) /\ (forall t, et = Some t -> valid_time t).
Proof.
  destruct v; cbn [parse_time_range]; intros H; injection H as <- <-;
    try (split; discriminate).
  split; intros t Ht.
  - eapply try_strptime_HM_valid; eauto.
  - destruct (1 <? length _)%nat; [|discriminate].
    eapply try_strptime_HM_valid; eauto.
Qed.

(** What [row_instants] returns, case by case. *)
Lemma row_instants_cases cols r s e :
  row_instants cols r = Ok (s, e) ->
  exists od st et,
    try_or_None (strptime_Ymd (date_str cols r)) = od
    /\ parse_time_range (PStr (time_str cols r)) = Ok (st, et)
    /\ s = match od, st with
           | Some d, Some t => Some (combine_IST d t)
           | _, _ => None
           end
    /\ e = match od, et with
           | Some d, Some t => Some (combine_IST d t)
           | _, _ => match s with
                     | Some x => Some (x + minutes 30)
                     | None => None
                     end
           end.
Proof.
  unfold row_instants. intros K.
  destruct (parse_time_range_str (time_str cols r)) as (st & et & Hp).
  rewrite Hp in K. cbn [bind fst snd] in K.
  remember (try_or_None (strptime_Ymd (date_str cols r))) as od eqn:Eod.
  exists od, st, et.
  split; [reflexivity|]. split; [exact Hp|]. clear Eod.
  destruct od as [d|].
  - destruct et as [t2|]; cbn [bind] in K.
    + injection K as <- <-. auto.
    + destruct st as [t1|]; cbn [bind] in K.
      * unfold dt_add in K.
        destruct (dt_in_range (combine_IST d t1 + minutes 30)); cbn [bind] in K;
          [|discriminate].
        injection K as <- <-. auto.
      * injection K as <- <-. auto.
  - cbn [bind] in K. injection K as <- <-. destruct st, et; auto.
Qed.



Lemma has_column_has k df : has_column k df = has k (columns df).
Proof. reflexivity. Qed.

Lemma enriched_row_month cols0 fS fE r' :
  enriched_row cols0 fS fE r' ->
  (has COL_MONTH_NO cols0 = false ->
   series_get (enrich_cols cols0) r' COL_MONTH_NO PNaN
   = derived_month (enrich_cols cols0) r')
  /\ (has COL_DAY cols0 = false ->
      series_get (enrich_cols cols0) r' COL_DAY PNaN
      = derived_day (enrich_cols cols0) r').
Proof.
  intros (r & s & e & _ & _ & ->). unfold derived_month, derived_day, start_instant.
  rewrite enriched_get_START, instant_of_boxf.
  split; intros Hh.
  - rewrite enriched_get_MONTH, Hh. apply dt_month_boxf.
  - rewrite enriched_get_DAY, Hh. apply dt_strftime_a_boxf.
Qed.

(** Property X2. When the source has no [Month #] column, the month
    number of a row with a start instant is the month written in its
    [Date] cell; when it has no [Day] column, the day name is that of
    the weekday of this date. *)
Theorem derived_month_and_day_match_date df df' r s d :
  enrich_schedule df = Ok df' -> In r (rows df') ->
  start_instant (columns df') r = Some s ->
  strptime_Ymd (date_str (columns df') r) = Ok d ->
  (has_column COL_MONTH_NO df = false ->
   series_get (columns df') r COL_MONTH_NO PNaN = PInt (month d))
  /\ (has_column COL_DAY df = false ->
      series_get (columns df') r COL_DAY PNaN
      = PStr (nth (Z.to_nat ((ymd2ord d + 6) mod 7)) DAY_ABBR [])).
Proof.
  intros H Hr Hs Hd.
  pose proof (enrich_schedule_row_instants _ _ _ H Hr) as K.
  apply row_instants_cases in K as (od & st & et & Hd' & Hp & Ks & _).
  rewrite Hd in Hd'. cbn [try_or_None] in Hd'. subst od. rewrite Hs in Ks.
  destruct st as [st|]; [|discriminate]. injection Ks as ->.
  pose proof (strptime_Ymd_valid _ _ Hd) as Vd.
  destruct (parse_time_range_valid _ _ _ Hp) as [Vs _].
  specialize (Vs st eq_refl).
  apply enrich_schedule_rows in H as (Ecols & fS & fE & HF).
  rewrite Forall_forall in HF. specialize (HF r Hr).
  apply enriched_row_month in HF as [HM HD].
  rewrite !has_column_has. rewrite Ecols in *.
  unfold derived_month, derived_day in *. rewrite Hs in HM, HD.
  split; intros Hh.
  - rewrite (HM Hh). now rewrite dt_date_combine_IST.
  - rewrite (HD Hh). unfold strftime_a, dt_weekday.
    destruct (combine_IST_fields d st Vs) as (E & _). now rewrite E.
Qed.

(* ---------- how enrich_schedule ends ---------- *)

Lemma map_result_Raise {A B} (f : A -> result B) l e :
  map_result f l = Raise e -> exists x, In x l /\ f x = Raise e.
Proof.
  induction l as [|a l IH]; cbn [map_result]; [discriminate|].
  destruct (f a) as [y|e'] eqn:E; cbn [bind].
  - destruct (map_result f l) as [ys|e'']; cbn [bind]; [discriminate|].
    intros H. injection H as ->. destruct (IH eq_refl) as (x & Hx & Hfx).
    exists x. split; [now right|auto].
  - intros H. injection H as ->. exists a. split; [now left|auto].
Qed.


Lemma row_instants_Raise cols r e :
  row_instants cols r = Raise e ->
  e = OverflowError
  /\ exists d st,
      strptime_Ymd (date_str cols r) = Ok d
      /\ parse_time_range (PStr (time_str cols r)) = Ok (Some st, None)
      /\ dt_in_range (combine_IST d st + minutes 30) = false.
Proof.
  unfold row_instants.
  destruct (parse_time_range_str (time_str cols r)) as (st & et & Hp).
  rewrite Hp. cbn [bind fst snd].
  destruct (strptime_Ymd (date_str cols r)) as [d|] eqn:Hd; cbn [try_or_None].
  - destruct et as [t2|]; cbn [bind]; [discriminate|].
    destruct st as [t1|]; cbn [bind]; [|discriminate].
    unfold dt_add.
    destruct (dt_in_range (combine_IST d t1 + minutes 30)) eqn:E; cbn [bind];
      [discriminate|].
    intros H. injection H as <-. split; [reflexivity|].
    exists d, t1. auto.
  - cbn [bind]. discriminate.
Qed.

Lemma needs_dt_eq cols0 :
  needs_dt cols0 = negb (has COL_MONTH_NO cols0) || negb (has COL_DAY cols0).
Proof.
  unfold needs_dt. rewrite !has_add_col by reflexivity. reflexivity.
Qed.

Lemma is_dt_boxf l :
  is_dt (infer_dtype (map (boxf (box_flag l)) l)) = box_flag l.
Proof.
  unfold box_flag.
  destruct (existsb _ l) eqn:Ex; cbn [andb].
  - destruct (forallb _ l) eqn:Fa.
    + apply existsb_exists in Ex as (x & Hx & Sx).
      destruct x as [t|]; [|discriminate].
      unfold infer_dtype.
      destruct (map (boxf true) l) eqn:El.
      { destruct l; [destruct Hx|discriminate]. }
      rewrite <- El. clear El.
      assert (forallb is_int (map (boxf true) l) = false) as ->.
      { apply not_true_is_false. intros K. rewrite forallb_forall in K.
        specialize (K (boxf true (Some t)) (in_map _ _ _ Hx)). discriminate. }
      assert (forallb is_number (map (boxf true) l) = false) as ->.
      { apply not_true_is_false. intros K. rewrite forallb_forall in K.
        specialize (K (boxf true (Some t)) (in_map _ _ _ Hx)). discriminate. }
      assert (forallb datetime64_cell (map (boxf true) l) = true) as ->.
      { apply forallb_forall. intros v Hv. apply in_map_iff in Hv as (o & <- & Ho).
        rewrite forallb_forall in Fa. specialize (Fa o Ho).
        destruct o; auto. }
      reflexivity.
    + unfold infer_dtype.
      destruct (map (boxf false) l) eqn:El; [reflexivity|]. rewrite <- El. clear El.
      apply existsb_exists in Ex as (x & Hx & Sx).
      destruct x as [t|]; [|discriminate].
      assert (forallb is_int (map (boxf false) l) = false) as ->.
      { apply not_true_is_false. intros K. rewrite forallb_forall in K.
        specialize (K (boxf false (Some t)) (in_map _ _ _ Hx)). discriminate. }
      assert (forallb is_number (map (boxf false) l) = false) as ->.
      { apply not_true_is_false. intros K. rewrite forallb_forall in K.
        specialize (K (boxf false (Some t)) (in_map _ _ _ Hx)). discriminate. }
      assert (forallb datetime64_cell (map (boxf false) l) = false) as ->.
      { apply not_true_is_false. intros K. rewrite forallb_forall in K.
        assert (forallb (fun t => match t with Some x => in_ns_bounds x | None => true end) l
                = true) as C; [|congruence].
        apply forallb_forall. intros o Ho. specialize (K _ (in_map (boxf false) _ _ Ho)).
        destruct o; auto. }
      reflexivity.
  - unfold infer_dtype.
    destruct (map (boxf false) l) eqn:El; [reflexivity|]. rewrite <- El.
    assert (Forall (fun v => v = PNone) (map (boxf false) l)) as HN.
    { apply Forall_forall. intros v Hv. apply in_map_iff in Hv as (o & <- & Ho).
      destruct o as [t|]; [|reflexivity].
      exfalso. assert (existsb (fun t => match t with Some _ => true | None => false end) l
                       = true) as C; [|congruence].
      apply existsb_exists. exists (Some t). auto. }
    rewrite El in *. inversion HN as [|? ? Hp HN']; subst. reflexivity.
Qed.

Lemma existsb_map_clean (P : pyval -> bool) l :
  (forall v, P (clean_text v) = P v) ->
  existsb P (map clean_text l) = existsb P l.
Proof. intros H. induction l; cbn; [reflexivity|]. now rewrite H, IHl. Qed.

Lemma sortable_map_clean l : sortable (map clean_text l) = sortable l.
Proof.
  unfold sortable. rewrite !existsb_map_clean; auto; intros []; reflexivity.
Qed.

Lemma column_boxed_START cols0 R se :
  length R = length se ->
  column (col_pos COL_START cols0) (boxed_rows cols0 R se)
  = map (boxf (box_flag (map fst se))) (map fst se).
Proof.
  intros Hlen. unfold column, boxed_rows. rewrite !map_map.
  destruct (combine_fst_snd R se Hlen) as [_ Hse].
  generalize (box_flag (map fst se)) (box_flag (map snd se)). intros fS fE.
  rewrite <- Hse at 2. rewrite !map_map. apply map_ext. intros p.
  pose proof (col_index_enrich_START cols0) as HS.
  pose proof (enriched_get_START cols0 (fst p)
                (boxf fS (fst (snd p))) (boxf fE (snd (snd p))) PNaN) as G.
  unfold series_get in G. rewrite HS in G. exact G.
Qed.

Lemma sortable_boxf f l : sortable (map (boxf f) l) = true.
Proof.
  unfold sortable. apply negb_true_iff. apply andb_false_intro1.
  apply existsb_false_forall. intros v Hv. apply in_map_iff in Hv as (o & <- & _).
  destruct o, f; reflexivity.
Qed.

Lemma column_boxed_other cols0 R se k j :
  length R = length se ->
  str_eqb k COL_START = false -> str_eqb k COL_END = false ->
  str_eqb k COL_MONTH_NO = false -> str_eqb k COL_DAY = false ->
  col_index k cols0 = Some j ->
  column j (boxed_rows cols0 R se) = column j R.
Proof.
  intros Hlen H1 H2 H3 H4 Hj. unfold column, boxed_rows. rewrite !map_map.
  destruct (combine_fst_snd R se Hlen) as [HR _].
  generalize (box_flag (map fst se)) (box_flag (map snd se)). intros fS fE.
  rewrite <- HR at 2. rewrite !map_map. apply map_ext. intros p.
  pose proof (enriched_get_other cols0 (fst p)
                (boxf fS (fst (snd p))) (boxf fE (snd (snd p))) k PNaN H1 H2 H3 H4) as G.
  unfold series_get in G. rewrite col_index_enrich_other, Hj in G by assumption.
  exact G.
Qed.

Lemma column_map_clean j rs :
  column j (map (map clean_text) rs) = map clean_text (column j rs).
Proof.
  unfold column. rewrite !map_map. apply map_ext. intros r. apply cell_map_clean.
Qed.

(** [enrich_schedule], step by step: the instants of the rows, the
    [.dt] accessor, the sort. *)
Lemma enrich_schedule_outcome df :
  enrich_schedule df =
  match map_result (row_instants (columns df)) (map (map clean_text) (rows df)) with
  | Raise e => Raise e
  | Ok se =>
      if (negb (has_column COL_MONTH_NO df) || negb (has_column COL_DAY df))
         && negb (box_flag (map fst se))
      then Raise AttributeError
      else
        match col_index COL_WEEK (columns df) with
        | None => Raise KeyError
        | Some jW =>
            if sortable (column jW (rows df))
            then Ok (mkDF (enrich_cols (columns df))
                       (stable_sort (lex_leb [col_pos COL_START (columns df); jW])
                          (boxed_rows (columns df)
                             (map (map clean_text) (rows df)) se)))
            else Raise TypeError
        end
  end.
Proof.
  rewrite enrich_schedule_eq.
  destruct (map_result _ _) as [se|e] eqn:E; [|reflexivity]. cbn [bind].
  pose proof (Forall2_length' _ _ _ (map_result_Ok _ _ _ E)) as Hlen.
  rewrite needs_dt_eq, is_dt_boxf, !has_column_has.
  destruct (_ && _); [reflexivity|].
  rewrite sort_values_two. cbn [columns rows].
  rewrite col_index_enrich_START.
  rewrite col_index_enrich_other by reflexivity.
  destruct (col_index COL_WEEK (columns df)) as [jW|] eqn:EW; [|reflexivity].
  rewrite column_boxed_START by assumption. rewrite sortable_boxf. cbn [andb].
  rewrite (column_boxed_other _ _ _ COL_WEEK jW) by (assumption || reflexivity).
  rewrite column_map_clean, sortable_map_clean. reflexivity.
Qed.






Lemma series_get_cell cols r k j d :
  col_index k cols = Some j -> series_get cols r k d = cell j r.
Proof. unfold series_get. now intros ->. Qed.


Lemma missing_spec df c :
  In c (missing df) <-> In c expected_cols /\ has_column c df = false.
Proof.
  unfold missing. rewrite filter_In. now rewrite negb_true_iff.
Qed.

(** Property X5. The page warns about the expected columns the sheet
    lacks and goes on. Without a [Week] column [enrich_schedule] never
    returns a table; with every expected column it can only fail with an
    [OverflowError] or a [TypeError]. *)
Theorem missing_columns_and_enrich_schedule df_raw :
  (forall c, In c (missing df_raw)
             <-> In c expected_cols /\ has_column c df_raw = false)
  /\ (In COL_WEEK (missing df_raw) ->
      exists e, enrich_schedule df_raw = Raise e
                /\ (e = OverflowError \/ e = AttributeError \/ e = KeyError))
  /\ (missing df_raw = [] ->
      forall e, enrich_schedule df_raw = Raise e ->
                e = OverflowError \/ e = TypeError).
Proof.
  split; [apply missing_spec|]. split.
  - intros H. apply missing_spec in H as [_ H].
    rewrite enrich_schedule_outcome. unfold has_column in H.
    destruct (col_index COL_WEEK (columns df_raw)); [discriminate|].
    destruct (map_result _ _) as [se|e] eqn:E.
    + destruct (_ && _); eauto.
    + apply map_result_Raise in E as (r & _ & K).
      apply row_instants_Raise in K as (-> & _). eauto.
  - intros H e He.
    assert (forall c, In c expected_cols -> has_column c df_raw = true) as Hall.
    { intros c Hc. destruct (has_column c df_raw) eqn:Ec; [reflexivity|].
      assert (In c (missing df_raw)) as K by (apply missing_spec; auto).
      rewrite H in K. destruct K. }
    rewrite enrich_schedule_outcome in He.
    rewrite (Hall COL_MONTH_NO), (Hall COL_DAY) in He by (cbn; tauto).
    pose proof (Hall COL_WEEK) as HW. unfold has_column in HW.
    destruct (col_index COL_WEEK (columns df_raw)) as [jW|];
      [|discriminate HW; cbn; tauto].
    destruct (map_result _ _) as [se|e'] eqn:E.
    + cbn [negb orb andb] in He. destruct (sortable _); [discriminate|].
      injection He as <-. auto.
    + injection He as <-. apply map_result_Raise in E as (r & _ & K).
      apply row_instants_Raise in K as (-> & _). auto.
Qed.

Lemma add_col_eq k cols : add_col k cols = if has k cols then cols else cols ++ [k].
Proof. unfold add_col, has. destruct (col_index k cols); reflexivity. Qed.

Lemma enrich_cols_app cols0 :
  enrich_cols cols0
  = cols0 ++ filter (fun k => negb (has k cols0)) COMPUTED_COLS.
Proof.
  unfold enrich_cols.
  rewrite (add_col_eq COL_DAY). rewrite !has_add_col by reflexivity.
  rewrite (add_col_eq COL_MONTH_NO). rewrite !has_add_col by reflexivity.
  rewrite (add_col_eq COL_END). rewrite !has_add_col by reflexivity.
  rewrite (add_col_eq COL_START).
  unfold COMPUTED_COLS. cbn [filter].
  destruct (has COL_START cols0), (has COL_END cols0), (has COL_MONTH_NO cols0),
    (has COL_DAY cols0); cbn [negb]; rewrite <- ?app_assoc, ?app_nil_r; reflexivity.
Qed.

(** Property X6. On a table without rows [enrich_schedule] raises
    [AttributeError] when the [Month #] or the [Day] column is absent,
    [KeyError] when only the [Week] column is; otherwise it returns the
    table without rows, with the columns [Start (IST)] and [End (IST)]
    added. *)
Theorem enrich_schedule_without_rows cols :
  enrich_schedule (mkDF cols [])
  = if negb (has COL_MONTH_NO cols) || negb (has COL_DAY cols)
    then Raise AttributeError
    else if has COL_WEEK cols
         then Ok (mkDF (cols ++ filter (fun k => negb (has k cols))
                                  [COL_START; COL_END]) [])
         else Raise KeyError.
Proof.
  rewrite enrich_schedule_outcome. cbn [rows columns map map_result].
  rewrite !has_column_has. cbn [columns]. change (box_flag (map fst [])) with false.
  cbn [negb]. rewrite andb_true_r.
  destruct (has COL_MONTH_NO cols) eqn:E1; [|reflexivity].
  destruct (has COL_DAY cols) eqn:E2; [|reflexivity]. cbn [negb orb].
  change (has COL_WEEK cols)
    with (match col_index COL_WEEK cols with Some _ => true | None => false end).
  destruct (col_index COL_WEEK cols) as [jW|]; [|reflexivity].
  change (sortable (column jW [])) with true. cbv iota.
  unfold boxed_rows. cbn [combine map stable_sort].
  rewrite enrich_cols_app. unfold COMPUTED_COLS. cbn [filter].
  rewrite E1, E2. cbn [negb]. reflexivity.
Qed.

Lemma str_eqb_false a b : a <> b -> str_eqb a b = false.
Proof.
  intros H. destruct (str_eqb a b) eqn:E; [|reflexivity].
  apply str_eqb_eq in E. contradiction.
Qed.

Lemma series_get_map_clean cols r k :
  has k cols = true ->
  series_get cols (map clean_text r) k PNaN = clean_text (series_get cols r k PNaN).
Proof.
  unfold has, series_get. destruct (col_index k cols); [|discriminate].
  intros _. apply cell_map_clean.
Qed.

(** Property X7. [enrich_schedule] keeps every row and every column of
    the source: the columns of the result are those of the source
    followed by the computed columns the source lacks, and the rows of
    the result are, up to their order, the rows of the source with each
    cell outside [Start (IST)] and [End (IST)] passed through
    [clean_text]. *)
Theorem enrich_schedule_keeps_rows_and_columns df df' :
  enrich_schedule df = Ok df' ->
  columns df'
  = columns df ++ filter (fun k => negb (has_column k df)) COMPUTED_COLS
  /\ length (rows df') = length (rows df)
  /\ exists paired,
      Permutation paired (rows df')
      /\ Forall2
           (fun r0 r' =>
              forall k, has_column k df = true -> k <> COL_START -> k <> COL_END ->
                        series_get (columns df') r' k PNaN
                        = clean_text (series_get (columns df) r0 k PNaN))
           (rows df) paired.
Proof.
  intros H.
  apply enrich_schedule_inv in H as (se & jW & HF2 & _ & _ & _ & _ & ->).
  cbn [columns rows].
  pose proof (Forall2_length' _ _ _ HF2) as Hlen. rewrite length_map in Hlen.
  split; [apply enrich_cols_app|]. split.
  - rewrite (Permutation_length (stable_sort_perm _ _)).
    unfold boxed_rows. rewrite length_map, length_combine, length_map.
    rewrite <- Hlen. apply Nat.min_id.
  - exists (boxed_rows (columns df) (map (map clean_text) (rows df)) se).
    split; [symmetry; apply stable_sort_perm|].
    unfold boxed_rows.
    eapply Forall2_impl;
      [|apply (boxed_rows_paired (columns df) (box_flag (map fst se))
                 (box_flag (map snd se)) (rows df) se Hlen)].
    intros r0 r' (s & e & ->) k Hk HS HE.
    rewrite has_column_has in Hk.
    destruct (str_eqb k COL_MONTH_NO) eqn:EM.
    { apply str_eqb_eq in EM. subst k.
      rewrite enriched_get_MONTH, Hk. now apply series_get_map_clean. }
    destruct (str_eqb k COL_DAY) eqn:ED.
    { apply str_eqb_eq in ED. subst k.
      rewrite enriched_get_DAY, Hk. now apply series_get_map_clean. }
    rewrite enriched_get_other by (auto using str_eqb_false).
    now apply series_get_map_clean.
Qed.

(* ---------- upcoming_between on any table ---------- *)

Lemma map_result_compare (f : pyval -> result bool) (g : pyval -> bool) c :
  (forall v, f v = if comparable_with_datetime v then Ok (g v) else Raise TypeError) ->
  map_result f c
  = if forallb comparable_with_datetime c then Ok (map g c) else Raise TypeError.
Proof.
  intros H. induction c as [|v c IH]; [reflexivity|].
  cbn [map_result forallb map]. rewrite H.
  destruct (comparable_with_datetime v); cbn [bind andb]; [|reflexivity].
  rewrite IH. destruct (forallb comparable_with_datetime c); reflexivity.
Qed.

Lemma gt_datetime_eq now v :
  gt_datetime now v
  = if comparable_with_datetime v
    then Ok (match instant_of v with Some t => now <? t | None => false end)
    else Raise TypeError.
Proof. destruct v; reflexivity. Qed.

Lemma le_datetime_eq limit v :
  le_datetime limit v
  = if comparable_with_datetime v
    then Ok (match instant_of v with Some t => t <=? limit | None => false end)
    else Raise TypeError.
Proof. destruct v; reflexivity. Qed.

Lemma sortable_window now horizon j rs :
  sortable (column j (filter (fun r => in_window now horizon (instant_of (cell j r))) rs))
  = true.
Proof.
  unfold sortable. apply negb_true_iff, andb_false_intro1.
  apply existsb_false_forall. intros v Hv. unfold column in Hv.
  apply in_map_iff in Hv as (r & <- & Hr). apply filter_In in Hr as [_ Hr].
  destruct (cell j r); try discriminate; reflexivity.
Qed.

(** [upcoming_between], step by step. *)
Lemma upcoming_between_outcome df now horizon :
  upcoming_between df now horizon =
  match col_index COL_START (columns df) with
  | None => Raise KeyError
  | Some j =>
      if negb (forallb comparable_with_datetime (column j (rows df)))
      then Raise TypeError
      else if negb (dt_in_range (now + horizon)) then Raise OverflowError
      else Ok (mkDF (columns df)
                 (stable_sort (lex_leb [j])
                    (filter (fun r => in_window now horizon (instant_of (cell j r)))
                       (rows df))))
  end.
Proof.
  unfold upcoming_between, df_getitem.
  destruct (col_index COL_START (columns df)) as [j|] eqn:EJ; [|reflexivity].
  cbn [bind].
  rewrite (map_result_compare _ _ _ (gt_datetime_eq now)).
  destruct (forallb comparable_with_datetime (column j (rows df))) eqn:EC;
    cbn [bind negb]; [|reflexivity].
  unfold dt_add. destruct (dt_in_range (now + horizon)); cbn [bind negb]; [|reflexivity].
  rewrite (map_result_compare _ _ _ (le_datetime_eq (now + horizon))), EC.
  cbn [bind]. rewrite sort_values_one. cbn [columns rows]. rewrite EJ.
  assert (Hmask :
            map (fun p : bool * bool => fst p && snd p)
              (combine
                 (map (fun v => match instant_of v with
                                | Some t => now <? t
                                | None => false
                                end) (column j (rows df)))
                 (map (fun v => match instant_of v with
                                | Some t => t <=? now + horizon
                                | None => false
                                end) (column j (rows df))))
            = map (fun r => in_window now horizon (instant_of (cell j r))) (rows df)).
  { unfold column. rewrite combine_map_same, !map_map. apply map_ext. intros r.
    cbn [fst snd]. unfold in_window. destruct (instant_of (cell j r)); reflexivity. }
  rewrite Hmask, loc_mask_map.
  rewrite sortable_window. reflexivity.
Qed.

Lemma forallb_column (P : pyval -> bool) cols rs j k d :
  col_index k cols = Some j ->
  forallb P (column j rs) = forallb (fun r => P (series_get cols r k d)) rs.
Proof.
  intros Hj. unfold column. induction rs as [|r rs IH]; [reflexivity|].
  cbn [map forallb]. rewrite IH, (series_get_cell _ _ _ _ d Hj). reflexivity.
Qed.

Lemma forallb_false_exists {A} (P : A -> bool) l :
  forallb P l = false <-> exists x, In x l /\ P x = false.
Proof.
  induction l as [|a l IH]; cbn [forallb].
  - split; [discriminate|intros (x & [] & _)].
  - rewrite andb_false_iff, IH. split.
    + intros [H|(x & Hx & Px)].
      * exists a. split; [now left|assumption].
      * exists x. split; [now right|assumption].
    + intros (x & [<-|Hx] & Px); [now left|right; eauto].
Qed.

(** Property X8. The exceptions of [upcoming_between], on a table whose
    [Start (IST)] cells are not NaN (so that the column is no float
    column, which NumPy would compare): a [KeyError] exactly when there
    is no [Start (IST)] column; a [TypeError] exactly when there is one
    and it holds a text or an integer; an [OverflowError] exactly when
    the column can be compared and [now + horizon] is no datetime. It
    raises nothing else. *)
Theorem upcoming_between_errors df now horizon e :
  (forall r, In r (rows df) ->
             series_get (columns df) r COL_START PNone <> PNaN) ->
  upcoming_between df now horizon = Raise e <->
  match e with
  | KeyError => has_column COL_START df = false
  | TypeError =>
      has_column COL_START df = true
      /\ exists r, In r (rows df)
                   /\ comparable_with_datetime
                        (series_get (columns df) r COL_START PNone) = false
  | OverflowError =>
      has_column COL_START df = true
      /\ (forall r, In r (rows df) ->
                    comparable_with_datetime
                      (series_get (columns df) r COL_START PNone) = true)
      /\ dt_in_range (now + horizon) = false
  | ValueError | IndexError | AttributeError => False
  end.
Proof.
  intros _.
  rewrite upcoming_between_outcome. unfold has_column.
  destruct (col_index COL_START (columns df)) as [j|] eqn:EJ.
  - rewrite (forallb_column _ _ _ _ _ PNone EJ).
    destruct (forallb _ (rows df)) eqn:EC; cbn [negb].
    + pose proof (proj1 (forallb_forall _ _) EC) as HC.
      destruct (dt_in_range (now + horizon)) eqn:ER; cbn [negb].
      * split; [discriminate|].
        destruct e; try tauto; try discriminate.
        -- intros (_ & r & Hr & K). rewrite (HC r Hr) in K. discriminate.
        -- intros (_ & _ & K). discriminate.
      * split.
        -- intros H. injection H as <-. auto.
        -- destruct e; try tauto; try discriminate.
           intros (_ & r & Hr & K). rewrite (HC r Hr) in K. discriminate.
    + pose proof (proj1 (forallb_false_exists _ _) EC) as (r & Hr & K).
      split.
      * intros H. injection H as <-. eauto.
      * destruct e; try tauto; try discriminate.
        intros (_ & HC & _). rewrite (HC r Hr) in K. discriminate.
  - split.
    + intros H. injection H as <-. reflexivity.
    + destruct e; try tauto; try discriminate; intros (K & _); discriminate.
Qed.

Lemma in_stable_sort {A} (leb : A -> A -> bool) l x :
  In x (stable_sort leb l) <-> In x l.
Proof.
  split; apply Permutation_in; [|symmetry]; apply stable_sort_perm.
Qed.

Lemma upcoming_between_Ok df now horizon out :
  upcoming_between df now horizon = Ok out ->
  columns out = columns df
  /\ forall r, In r (rows out)
               <-> In r (rows df)
                   /\ in_window now horizon (start_instant (columns df) r) = true.
Proof.
  rewrite upcoming_between_outcome.
  destruct (col_index COL_START (columns df)) as [j|] eqn:EJ; [|discriminate].
  destruct (negb _); [discriminate|]. destruct (negb _); [discriminate|].
  intros H. injection H as <-. cbn [columns rows]. split; [reflexivity|].
  intros r. rewrite in_stable_sort, filter_In.
  unfold start_instant. rewrite (series_get_cell _ _ _ _ PNone EJ). reflexivity.
Qed.

(** Property X9. The windows of [upcoming_between] are nested: with the
    same [now], what it returns for a horizon is part of what it returns
    for a longer one (a session within 30 minutes is also within one
    day), the rest being the sessions that start after the shorter
    window; a horizon that is not positive gives no row. The rows
    returned are rows of the table, under the same columns. *)
Theorem upcoming_between_nested df now h1 h2 out1 out2 :
  h1 <= h2 ->
  upcoming_between df now h1 = Ok out1 ->
  upcoming_between df now h2 = Ok out2 ->
  columns out1 = columns df /\ columns out2 = columns df
  /\ incl (rows out1) (rows out2) /\ incl (rows out2) (rows df)
  /\ (forall r, In r (rows out2) ->
                (In r (rows out1)
                 <-> exists t, start_instant (columns df) r = Some t
                               /\ t <= now + h1))
  /\ (h1 <= 0 -> rows out1 = []).
Proof.
  intros Hh H1 H2.
  apply upcoming_between_Ok in H1 as [C1 R1].
  apply upcoming_between_Ok in H2 as [C2 R2].
  repeat split; auto.
  - intros r Hr. apply R1 in Hr as [Hr Hw]. apply R2. split; [exact Hr|].
    unfold in_window in *. destruct (start_instant (columns df) r); [|discriminate].
    apply andb_prop in Hw as [Ha Hb]. apply andb_true_intro.
    split; [exact Ha|]. apply Z.leb_le in Hb. apply Z.leb_le. lia.
  - intros r Hr. now apply R2 in Hr.
  - intros Hr1. apply R1 in Hr1 as [_ Hw]. unfold in_window in Hw.
    destruct (start_instant (columns df) r) as [t|]; [|discriminate].
    apply andb_prop in Hw as [_ Hb]. apply Z.leb_le in Hb. eauto.
  - intros (t & Ht & Hle). apply R1. apply R2 in H as [Hr Hw]. split; [exact Hr|].
    unfold in_window in *. rewrite Ht in *.
    apply andb_prop in Hw as [Ha _]. apply andb_true_intro.
    split; [exact Ha|]. now apply Z.leb_le.
  - intros Hle. destruct (rows out1) as [|r rs] eqn:E; [reflexivity|].
    assert (In r (r :: rs)) as Hr by now left.
    apply R1 in Hr as [_ Hw]. unfold in_window in Hw.
    destruct (start_instant (columns df) r) as [t|]; [|discriminate].
    apply andb_prop in Hw as [Ha Hb]. apply Z.ltb_lt in Ha. apply Z.leb_le in Hb. lia.
Qed.

(* ---------- ics_from_rows on an enriched table ---------- *)







(* ---------- toast_events ---------- *)

Lemma toast_loop_all label cols rs :
  (forall r, In r rs -> exists msg, toast_message label cols r = Ok msg) ->
  exists msgs,
    toast_loop label cols rs = (msgs, None)
    /\ Forall2 (fun r msg => toast_message label cols r = Ok msg) rs msgs.
Proof.
  induction rs as [|r rs IH]; intros H.
  - exists []. split; [reflexivity|constructor].
  - destruct (H r (or_introl eq_refl)) as (msg & Hmsg).
    destruct IH as (msgs & Hl & HF); [intros x Hx; apply H; now right|].
    exists (msg :: msgs). cbn [toast_loop]. rewrite Hmsg, Hl. cbn [fst snd].
    split; [reflexivity|now constructor].
Qed.

Lemma start_instant_cell cols r t :
  start_instant cols r = Some t ->
  exists j, col_index COL_START cols = Some j /\ cell j r = PTimestamp t.
Proof.
  unfold start_instant, series_get.
  destruct (col_index COL_START cols) as [j|]; [|discriminate].
  intros H. exists j. split; [reflexivity|].
  destruct (cell j r); try discriminate. cbn in H. congruence.
Qed.

Lemma toast_message_cases label cols r t :
  has COL_WEEK cols = true ->
  start_instant cols r = Some t ->
  toast_message label cols r
  = if has COL_PARTICIPANTS cols
    then Ok ([BELL] ++ lit " " ++ label ++ lit ": "
             ++ py_str (series_get cols r COL_WEEK PNaN) ++ lit " " ++ [BULLET]
             ++ lit " " ++ strftime_long t ++ lit " " ++ [BULLET]
             ++ lit " Participants: "
             ++ py_str (series_get cols r COL_PARTICIPANTS PNaN) ++ lit " "
             ++ [BULLET] ++ lit " Mode: "
             ++ fget cols r "Mode of Connect" EmptyString)
    else Raise KeyError.
Proof.
  intros HW Hs. apply start_instant_cell in Hs as (j & Hj & Hc).
  unfold toast_message, series_getitem, has, series_get in *.
  destruct (col_index COL_WEEK cols) as [jW|]; [|discriminate].
  rewrite Hj, Hc. cbn [bind strftime_method].
  destruct (col_index COL_PARTICIPANTS cols); reflexivity.
Qed.

(** Property X12. [toast_events] on what [upcoming_between] returns for
    an enriched table: with a [Participants (4)] column it raises
    nothing and shows one toast per session of the window, in the order
    of the rows; without that column it raises [KeyError] before the
    first toast, unless the window holds no session, when it shows
    nothing and raises nothing. *)
Theorem toast_events_on_upcoming raw df now horizon up label :
  enrich_schedule raw = Ok df ->
  upcoming_between df now horizon = Ok up ->
  if has_column COL_PARTICIPANTS df
  then exists msgs,
      toast_events up label = (msgs, None)
      /\ length msgs = length (rows up)
      /\ Forall2
           (fun r msg =>
              exists t,
                start_instant (columns df) r = Some t
                /\ now < t <= now + horizon
                /\ msg = [BELL] ++ lit " " ++ label ++ lit ": "
                         ++ py_str (series_get (columns df) r COL_WEEK PNaN)
                         ++ lit " " ++ [BULLET] ++ lit " " ++ strftime_long t
                         ++ lit " " ++ [BULLET] ++ lit " Participants: "
                         ++ py_str (series_get (columns df) r COL_PARTICIPANTS PNaN)
                         ++ lit " " ++ [BULLET] ++ lit " Mode: "
                         ++ fget (columns df) r "Mode of Connect" EmptyString)
           (rows up) msgs
  else toast_events up label
       = match rows up with
         | [] => ([], None)
         | _ :: _ => ([], Some KeyError)
         end.
Proof.
  intros H Hup.
  destruct (enrich_schedule_run_facts _ _ H) as (fS & fE & jW & RF).
  destruct RF as [Hcolumns _ Hweek _ _ _ _ _ _].
  apply upcoming_between_Ok in Hup as [Hc Hr].
  assert (HW : has COL_WEEK (columns df) = true).
  { unfold has. rewrite Hcolumns, Hweek. reflexivity. }
  assert (Hwin : forall r, In r (rows up) ->
                 exists t, start_instant (columns df) r = Some t
                           /\ now < t <= now + horizon).
  { intros r Hin. apply Hr in Hin as [_ Hw]. unfold in_window in Hw.
    destruct (start_instant (columns df) r) as [t|]; [|discriminate].
    apply andb_prop in Hw as [Ha Hb]. apply Z.ltb_lt in Ha. apply Z.leb_le in Hb.
    exists t. split; [reflexivity|lia]. }
  unfold toast_events. rewrite Hc. rewrite has_column_has.
  destruct (has COL_PARTICIPANTS (columns df)) eqn:HP.
  - destruct (toast_loop_all label (columns df) (rows up)) as (msgs & Hl & HF).
    { intros r Hin. destruct (Hwin r Hin) as (t & Ht & _).
      rewrite (toast_message_cases label _ r t HW Ht), HP. eauto. }
    exists msgs. split; [exact Hl|]. split.
    + symmetry. eapply Forall2_length'; eauto.
    + eapply Forall2_Forall_l; [apply Forall_forall; exact Hwin| |exact HF].
      cbv beta. intros r msg (t & Ht & Hlt) Hm.
      rewrite (toast_message_cases label _ r t HW Ht), HP in Hm.
      injection Hm as <-. exists t. auto.
  - destruct (rows up) as [|r rs]; [reflexivity|].
    destruct (Hwin r (or_introl eq_refl)) as (t & Ht & _).
    cbn [toast_loop]. rewrite (toast_message_cases label _ r t HW Ht), HP. reflexivity.
Qed.

(* ---------- the reminders of the page's script ---------- *)

(** Property X13. The reminder one day before, by the time left until
    the session starts: a timer is set when more than 24 and less than
    50 hours are left, and it fires 24 hours before the start; the
    notification is shown at once when less than 24 hours are left;
    nothing happens for a session that has started, for one that starts
    in 50 hours or more, and for one that starts in 24 hours to the
    millisecond. *)
Theorem day_reminder_by_time_left now ev :
  let left := ev_start_ts ev - now in
  let title := [ALARM_CLOCK] ++ lit " 1-day reminder: " ++ ev_title ev in
  let hour_ms := 60 * 60 * 1000 in
  (24 * hour_ms < left < 50 * hour_ms ->
   exists delay, day_reminder now ev = [SetTimeout title (ev_body ev) delay]
                 /\ now + delay = ev_start_ts ev - 24 * hour_ms)
  /\ (0 < left < 24 * hour_ms ->
      day_reminder now ev = [NotifyNow title (ev_body ev)])
  /\ (left <= 0 \/ left = 24 * hour_ms \/ 50 * hour_ms <= left ->
      day_reminder now ev = []).
Proof.
  cbv zeta. unfold day_reminder. cbv zeta.
  repeat split.
  - intros H. exists (ev_start_ts ev - 24 * 60 * 60 * 1000 - now).
    split; [|lia].
    destruct ((0 <? _) && (_ <? _)) eqn:E; [reflexivity|].
    apply andb_false_iff in E as [E|E]; apply Z.ltb_ge in E; lia.
  - intros H.
    destruct ((0 <? _) && (_ <? _)) eqn:E.
    + apply andb_prop in E as [E _]. apply Z.ltb_lt in E. lia.
    + destruct ((_ <=? 0) && (now <? _) && (_ <? _)) eqn:E2; [reflexivity|].
      apply andb_false_iff in E2 as [E2|E2];
        [apply andb_false_iff in E2 as [E2|E2]|];
        [apply Z.leb_gt in E2|apply Z.ltb_ge in E2|apply Z.ltb_ge in E2]; lia.
  - intros H.
    destruct ((0 <? _) && (_ <? _)) eqn:E.
    + apply andb_prop in E as [E1 E2]. apply Z.ltb_lt in E1, E2. lia.
    + destruct ((_ <=? 0) && (now <? _) && (_ <? _)) eqn:E2; [|reflexivity].
      apply andb_prop in E2 as [E2 E3]. apply andb_prop in E2 as [E1 E2].
      apply Z.leb_le in E1. apply Z.ltb_lt in E2, E3.
      apply andb_false_iff in E as [E|E]; apply Z.ltb_ge in E; lia.
Qed.

(** Property X14. The reminder 30 minutes before: a timer is set when
    more than 30 minutes and less than two and a half hours are left,
    and it fires 30 minutes before the start; the notification is shown
    at once when less than 30 minutes are left; nothing happens for a
    session that has started, for one that starts in two and a half
    hours or more, and for one that starts in 30 minutes to the
    millisecond. *)
Theorem half_hour_reminder_by_time_left now ev :
  let left := ev_start_ts ev - now in
  let title := [HOURGLASS] ++ lit " 30-min reminder: " ++ ev_title ev in
  let minute_ms := 60 * 1000 in
  (30 * minute_ms < left < 150 * minute_ms ->
   exists delay, half_hour_reminder now ev = [SetTimeout title (ev_body ev) delay]
                 /\ now + delay = ev_start_ts ev - 30 * minute_ms)
  /\ (0 < left < 30 * minute_ms ->
      half_hour_reminder now ev = [NotifyNow title (ev_body ev)])
  /\ (left <= 0 \/ left = 30 * minute_ms \/ 150 * minute_ms <= left ->
      half_hour_reminder now ev = []).
Proof.
  cbv zeta. unfold half_hour_reminder. cbv zeta.
  repeat split.
  - intros H. exists (ev_start_ts ev - 30 * 60 * 1000 - now).
    split; [|lia].
    destruct ((0 <? _) && (_ <? _)) eqn:E; [reflexivity|].
    apply andb_false_iff in E as [E|E]; apply Z.ltb_ge in E; lia.
  - intros H.
    destruct ((0 <? _) && (_ <? _)) eqn:E.
    + apply andb_prop in E as [E _]. apply Z.ltb_lt in E. lia.
    + destruct ((_ <=? 0) && (now <? _) && (_ <? _)) eqn:E2; [reflexivity|].
      apply andb_false_iff in E2 as [E2|E2];
        [apply andb_false_iff in E2 as [E2|E2]|];
        [apply Z.leb_gt in E2|apply Z.ltb_ge in E2|apply Z.ltb_ge in E2]; lia.
  - intros H.
    destruct ((0 <? _) && (_ <? _)) eqn:E.
    + apply andb_prop in E as [E1 E2]. apply Z.ltb_lt in E1, E2. lia.
    + destruct ((_ <=? 0) && (now <? _) && (_ <? _)) eqn:E2; [|reflexivity].
      apply andb_prop in E2 as [E2 E3]. apply andb_prop in E2 as [E1 E2].
      apply Z.leb_le in E1. apply Z.ltb_lt in E2, E3.
      apply andb_false_iff in E as [E|E]; apply Z.ltb_ge in E; lia.
Qed.

Lemma day_reminder_effect now ev eff :
  In eff (day_reminder now ev) ->
  now < ev_start_ts ev
  /\ match eff with
     | SetTimeout _ _ delay => 0 < delay /\ now + delay < ev_start_ts ev
     | NotifyNow _ _ => True
     end.
Proof.
  unfold day_reminder. cbv zeta.
  destruct ((0 <? _) && (_ <? _)) eqn:E.
  - intros [<-|[]]. apply andb_prop in E as [E1 E2]. apply Z.ltb_lt in E1, E2. lia.
  - destruct ((_ <=? 0) && (now <? _) && (_ <? _)) eqn:E2; [|intros []].
    intros [<-|[]]. apply andb_prop in E2 as [E2 _]. apply andb_prop in E2 as [_ E2].
    apply Z.ltb_lt in E2. auto.
Qed.

Lemma half_hour_reminder_effect now ev eff :
  In eff (half_hour_reminder now ev) ->
  now < ev_start_ts ev
  /\ match eff with
     | SetTimeout _ _ delay => 0 < delay /\ now + delay < ev_start_ts ev
     | NotifyNow _ _ => True
     end.
Proof.
  unfold half_hour_reminder. cbv zeta.
  destruct ((0 <? _) && (_ <? _)) eqn:E.
  - intros [<-|[]]. apply andb_prop in E as [E1 E2]. apply Z.ltb_lt in E1, E2. lia.
  - destruct ((_ <=? 0) && (now <? _) && (_ <? _)) eqn:E2; [|intros []].
    intros [<-|[]]. apply andb_prop in E2 as [E2 _]. apply andb_prop in E2 as [_ E2].
    apply Z.ltb_lt in E2. auto.
Qed.

Lemma reminder_lengths now ev :
  (length (day_reminder now ev) <= 1)%nat
  /\ (length (half_hour_reminder now ev) <= 1)%nat.
Proof.
  unfold day_reminder, half_hour_reminder. cbv zeta.
  split; repeat match goal with
                | |- context [if ?b then _ else _] => destruct b
                end; cbn [length]; lia.
Qed.

(** Property X15. The loop over the events never reminds of a session
    that has started: every effect belongs to an event that starts after
    [now], a timer has a positive delay and fires before its session
    starts, and an event gets at most two effects. *)
Theorem for_each_event_only_future_sessions now events :
  (forall eff, In eff (for_each_event now events) ->
     exists ev, In ev events /\ now < ev_start_ts ev
                /\ match eff with
                   | SetTimeout _ _ delay =>
                       0 < delay /\ now + delay < ev_start_ts ev
                   | NotifyNow _ _ => True
                   end)
  /\ (length (for_each_event now events) <= 2 * length events)%nat
  /\ (Forall (fun ev => ev_start_ts ev <= now) events ->
      for_each_event now events = []).
Proof.
  unfold for_each_event. repeat split.
  - intros eff H. apply in_flat_map in H as (ev & Hev & H).
    exists ev. split; [exact Hev|].
    apply in_app_or in H as [H|H].
    + now apply day_reminder_effect.
    + now apply half_hour_reminder_effect.
  - induction events as [|ev events IH]; [cbn; lia|].
    cbn [flat_map length]. rewrite !length_app.
    destruct (reminder_lengths now ev). lia.
  - intros H. induction H as [|ev events Hev _ IH]; [reflexivity|].
    cbn [flat_map]. rewrite IH.
    destruct (day_reminder now ev) as [|eff l] eqn:E1.
    + destruct (half_hour_reminder now ev) as [|eff l] eqn:E2; [reflexivity|].
      assert (In eff (half_hour_reminder now ev)) as K by (rewrite E2; now left).
      apply half_hour_reminder_effect in K. lia.
    + assert (In eff (day_reminder now ev)) as K by (rewrite E1; now left).
      apply day_reminder_effect in K. lia.
Qed.

(* ---------- the filtered table and the next session ---------- *)

Lemma in_loc_mask mask rs (r : Row) : In r (loc_mask mask rs) -> In r rs.
Proof.
  revert mask. induction rs as [|x rs IH]; intros [|b mask]; cbn [loc_mask];
    try (intros []).
  destruct b; [intros [<-|H]; [now left|right; eauto]|intros H; right; eauto].
Qed.

Lemma StronglySorted_loc_mask (R : Row -> Row -> Prop) mask rs :
  StronglySorted R rs -> StronglySorted R (loc_mask mask rs).
Proof.
  intros H. revert mask. induction H as [|x rs Hs IH Hx]; intros [|b mask];
    cbn [loc_mask]; try constructor.
  destruct b; [|apply IH]. constructor; [apply IH|].
  rewrite Forall_forall in *. intros y Hy. apply Hx. eapply in_loc_mask; eauto.
Qed.

Lemma Sorted_loc_mask js mask rs :
  Sorted (le_of (lex_leb js)) rs -> Sorted (le_of (lex_leb js)) (loc_mask mask rs).
Proof.
  intros H. apply StronglySorted_Sorted, StronglySorted_loc_mask.
  apply (@Sorted_StronglySorted _ (le_of (lex_leb js))); [|exact H].
  intros x y z. apply lex_leb_trans.
Qed.

Lemma existsb_incl {A} (P : A -> bool) l l' :
  incl l l' -> existsb P l = true -> existsb P l' = true.
Proof.
  intros Hi H. apply existsb_exists in H as (x & Hx & Px).
  apply existsb_exists. exists x. split; [now apply Hi|assumption].
Qed.

Lemma sortable_incl l l' : incl l l' -> sortable l' = true -> sortable l = true.
Proof.
  unfold sortable. intros Hi H. apply negb_true_iff in H. apply negb_true_iff.
  destruct (existsb is_int l) eqn:E1; [|reflexivity].
  destruct (existsb is_timestamp l) eqn:E2; [|reflexivity].
  rewrite (existsb_incl _ _ _ Hi E1), (existsb_incl _ _ _ Hi E2) in H. discriminate.
Qed.

Lemma column_incl j rs rs' : incl rs rs' -> incl (column j rs) (column j rs').
Proof.
  intros Hi v Hv. unfold column in *. apply in_map_iff in Hv as (r & <- & Hr).
  apply in_map. now apply Hi.
Qed.

(** Property X16. Filtering an enriched table with a mask of one entry
    per row and sorting it again, as the page does, cannot fail and
    changes no order: the filtered table is the selection of the rows of
    the mask, in the order of the enriched table. *)
Theorem filtered_table_is_the_selection raw df mask :
  enrich_schedule raw = Ok df ->
  length mask = length (rows df) ->
  df_f df mask = Ok (mkDF (columns df) (loc_mask mask (rows df))).
Proof.
  intros H _.
  destruct (enrich_schedule_run_facts _ _ H) as (fS & fE & jW & RF).
  destruct RF as [Hcolumns _ Hweek Hsorted HsortS HsortW _ _ _].
  unfold df_f. rewrite sort_values_two. cbn [columns rows].
  rewrite Hcolumns, col_index_enrich_START, Hweek.
  assert (incl (loc_mask mask (rows df)) (rows df)) as Hi
    by (intros r; apply in_loc_mask).
  rewrite (sortable_incl _ _ (column_incl _ _ _ Hi) HsortS).
  rewrite (sortable_incl _ _ (column_incl _ _ _ Hi) HsortW). cbn [andb].
  rewrite stable_sort_fix; [reflexivity|]. now apply Sorted_loc_mask.
Qed.

Lemma stable_sort_head_least js (l : list Row) x rest :
  stable_sort (lex_leb js) l = x :: rest ->
  In x l /\ forall y, In y l -> lex_leb js x y = true.
Proof.
  intros E.
  assert (Permutation (x :: rest) l) as P.
  { rewrite <- E. apply stable_sort_perm. }
  split; [eapply Permutation_in; [exact P|now left]|].
  pose proof (stable_sort_sorted (lex_leb js) (lex_leb_total js) l) as S.
  rewrite E in S.
  apply (@Sorted_StronglySorted _ (le_of (lex_leb js))) in S;
    [|intros a b c; apply lex_leb_trans].
  inversion S as [|? ? _ HF]; subst. rewrite Forall_forall in HF.
  intros y Hy. apply (Permutation_in _ (Permutation_sym P)) in Hy as [<-|Hy].
  - destruct (lex_leb_total js x x); assumption.
  - now apply HF.
Qed.

(** [next_df] on a table whose [Start (IST)] column can be compared with
    a datetime. *)
Lemma next_df_eq df now j :
  col_index COL_START (columns df) = Some j ->
  forallb comparable_with_datetime (column j (rows df)) = true ->
  next_df df now
  = Ok (mkDF (columns df)
          (firstn 1
             (stable_sort (lex_leb [j])
                (filter (fun r => match instant_of (cell j r) with
                                  | Some t => now <? t
                                  | None => false
                                  end) (rows df))))).
Proof.
  intros Hj Hc. unfold next_df, df_getitem. rewrite Hj. cbn [bind].
  rewrite (map_result_compare _ _ _ (gt_datetime_eq now)), Hc. cbn [bind].
  unfold column at 1. rewrite map_map.
  rewrite (loc_mask_map (fun r => match instant_of (cell j r) with
                                  | Some t => now <? t
                                  | None => false
                                  end)).
  rewrite sort_values_one. cbn [columns rows]. rewrite Hj.
  assert (sortable (column j (filter (fun r => match instant_of (cell j r) with
                                               | Some t => now <? t
                                               | None => false
                                               end) (rows df))) = true) as ->.
  { unfold sortable. apply negb_true_iff, andb_false_intro1.
    apply existsb_false_forall. intros v Hv. unfold column in Hv.
    apply in_map_iff in Hv as (r & <- & Hr). apply filter_In in Hr as [_ Hr].
    destruct (cell j r); try discriminate; reflexivity. }
  cbn [bind columns rows]. reflexivity.
Qed.

(** Property X17. The card of the next session, for a selection of rows
    of an enriched table that has a [Participants (4)] column: it names
    a session that starts after [now] and no later than any other such
    session of the selection, or, when no session of the selection
    starts after [now], says that there is none. *)
Theorem next_session_card_shows_earliest raw df f now :
  enrich_schedule raw = Ok df ->
  columns f = columns df -> incl (rows f) (rows df) ->
  has_column COL_PARTICIPANTS df = true ->
  (exists r s,
      In r (rows f) /\ start_instant (columns df) r = Some s /\ now < s
      /\ (forall r2 t2, In r2 (rows f) -> start_instant (columns df) r2 = Some t2 ->
                        now < t2 -> s <= t2)
      /\ next_session_card f now
         = Ok (Success
                 (lit "Next session: **"
                  ++ py_str (series_get (columns df) r COL_WEEK PNaN) ++ lit "** "
                  ++ [EM_DASH] ++ lit " **" ++ strftime_long s ++ lit " IST"
                  ++ lit "** " ++ [BULLET] ++ lit " Participants: "
                  ++ py_str (series_get (columns df) r COL_PARTICIPANTS PNaN)
                  ++ lit " " ++ [BULLET] ++ lit " Mode: "
                  ++ fget (columns df) r "Mode of Connect" EmptyString)))
  \/ ((forall r t, In r (rows f) -> start_instant (columns df) r = Some t -> t <= now)
      /\ next_session_card f now
         = Ok (Info (lit "No future sessions in the current filter."))).
Proof.
  intros H Hc Hi HP.
  destruct (enrich_schedule_run_facts _ _ H) as (fS & fE & jW & RF).
  destruct RF as [Hcolumns Hrows Hweek _ _ _ _ _ _].
  rewrite Forall_forall in Hrows.
  set (jS := col_pos COL_START (columns raw)).
  assert (HjS : col_index COL_START (columns f) = Some jS).
  { rewrite Hc, Hcolumns. apply col_index_enrich_START. }
  assert (Hcell : forall r, In r (rows f) ->
                  cell jS r = boxf fS (start_instant (columns df) r)).
  { intros r Hr. rewrite Hcolumns. apply enriched_row_START_cell with (fE := fE).
    apply Hrows. now apply Hi. }
  assert (Hcmp : forallb comparable_with_datetime (column jS (rows f)) = true).
  { apply forallb_forall. intros v Hv. unfold column in Hv.
    apply in_map_iff in Hv as (r & <- & Hr). rewrite (Hcell r Hr).
    destruct (start_instant (columns df) r), fS; reflexivity. }
  unfold next_session_card. rewrite (next_df_eq f now jS HjS Hcmp). cbn [bind rows columns].
  set (future := filter _ (rows f)).
  assert (Hfut : forall r, In r future <->
                 In r (rows f)
                 /\ exists t, start_instant (columns df) r = Some t /\ now < t).
  { intros r. unfold future. rewrite filter_In. split.
    - intros [Hr Hg]. split; [exact Hr|]. rewrite (Hcell r Hr) in Hg.
      rewrite instant_of_boxf in Hg.
      destruct (start_instant (columns df) r) as [t|]; [|discriminate].
      apply Z.ltb_lt in Hg. eauto.
    - intros [Hr (t & Ht & Hlt)]. split; [exact Hr|]. rewrite (Hcell r Hr), Ht.
      cbn [boxf instant_of]. now apply Z.ltb_lt. }
  destruct (stable_sort (lex_leb [jS]) future) as [|r rest] eqn:Es.
  - right. split; [|reflexivity].
    intros r t Hr Ht. destruct (Z.le_gt_cases t now) as [|Hgt]; [assumption|].
    exfalso. assert (In r future) as K by (apply Hfut; eauto).
    apply (Permutation_in _ (Permutation_sym (stable_sort_perm (lex_leb [jS]) future)))
      in K.
    rewrite Es in K. destruct K.
  - left. apply stable_sort_head_least in Es as [Hin Hleast].
    apply Hfut in Hin as [Hr (s & Hs & Hlt)].
    exists r, s. split; [exact Hr|]. split; [exact Hs|]. split; [exact Hlt|]. split.
    + intros r2 t2 Hr2 Ht2 Hlt2.
      assert (In r2 future) as K by (apply Hfut; eauto).
      specialize (Hleast r2 K). cbn [lex_leb] in Hleast.
      rewrite (Hcell r Hr), (Hcell r2 Hr2), Hs, Ht2 in Hleast.
      cbn [boxf key_leb] in Hleast.
      destruct (s <=? t2) eqn:E; [now apply Z.leb_le|discriminate].
    + cbn [firstn]. unfold series_getitem. rewrite Hc.
      pose proof Hweek as HW. rewrite <- Hcolumns in HW. rewrite HW. cbn [bind].
      rewrite <- Hc, HjS, (Hcell r Hr), Hs. cbn [boxf bind strftime_method].
      rewrite Hc. rewrite has_column_has in HP. unfold has in HP.
      unfold series_get. rewrite HW.
      destruct (col_index COL_PARTICIPANTS (columns df)) as [jP|]; [|discriminate].
      cbn [bind]. rewrite <- !app_assoc. reflexivity.
Qed.

(* ---------- clean_text and parse_time_range again ---------- *)

(** Property X18. [clean_text] is idempotent, and the strings it leaves
    as they are, are exactly those without the artifact, without control
    character, and made of words separated by single spaces. *)
Theorem clean_text_fixed_points :
  (forall x, clean_text (clean_text x) = clean_text x)
  /\ (forall s,
         clean_text (PStr s) = PStr s
         <-> contains EXCEL_CR s = false /\ no_ctrl s = true
             /\ single_spaced s = true)
  /\ (forall x, match x with PStr _ => True | _ => clean_text x = x end).
Proof.
  split; [apply clean_text_idem|]. split.
  - intros s. cbn [clean_text]. split.
    + intros H. injection H as H. rewrite <- H.
      split; [apply clean_str_no_artifact|].
      split; [apply clean_str_no_ctrl|apply clean_str_single_spaced].
    + intros (H1 & H2 & H3). f_equal. now apply clean_str_fix.
  - intros []; cbn [clean_text]; auto.
Qed.

(** Property X19. [parse_time_range] returns clock times only: an hour
    from 0 to 23 and a minute from 0 to 59. Cleaning its argument first
    changes nothing, since it cleans it itself. *)
Theorem parse_time_range_gives_clock_times v :
  (forall st et, parse_time_range v = Ok (st, et) ->
     (forall t, st = Some t -> valid_time t)
     /\ (forall t, et = Some t -> valid_time t))
  /\ parse_time_range (clean_text v) = parse_time_range v.
Proof.
  split.
  - apply parse_time_range_valid.
  - destruct v; try reflexivity. cbn [clean_text parse_time_range].
    rewrite clean_str_idem. reflexivity.
Qed.

Lemma plain_starts w : plain w = true -> w <> [] -> starts_word w = true.
Proof.
  intros H Hne. destruct (no_ws_starts w (plain_no_ws w H)); [assumption|contradiction].
Qed.

Lemma plain_rev w : plain w = true -> plain (rev w) = true.
Proof.
  unfold plain. rewrite !forallb_forall. intros H x Hx. apply H. now apply in_rev.
Qed.

Lemma starts_word_app u v : starts_word u = true -> starts_word (u ++ v) = true.
Proof. destruct u; [discriminate|auto]. Qed.

Lemma rstrip_space w : plain w = true -> w <> [] -> rstrip (w ++ [SP]) = w.
Proof.
  intros H Hne. unfold rstrip. rewrite rev_app_distr.
  change (rev [SP] ++ rev w) with (SP :: rev w). cbn [lstrip].
  change (isspace SP) with true. cbv iota.
  assert (lstrip (rev w) = rev w) as E.
  { apply lstrip_id. left. apply plain_starts; [now apply plain_rev|].
    intros K. apply Hne. rewrite <- (rev_involutive w), K. reflexivity. }
  rewrite E. apply rev_involutive.
Qed.

Lemma strip_space_r w : plain w = true -> w <> [] -> strip (w ++ [SP]) = w.
Proof.
  intros H Hne. unfold strip. rewrite rstrip_space by assumption.
  apply lstrip_id. left. now apply plain_starts.
Qed.

Lemma strip_space_l w : plain w = true -> w <> [] -> strip (SP :: w) = w.
Proof.
  intros H Hne. unfold strip, rstrip.
  change (rev (SP :: w)) with (rev w ++ [SP]).
  assert (lstrip (rev w ++ [SP]) = rev w ++ [SP]) as E.
  { apply lstrip_id. left. apply starts_word_app.
    apply plain_starts; [now apply plain_rev|].
    intros K. apply Hne. rewrite <- (rev_involutive w), K. reflexivity. }
  rewrite E, rev_app_distr, rev_involutive.
  change (rev [SP] ++ w) with (SP :: w). cbn [lstrip].
  change (isspace SP) with true. cbv iota.
  apply lstrip_id. left. now apply plain_starts.
Qed.

Lemma strip_spaced_core A B (c : char) :
  plain A = true -> A <> [] -> plain B = true -> B <> [] ->
  strip (A ++ SP :: c :: SP :: B) = A ++ SP :: c :: SP :: B.
Proof.
  intros HA NA HB NB. unfold strip, rstrip.
  assert (rev (A ++ SP :: c :: SP :: B) = rev B ++ SP :: c :: SP :: rev A) as E.
  { rewrite rev_app_distr. cbn [rev]. rewrite <- !app_assoc. reflexivity. }
  assert (lstrip (rev (A ++ SP :: c :: SP :: B)) = rev (A ++ SP :: c :: SP :: B)) as E2.
  { rewrite E. apply lstrip_id. left. apply starts_word_app.
    apply plain_starts; [now apply plain_rev|].
    intros K. apply NB. rewrite <- (rev_involutive B), K. reflexivity. }
  rewrite E2, rev_involutive. apply lstrip_id. left.
  apply starts_word_app. now apply plain_starts.
Qed.

Lemma remove_tag_spaced A B (sep : char) suffix b rest :
  plain A = true -> plain B = true -> B = b :: rest -> (b =? 73)%N = false ->
  sep = HYPHEN \/ sep = EN_DASH -> suffix = [] \/ suffix = lit " IST" ->
  replace (lit " IST") [] (A ++ SP :: sep :: SP :: B ++ suffix)
  = A ++ SP :: sep :: SP :: B.
Proof.
  intros HA HB EB Hb Hsep Hsuf.
  change (lit " IST") with (SP :: lit "IST").
  unfold replace. rewrite replace_from_lacks_head by (apply plain_lacks; auto).
  f_equal.
  assert (replace_from (SP :: lit "IST") [] 0 (B ++ suffix) = B) as EBs.
  { rewrite replace_from_lacks_head by (apply plain_lacks; auto).
    destruct Hsuf as [-> | ->]; [apply app_nil_r|].
    change (replace_from (SP :: lit "IST") [] 0 (lit " IST")) with (@nil char).
    apply app_nil_r. }
  assert (startswith (SP :: lit "IST") (SP :: B ++ suffix) = false) as S2.
  { rewrite EB. cbn [lit map list_ascii_of_string startswith app].
    change (N_of_ascii "I") with 73%N.
    rewrite N.eqb_sym in Hb. rewrite Hb. cbn. reflexivity. }
  assert (startswith (SP :: lit "IST") (SP :: sep :: SP :: B ++ suffix) = false) as S0.
  { destruct Hsep as [-> | ->]; reflexivity. }
  assert (startswith (SP :: lit "IST") (sep :: SP :: B ++ suffix) = false) as S1.
  { destruct Hsep as [-> | ->]; reflexivity. }
  change (replace_from (SP :: lit "IST") [] 0 (SP :: sep :: SP :: B ++ suffix))
    with (if startswith (SP :: lit "IST") (SP :: sep :: SP :: B ++ suffix)
          then [] ++ replace_from (SP :: lit "IST") [] (length (SP :: lit "IST") - 1)
                       (sep :: SP :: B ++ suffix)
          else SP :: replace_from (SP :: lit "IST") [] 0 (sep :: SP :: B ++ suffix)).
  rewrite S0. f_equal.
  change (replace_from (SP :: lit "IST") [] 0 (sep :: SP :: B ++ suffix))
    with (if startswith (SP :: lit "IST") (sep :: SP :: B ++ suffix)
          then [] ++ replace_from (SP :: lit "IST") [] (length (SP :: lit "IST") - 1)
                       (SP :: B ++ suffix)
          else sep :: replace_from (SP :: lit "IST") [] 0 (SP :: B ++ suffix)).
  rewrite S1. f_equal.
  change (replace_from (SP :: lit "IST") [] 0 (SP :: B ++ suffix))
    with (if startswith (SP :: lit "IST") (SP :: B ++ suffix)
          then [] ++ replace_from (SP :: lit "IST") [] (length (SP :: lit "IST") - 1)
                       (B ++ suffix)
          else SP :: replace_from (SP :: lit "IST") [] 0 (B ++ suffix)).
  rewrite S2, EBs. reflexivity.
Qed.

Lemma endash_to_hyphen_spaced A B sep :
  plain A = true -> plain B = true -> sep = HYPHEN \/ sep = EN_DASH ->
  replace [EN_DASH] [HYPHEN] (A ++ SP :: sep :: SP :: B)
  = A ++ SP :: HYPHEN :: SP :: B.
Proof.
  intros HA HB Hsep.
  assert (LA : lacks EN_DASH (A ++ [SP]) = true).
  { rewrite lacks_app, (plain_lacks A EN_DASH) by auto. reflexivity. }
  assert (LB : lacks EN_DASH (SP :: B) = true).
  { cbn [lacks forallb]. fold (lacks EN_DASH B).
    rewrite (plain_lacks B EN_DASH) by auto. reflexivity. }
  replace (A ++ SP :: sep :: SP :: B) with ((A ++ [SP]) ++ sep :: SP :: B)
    by (rewrite <- app_assoc; reflexivity).
  replace (A ++ SP :: HYPHEN :: SP :: B) with ((A ++ [SP]) ++ HYPHEN :: SP :: B)
    by (rewrite <- app_assoc; reflexivity).
  destruct Hsep as [ -> | -> ].
  - apply replace_lacks_head. rewrite lacks_app, LA.
    change (lacks EN_DASH (HYPHEN :: SP :: B))
      with (negb (HYPHEN =? EN_DASH)%N && lacks EN_DASH (SP :: B)).
    rewrite LB. reflexivity.
  - unfold replace. rewrite replace_from_lacks_head by auto. f_equal.
    change (replace_from [EN_DASH] [HYPHEN] 0 (EN_DASH :: SP :: B))
      with (HYPHEN :: replace [EN_DASH] [HYPHEN] (SP :: B)).
    rewrite replace_lacks_head; auto.
Qed.

Lemma clean_str_spaced A B (sep : char) suffix :
  plain A = true -> A <> [] -> plain B = true -> B <> [] ->
  sep = HYPHEN \/ sep = EN_DASH -> suffix = [] \/ suffix = lit " IST" ->
  clean_str (A ++ SP :: sep :: SP :: B ++ suffix)
  = A ++ SP :: sep :: SP :: B ++ suffix.
Proof.
  intros HA NA HB NB Hsep Hsuf.
  assert (WA : is_word A = true) by (apply no_ws_is_word; auto using plain_no_ws).
  assert (WB : is_word B = true) by (apply no_ws_is_word; auto using plain_no_ws).
  assert (WS : is_word [sep] = true) by (destruct Hsep as [-> | ->]; reflexivity).
  apply clean_str_fix.
  - change EXCEL_CR with (95%N :: lit "x000D_"). apply contains_lacks_head.
    rewrite lacks_app, (plain_lacks A 95%N) by auto.
    cbn [lacks forallb andb]. fold (lacks 95%N (B ++ suffix)).
    rewrite lacks_app, (plain_lacks B 95%N) by auto.
    destruct Hsep as [-> | ->], Hsuf as [-> | ->]; reflexivity.
  - unfold no_ctrl. rewrite forallb_app. cbn [forallb]. rewrite forallb_app.
    fold (no_ctrl A). fold (no_ctrl B).
    rewrite !semi_no_ctrl by (apply plain_semi; auto).
    destruct Hsep as [-> | ->], Hsuf as [-> | ->]; reflexivity.
  - destruct Hsuf as [ -> | -> ].
    + rewrite app_nil_r.
      apply (join_words_single_spaced [A; [sep]; B]). repeat constructor; auto.
    + replace (A ++ SP :: sep :: SP :: B ++ lit " IST")
        with (join [SP] [A; [sep]; B; lit "IST"]).
      * apply join_words_single_spaced. repeat constructor; auto.
      * reflexivity.
Qed.

Lemma parse_time_range_spaced A B sep suffix b rest :
  plain A = true -> A <> [] -> plain B = true -> B = b :: rest ->
  (b =? 73)%N = false ->
  sep = HYPHEN \/ sep = EN_DASH -> suffix = [] \/ suffix = lit " IST" ->
  parse_time_range (PStr (A ++ SP :: sep :: SP :: B ++ suffix))
  = Ok (try_or_None (strptime_HM A), try_or_None (strptime_HM B)).
Proof.
  intros HA NA HB EB Hb Hsep Hsuf.
  assert (NB : B <> []) by (rewrite EB; discriminate).
  unfold parse_time_range.
  rewrite clean_str_spaced by assumption.
  rewrite (remove_tag_spaced A B sep suffix b rest) by assumption.
  rewrite strip_spaced_core by assumption.
  rewrite endash_to_hyphen_spaced by assumption.
  replace (A ++ SP :: HYPHEN :: SP :: B) with ((A ++ [SP]) ++ HYPHEN :: SP :: B)
    by (rewrite <- app_assoc; reflexivity).
  rewrite split_on_app.
  2:{ rewrite lacks_app, (plain_lacks A HYPHEN) by auto. reflexivity. }
  rewrite split_on_lacks.
  2:{ cbn [lacks forallb]. fold (lacks HYPHEN B).
      rewrite (plain_lacks B HYPHEN) by auto. reflexivity. }
  cbn [map]. rewrite strip_space_r, strip_space_l by assumption.
  reflexivity.
Qed.

Lemma HHMM_heads :
  forallb (fun t => match HHMM t with
                    | c :: _ => negb (c =? 73)%N
                    | [] => false
                    end) clock_times = true.
Proof. vm_compute. reflexivity. Qed.

Lemma HHMM_head t :
  valid_time t -> exists b rest, HHMM t = b :: rest /\ (b =? 73)%N = false.
Proof.
  intros V. pose proof (proj1 (forallb_forall _ _) HHMM_heads t
                          (clock_times_complete t V)) as H.
  cbv beta in H. destruct (HHMM t) as [|b rest]; [discriminate|].
  exists b, rest. split; [reflexivity|]. now apply negb_true_iff.
Qed.

(** Property X20. [parse_time_range] also reads a range written with one
    space on each side of the dash, as in ["15:30 - 16:00 IST"]. *)
Theorem parse_time_range_reads_spaced_dash t1 t2 sep suffix :
  valid_time t1 -> valid_time t2 ->
  sep = HYPHEN \/ sep = EN_DASH -> suffix = [] \/ suffix = lit " IST" ->
  parse_time_range (PStr (HHMM t1 ++ SP :: sep :: SP :: HHMM t2 ++ suffix))
  = Ok (Some t1, Some t2).
Proof.
  intros V1 V2 Hsep Hsuf.
  destruct (HHMM_head t2 V2) as (b & rest & E & Hb).
  rewrite (parse_time_range_spaced (HHMM t1) (HHMM t2) sep suffix b rest);
    auto using HHMM_plain, HHMM_nonempty.
  now rewrite !strptime_HHMM.
Qed.

(* ---------- the lines of the calendar ---------- *)



(* ---------- what strptime does not read ---------- *)

Lemma strptime_HM_length s t : strptime_HM s = Ok t -> (length s <= 5)%nat.
Proof.
  unfold strptime_HM, re_match, re_HM, re_H, re_M.
  destruct s as [|c1 [|c2 [|c3 [|c4 [|c5 [|c6 s]]]]]];
    try (intros _; cbn [length]; lia).
  cbn -[N.leb N.eqb isdecimal py_int].
  repeat match goal with
         | |- context [if ?b then _ else _] => destruct b eqn:?
         | |- context [match ?b with Some _ => _ | None => _ end] => destruct b eqn:?
         end; discriminate.
Qed.

Lemma strptime_Ymd_length s d : strptime_Ymd s = Ok d -> (length s <= 10)%nat.
Proof.
  unfold strptime_Ymd, re_match, re_Ymd, re_Y, re_m, re_d.
  destruct s as [|c1 [|c2 [|c3 [|c4 [|c5 [|c6 [|c7 [|c8 [|c9 [|c10 [|c11 s]]]]]]]]]]];
    try (intros _; cbn [length]; lia).
  cbn -[N.leb N.eqb isdecimal py_int make_date].
  repeat match goal with
         | |- context [if ?b then _ else _] => destruct b eqn:?
         | |- context [match ?b with Some _ => _ | None => _ end] => destruct b eqn:?
         end; discriminate.
Qed.

Lemma strptime_HM_long s :
  (5 < length s)%nat -> try_or_None (strptime_HM s) = None.
Proof.
  intros L. destruct (strptime_HM s) as [t|] eqn:E; [|reflexivity].
  apply strptime_HM_length in E. lia.
Qed.

Lemma strptime_Ymd_long s :
  (10 < length s)%nat -> try_or_None (strptime_Ymd s) = None.
Proof.
  intros L. destruct (strptime_Ymd s) as [d|] eqn:E; [|reflexivity].
  apply strptime_Ymd_length in E. lia.
Qed.

Lemma zfill_length w n : (w <= length (zfill w n))%nat.
Proof. unfold zfill. rewrite length_app, repeat_length. lia. Qed.

Lemma HHMM_length t : (5 <= length (HHMM t))%nat.
Proof.
  unfold HHMM. rewrite !length_app.
  pose proof (zfill_length 2 (hour t)). pose proof (zfill_length 2 (minute t)).
  cbn [length lit]. change (length (lit ":")) with 1%nat. lia.
Qed.

Lemma plain_app u v : plain u = true -> plain v = true -> plain (u ++ v) = true.
Proof. intros Hu Hv. unfold plain. rewrite forallb_app. now apply andb_true_intro. Qed.

Lemma parse_time_range_three A B C :
  plain A = true -> plain B = true -> plain C = true ->
  parse_time_range (PStr (A ++ HYPHEN :: B ++ HYPHEN :: C))
  = Ok (try_or_None (strptime_HM A), try_or_None (strptime_HM B)).
Proof.
  intros HA HB HC.
  assert (HW : forallb semi_plain_char (A ++ HYPHEN :: B ++ HYPHEN :: C) = true).
  { rewrite forallb_app. cbn [forallb]. rewrite forallb_app. cbn [forallb].
    rewrite !plain_semi by auto. reflexivity. }
  assert (LW : lacks EN_DASH (A ++ HYPHEN :: B ++ HYPHEN :: C) = true).
  { rewrite lacks_app. cbn [lacks forallb]. fold (lacks EN_DASH (B ++ HYPHEN :: C)).
    rewrite lacks_app. cbn [lacks forallb]. fold (lacks EN_DASH C).
    rewrite !(fun s => plain_lacks s EN_DASH) by auto. reflexivity. }
  unfold parse_time_range.
  rewrite <- (app_nil_r (A ++ HYPHEN :: B ++ HYPHEN :: C)).
  rewrite clean_str_tagged; auto; [|destruct A; discriminate].
  rewrite strip_tag by auto using semi_no_ws.
  rewrite replace_lacks_head by exact LW.
  rewrite split_on_app by (apply plain_lacks; auto).
  rewrite split_on_app by (apply plain_lacks; auto).
  rewrite split_on_lacks by (apply plain_lacks; auto).
  cbn [map]. rewrite !strip_no_ws by auto using plain_no_ws.
  reflexivity.
Qed.

(** Property X21. What [parse_time_range] does not read: a third part
    after a second dash is ignored; an em dash is no separator, so that
    a range written with one gives no time at all; and a side that
    carries seconds is rejected, [%H:%M] reading at most five
    characters. *)
Theorem parse_time_range_unread_texts :
  (forall A B C,
      plain A = true -> plain B = true -> plain C = true ->
      parse_time_range (PStr (A ++ HYPHEN :: B ++ HYPHEN :: C))
      = Ok (try_or_None (strptime_HM A), try_or_None (strptime_HM B)))
  /\ (forall t1 t2,
         valid_time t1 -> valid_time t2 ->
         parse_time_range (PStr (HHMM t1 ++ EM_DASH :: HHMM t2))
         = Ok (None, None))
  /\ (forall t1 t2 sep,
         valid_time t1 -> valid_time t2 -> sep = HYPHEN \/ sep = EN_DASH ->
         parse_time_range
           (PStr ((HHMM t1 ++ lit ":00") ++ sep :: HHMM t2 ++ lit ":00"))
         = Ok (None, None))
  /\ (forall s, (5 < length s)%nat -> try_or_None (strptime_HM s) = None).
Proof.
  split; [exact parse_time_range_three|]. split; [|split].
  - intros t1 t2 V1 V2.
    rewrite <- (app_nil_r (HHMM t1 ++ EM_DASH :: HHMM t2)).
    rewrite parse_time_range_one; auto.
    + rewrite strptime_HM_long; [reflexivity|].
      rewrite length_app. cbn [length].
      pose proof (HHMM_length t1). pose proof (HHMM_length t2). lia.
    + destruct (HHMM t1); discriminate.
    + apply plain_app; [now apply HHMM_plain|].
      change (EM_DASH :: HHMM t2) with ([EM_DASH] ++ HHMM t2).
      apply plain_app; [reflexivity|now apply HHMM_plain].
  - intros t1 t2 sep V1 V2 Hsep.
    rewrite <- (app_nil_r (HHMM t2 ++ lit ":00")).
    rewrite parse_time_range_two; auto.
    + rewrite !strptime_HM_long; [reflexivity| |];
        rewrite length_app; [pose proof (HHMM_length t2)|pose proof (HHMM_length t1)];
        change (length (lit ":00")) with 3%nat; lia.
    + apply plain_app; [now apply HHMM_plain|reflexivity].
    + apply plain_app; [now apply HHMM_plain|reflexivity].
  - exact strptime_HM_long.
Qed.

(* ---------- which rows get instants ---------- *)

Lemma lstrip_length_ge a (c : char) b :
  isspace c = false -> (length (c :: b) <= length (lstrip (a ++ c :: b)))%nat.
Proof.
  intros Hc. induction a as [|x a IH].
  - cbn [app lstrip]. rewrite Hc. lia.
  - change ((x :: a) ++ c :: b) with (x :: a ++ c :: b). cbn [lstrip].
    destruct (isspace x); [exact IH|].
    cbn [length] in *. rewrite length_app. cbn [length]. lia.
Qed.

Lemma isoformat_IST_stripped_length t :
  (10 < length (strip (isoformat_IST t)))%nat.
Proof.
  unfold strip, rstrip, isoformat_IST.
  set (frac := if dt_microsecond t =? 0 then [] else lit "." ++ zfill 6 (dt_microsecond t)).
  set (Y := zfill 4 (year (dt_date t))).
  set (rest := zfill 2 (month (dt_date t)) ++ lit "-" ++ zfill 2 (day (dt_date t))
               ++ lit " " ++ zfill 2 (dt_hour t) ++ lit ":" ++ zfill 2 (dt_minute t)
               ++ lit ":" ++ zfill 2 (dt_second t) ++ frac).
  assert (E : Y ++ lit "-" ++ zfill 2 (month (dt_date t)) ++ lit "-"
              ++ zfill 2 (day (dt_date t)) ++ lit " " ++ zfill 2 (dt_hour t) ++ lit ":"
              ++ zfill 2 (dt_minute t) ++ lit ":" ++ zfill 2 (dt_second t) ++ frac
              ++ lit "+05:30"
              = (Y ++ lit "-" ++ rest) ++ lit "+05:30").
  { unfold rest. rewrite <- !app_assoc. reflexivity. }
  rewrite E. clear E.
  assert (R : lstrip (rev ((Y ++ lit "-" ++ rest) ++ lit "+05:30"))
              = rev ((Y ++ lit "-" ++ rest) ++ lit "+05:30")).
  { rewrite rev_app_distr. reflexivity. }
  rewrite R, rev_involutive. clear R.
  rewrite <- app_assoc.
  change (lit "-" ++ rest) with (45%N :: rest).
  change ((45%N :: rest) ++ lit "+05:30") with (45%N :: (rest ++ lit "+05:30")).
  pose proof (lstrip_length_ge Y 45%N (rest ++ lit "+05:30") eq_refl) as L.
  cbn [length] in L. rewrite length_app in L.
  assert (10 <= length rest)%nat as Lr.
  { unfold rest. rewrite !length_app.
    pose proof (zfill_length 2 (month (dt_date t))).
    pose proof (zfill_length 2 (day (dt_date t))).
    pose proof (zfill_length 2 (dt_hour t)).
    pose proof (zfill_length 2 (dt_minute t)).
    pose proof (zfill_length 2 (dt_second t)).
    change (length (lit "-")) with 1%nat. change (length (lit " ")) with 1%nat.
    change (length (lit ":")) with 1%nat. lia. }
  change (length (lit "+05:30")) with 6%nat in L.
  eapply Nat.lt_le_trans; [|exact L]. lia.
Qed.

(** Property X22. In the enriched table a row has a start instant exactly
    when its [Date] cell parses and its [Time] cell starts with a parsed
    time, and an end instant exactly when the date parses and one of the
    two times does: a row can have an end without a start.  A [Date]
    text of more than ten characters, as the text of a timestamp is,
    does not parse, so that such a row has neither. *)
Theorem instants_present_exactly_when_parsed df df' r st et :
  enrich_schedule df = Ok df' -> In r (rows df') ->
  parse_time_range (PStr (time_str (columns df') r)) = Ok (st, et) ->
  let od := try_or_None (strptime_Ymd (date_str (columns df') r)) in
  (start_instant (columns df') r = None <-> od = None \/ st = None)
  /\ (end_instant (columns df') r = None
      <-> od = None \/ (st = None /\ et = None))
  /\ ((10 < length (date_str (columns df') r))%nat -> od = None)
  /\ (forall t, series_get (columns df') r COL_DATE (PStr []) = PTimestamp t ->
                od = None).
Proof.
  intros H Hr Hp od.
  pose proof (enrich_schedule_row_instants _ _ _ H Hr) as K.
  apply row_instants_cases in K as (od' & st' & et' & Hd & Hp' & Ks & Ke).
  rewrite Hp in Hp'. injection Hp' as <- <-. fold od in Hd. subst od'.
  split; [|split; [|split]].
  - rewrite Ks. destruct od, st; intuition discriminate.
  - rewrite Ke, Ks. destruct od, st, et; intuition discriminate.
  - intros L. now apply strptime_Ymd_long.
  - intros t Ht. apply strptime_Ymd_long. unfold date_str. rewrite Ht.
    apply isoformat_IST_stripped_length.
Qed.

(* ---------- the further theorems on the examples ---------- *)

Lemma enrich_table_full : enrich_schedule table_full = Ok enriched_full.
Proof. vm_compute. reflexivity. Qed.


(** [table_no_end] has neither a [Month #] nor a [Day] column: the
    session is in month 3, on a Tuesday. *)
Lemma derived_month_and_day_match_date_witness :
  series_get (columns enriched_no_end) (nth 0 (rows enriched_no_end) [])
    COL_MONTH_NO PNaN = PInt 3
  /\ series_get (columns enriched_no_end) (nth 0 (rows enriched_no_end) [])
       COL_DAY PNaN = PStr (lit "Tue").
Proof.
  destruct (derived_month_and_day_match_date table_no_end enriched_no_end
              (nth 0 (rows enriched_no_end) []) T_1530 (mk_date 2026 3 10))
    as [HM HD].
  - vm_compute. reflexivity.
  - left. reflexivity.
  - vm_compute. reflexivity.
  - vm_compute. reflexivity.
  - split; [apply HM|apply HD]; vm_compute; reflexivity.
Defined.



(** [table_no_week] lacks the [Week] column, among others. *)
Lemma missing_columns_and_enrich_schedule_witness :
  In COL_WEEK (missing table_no_week)
  /\ exists e, enrich_schedule table_no_week = Raise e
               /\ (e = OverflowError \/ e = AttributeError \/ e = KeyError).
Proof.
  assert (In COL_WEEK (missing table_no_week)) as H.
  { apply filter_In. split; [cbn; tauto|reflexivity]. }
  split; [exact H|].
  exact (proj1 (proj2 (missing_columns_and_enrich_schedule table_no_week)) H).
Defined.

(** The two rows of [table_mixed] are kept. *)
Lemma enrich_schedule_keeps_rows_and_columns_witness :
  columns enriched_mixed
  = columns table_mixed
    ++ filter (fun k => negb (has_column k table_mixed)) COMPUTED_COLS
  /\ length (rows enriched_mixed) = length (rows table_mixed).
Proof.
  destruct (enrich_schedule_keeps_rows_and_columns table_mixed enriched_mixed)
    as (H1 & H2 & _).
  - vm_compute. reflexivity.
  - split; [exact H1|exact H2].
Defined.

(** A table without [Start (IST)] column. *)
Lemma upcoming_between_errors_witness :
  upcoming_between table_no_week T_1500 (minutes 30) = Raise KeyError.
Proof.
  apply (proj2 (upcoming_between_errors table_no_week T_1500 (minutes 30) KeyError
                  ltac:(intros r _; vm_compute; discriminate))).
  vm_compute. reflexivity.
Defined.

(** The session of [enriched_mixed], seen from 15:00: it is within 30
    minutes and within a day. *)
Lemma upcoming_between_nested_witness :
  incl (rows upcoming_mixed_30m) (rows upcoming_mixed_1d)
  /\ incl (rows upcoming_mixed_1d) (rows enriched_mixed)
  /\ length (rows upcoming_mixed_30m) = 1%nat.
Proof.
  destruct (upcoming_between_nested enriched_mixed T_1500 (minutes 30) (minutes 1440)
              upcoming_mixed_30m upcoming_mixed_1d)
    as (_ & _ & H1 & H2 & _).
  - vm_compute. discriminate.
  - vm_compute. reflexivity.
  - vm_compute. reflexivity.
  - split; [exact H1|]. split; [exact H2|]. reflexivity.
Defined.



(** The session of [enriched_full], seen from 15:00. *)
Lemma toast_events_on_upcoming_witness :
  exists msgs,
    toast_events upcoming_full_1h (lit "1-day reminder") = (msgs, None)
    /\ length msgs = 1%nat.
Proof.
  pose proof (toast_events_on_upcoming table_full enriched_full T_1500 (minutes 60)
                upcoming_full_1h (lit "1-day reminder")
                ltac:(vm_compute; reflexivity) ltac:(vm_compute; reflexivity)) as K.
  change (has_column COL_PARTICIPANTS enriched_full) with true in K. cbv iota in K.
  destruct K as (msgs & H1 & H2 & _).
  exists msgs. split; [exact H1|exact H2].
Defined.

(** 25 hours ahead a timer of one hour is set; 24 hours ahead nothing
    happens. *)
Lemma day_reminder_by_time_left_witness :
  (exists delay,
      day_reminder 0 (event_at 90000000)
      = [SetTimeout ([ALARM_CLOCK] ++ lit " 1-day reminder: Week 1")
           (lit "Participants: A") delay]
      /\ 0 + delay = 90000000 - 24 * (60 * 60 * 1000))
  /\ day_reminder 0 (event_at 86400000) = [].
Proof.
  split.
  - apply (proj1 (day_reminder_by_time_left 0 (event_at 90000000))).
    cbn. lia.
  - apply (proj2 (proj2 (day_reminder_by_time_left 0 (event_at 86400000)))).
    right. left. reflexivity.
Defined.

(** Ten minutes ahead the notification is shown at once; 30 minutes
    ahead nothing happens. *)
Lemma half_hour_reminder_by_time_left_witness :
  half_hour_reminder 0 (event_at 600000)
  = [NotifyNow ([HOURGLASS] ++ lit " 30-min reminder: Week 1") (lit "Participants: A")]
  /\ half_hour_reminder 0 (event_at 1800000) = [].
Proof.
  split.
  - apply (proj1 (proj2 (half_hour_reminder_by_time_left 0 (event_at 600000)))).
    cbn. lia.
  - apply (proj2 (proj2 (half_hour_reminder_by_time_left 0 (event_at 1800000)))).
    right. left. reflexivity.
Defined.

(** A session that started an hour ago. *)
Lemma for_each_event_only_future_sessions_witness :
  for_each_event 0 [event_at (-3600000)] = [].
Proof.
  apply (proj2 (proj2 (for_each_event_only_future_sessions 0 [event_at (-3600000)]))).
  constructor; [cbn; lia|constructor].
Defined.

(** The first row of [enriched_mixed] selected. *)
Lemma filtered_table_is_the_selection_witness :
  df_f enriched_mixed [true; false]
  = Ok (mkDF (columns enriched_mixed) [nth 0 (rows enriched_mixed) []]).
Proof.
  apply (filtered_table_is_the_selection table_mixed enriched_mixed [true; false]).
  - vm_compute. reflexivity.
  - reflexivity.
Defined.

(** The session of [enriched_full], seen from 15:00. *)
Lemma next_session_card_shows_earliest_witness :
  exists msg, next_session_card enriched_full T_1500 = Ok (Success msg).
Proof.
  destruct (next_session_card_shows_earliest table_full enriched_full enriched_full
              T_1500)
    as [(r & s & _ & _ & _ & _ & E)|(Hnone & _)].
  - vm_compute. reflexivity.
  - reflexivity.
  - intros r Hr. exact Hr.
  - vm_compute. reflexivity.
  - eexists. exact E.
  - exfalso.
    assert (T_1530 <= T_1500) as K.
    { apply (Hnone (nth 0 (rows enriched_full) [])); [now left|].
      vm_compute. reflexivity. }
    vm_compute in K. apply K. reflexivity.
Defined.

(** A string that is clean already. *)
Lemma clean_text_fixed_points_witness :
  clean_text (PStr (lit "Week 1")) = PStr (lit "Week 1").
Proof.
  apply (proj2 (proj1 (proj2 clean_text_fixed_points) (lit "Week 1"))).
  repeat split.
Defined.

(** The times of ["15:30-16:00"]. *)
Lemma parse_time_range_gives_clock_times_witness :
  valid_time (mk_time 15 30) /\ valid_time (mk_time 16 0).
Proof.
  destruct (proj1 (parse_time_range_gives_clock_times (PStr (lit "15:30-16:00")))
              (Some (mk_time 15 30)) (Some (mk_time 16 0))) as [H1 H2].
  - vm_compute. reflexivity.
  - split; [apply H1|apply H2]; reflexivity.
Defined.

(** ["15:30 - 16:00 IST"] *)
Lemma parse_time_range_reads_spaced_dash_witness :
  HHMM (mk_time 15 30) ++ SP :: HYPHEN :: SP :: HHMM (mk_time 16 0) ++ lit " IST"
  = lit "15:30 - 16:00 IST"
  /\ parse_time_range
       (PStr (HHMM (mk_time 15 30) ++ SP :: HYPHEN :: SP :: HHMM (mk_time 16 0)
              ++ lit " IST"))
     = Ok (Some (mk_time 15 30), Some (mk_time 16 0)).
Proof.
  split; [vm_compute; reflexivity|].
  apply parse_time_range_reads_spaced_dash.
  - unfold valid_time. simpl. lia.
  - unfold valid_time. simpl. lia.
  - left. reflexivity.
  - right. reflexivity.
Defined.

(** The second row of [enriched_mixed] comes from the [Date] cell
    ["TBD"]: it has no end instant. *)
Lemma instants_present_exactly_when_parsed_witness :
  end_instant (columns enriched_mixed) (nth 1 (rows enriched_mixed) []) = None.
Proof.
  destruct (instants_present_exactly_when_parsed table_mixed enriched_mixed
              (nth 1 (rows enriched_mixed) [])
              (Some (mk_time 15 30)) (Some (mk_time 16 0)))
    as (_ & [_ K] & _).
  - vm_compute. reflexivity.
  - right. left. reflexivity.
  - vm_compute. reflexivity.
  - apply K. left. vm_compute. reflexivity.
Defined.

(** ["15:30" + em dash + "16:00"] gives no time. *)
Lemma parse_time_range_unread_texts_witness :
  parse_time_range (PStr (HHMM (mk_time 15 30) ++ EM_DASH :: HHMM (mk_time 16 0)))
  = Ok (None, None).
Proof.
  apply (proj1 (proj2 parse_time_range_unread_texts));
    unfold valid_time; simpl; lia.
Defined.
